(** * Matching and settlement core of the exchange (app/db_utils, app/api/v1)

    A shallow embedding of the order book, the matching loop and the
    ledger of the Python sources, with the properties of the
    specification stated against it.

    Modelling conventions.
    - Python integers are [Z].
    - [Trader.balance] and [Position.quantity] are [Float] columns of
      alchemy/models.py: IEEE 754 doubles, in Python and in the database.
      Every value the code puts there comes from 0.0 by adding and
      subtracting integers, so it is an integer-valued double, an infinity
      or NaN; they are modelled by [float] below, with the rounding to 53
      bits written out.
    - [Order.amount], [Order.filled] and [Order.price] are [Integer]
      columns (32 bits): the INSERT of a row that does not fit is refused.
    - A database session is a working copy of the committed [Database];
      [session.commit()] returns the working copy, [session.rollback()]
      (or leaving the [async with] block on an exception) returns the
      committed state it started from.
    - The tables [traders] and [positions] are finite maps on their keys
      (primary key, respectively the unique index on
      (trader_id, symbol_ticker)).  The tables [orders] and [trades] are
      lists of rows; the position of a row in the list is not observable:
      a query either has an ORDER BY or returns its rows in an order the
      database chooses ([table_scan] below).
    - Raising is the left summand of [result]. *)

From stdpp Require Import gmap strings list fin_maps sorting.

Local Open Scope Z_scope.

(** ** alchemy/models.py *)

Inductive OrderSide := ASK | BID.
Inductive OrderStatus := NEW | EXECUTED | PARTIALLY_EXECUTED | CANCELLED.

Global Instance OrderSide_eq_dec : EqDecision OrderSide.
Proof. solve_decision. Defined.
Global Instance OrderStatus_eq_dec : EqDecision OrderStatus.
Proof. solve_decision. Defined.

(** Identifiers (uuid) are opaque; only equality is used. *)
Abbreviation uuid := N.

Record Order := mkOrder {
  o_id : uuid;
  o_trader_id : uuid;
  o_symbol_ticker : string;
  o_amount : Z;
  o_filled : Z;
  o_price : option Z;
  o_direction : OrderSide;
  o_status : OrderStatus;
  o_created_at : Z
}.

Record Trade := mkTrade {
  t_trader_from_id : uuid;
  t_trader_to_id : uuid;
  t_symbol_ticker : string;
  t_amount : Z;
  t_price : Z
}.

Global Instance Order_eq_dec : EqDecision Order.
Proof. solve_decision. Defined.
Global Instance Trade_eq_dec : EqDecision Trade.
Proof. solve_decision. Defined.

(** ** Exceptions *)

Inductive Exn :=
| HTTPException (status_code : Z) (detail : string)
| Exception (msg : string)
| AttributeError
| TypeError
| OverflowError
| DBAPIError.

Definition result (A : Type) : Type := Exn + A.
Definition ret {A} (a : A) : result A := inr a.
Definition raise {A} (e : Exn) : result A := inl e.
Definition bind {A B} (m : result A) (k : A → result B) : result B :=
  match m with
  | inl e => inl e
  | inr a => k a
  end.

Notation "'let*' x ':=' m 'in' k" := (bind m (λ x, k))
  (at level 10, x pattern, m at level 100, k at level 200).

(** ** Float columns

    [Num z] is the double whose value is the integer [z]; the doubles are
    the [Num z] with [is_double z].  -0.0 does not arise: the code never
    negates or multiplies a float, and x - x is +0.0 under
    round-to-nearest. *)

Inductive float := Num (z : Z) | PosInf | NegInf | NaN.

Global Instance float_eq_dec : EqDecision float.
Proof. solve_decision. Defined.

(** The integer nearest to n/d, the even one of the two when n/d lies
    halfway between them. *)
Definition round_half_even (n d : Z) : Z :=
  let q := n / d in
  let r := n mod d in
  if bool_decide (2 * r < d) then q
  else if bool_decide (d < 2 * r) then q + 1
  else if Z.even q then q else q + 1.

(** The distance between neighbouring doubles at magnitude [z]: 1 below
    2^53, 2 from 2^53 up to 2^54, and so on. *)
Definition ulp (z : Z) : Z := 2 ^ Z.max 0 (Z.log2 z - 52).

Definition round_magnitude (z : Z) : Z := ulp z * round_half_even z (ulp z).

(** Round to nearest, ties to even, with a significand of 53 bits and no
    bound on the exponent. *)
Definition rne (z : Z) : Z := Z.sgn z * round_magnitude (Z.abs z).

(** The double for the real number [z]: a result that rounds to 2^1024 or
    beyond overflows to an infinity. *)
Definition binary64 (z : Z) : float :=
  let r := rne z in
  if bool_decide (2 ^ 1024 ≤ r) then PosInf
  else if bool_decide (r ≤ - 2 ^ 1024) then NegInf
  else Num r.

Definition is_double (z : Z) : Prop := rne z = z ∧ - 2 ^ 1024 < z < 2 ^ 1024.

Global Instance is_double_dec z : Decision (is_double z).
Proof. unfold is_double. apply _. Defined.

Definition fneg (a : float) : float :=
  match a with
  | Num x => Num (- x)
  | PosInf => NegInf
  | NegInf => PosInf
  | NaN => NaN
  end.

Definition fadd (a b : float) : float :=
  match a, b with
  | Num x, Num y => binary64 (x + y)
  | NaN, _ | _, NaN => NaN
  | PosInf, NegInf | NegInf, PosInf => NaN
  | PosInf, _ | _, PosInf => PosInf
  | NegInf, _ | _, NegInf => NegInf
  end.

Definition fsub (a b : float) : float := fadd a (fneg b).

(** [float(z)] for a Python integer, the conversion the arithmetic below
    applies to its integer operand: correctly rounded, OverflowError ('int
    too large to convert to float') when the result is not finite. *)
Definition float_of_int (z : Z) : result float :=
  match binary64 z with
  | Num r => ret (Num r)
  | _ => raise OverflowError
  end.

(** [a + z], [a - z] and [a < z] for a float [a] and an integer [z]: the
    arithmetic converts the integer first; the comparison is between the
    exact values. *)
Definition add_int (a : float) (z : Z) : result float :=
  let* b := float_of_int z in ret (fadd a b).

Definition sub_int (a : float) (z : Z) : result float :=
  let* b := float_of_int z in ret (fsub a b).

Definition lt_int (a : float) (z : Z) : bool :=
  match a with
  | Num x => bool_decide (x < z)
  | NegInf => true
  | PosInf | NaN => false
  end.

(** A float that holds an integer of at most 53 bits; sums and
    differences of such integers that stay within 53 bits are computed
    exactly. *)
Definition exact (a : float) : Prop :=
  match a with
  | Num z => - 2 ^ 53 ≤ z ≤ 2 ^ 53
  | _ => False
  end.

Global Instance exact_dec a : Decision (exact a).
Proof. destruct a; apply _. Defined.

(** The integer a float row holds (0 for an infinity or NaN, which hold
    none). *)
Definition float_value (a : float) : Z :=
  match a with
  | Num z => z
  | _ => 0
  end.

(** The committed store.  [traders] maps [Trader.id] to [Trader.balance];
    [positions] maps (trader_id, symbol_ticker) to [Position.quantity]. *)
Record Database := mkDatabase {
  traders : gmap N float;
  positions : gmap (N * string) float;
  orders : list Order;
  trades : list Trade
}.

Definition set_traders (s : Database) (tr : gmap N float) : Database :=
  mkDatabase tr (positions s) (orders s) (trades s).
Definition set_positions (s : Database) (ps : gmap (N * string) float) : Database :=
  mkDatabase (traders s) ps (orders s) (trades s).
Definition set_orders (s : Database) (os : list Order) : Database :=
  mkDatabase (traders s) (positions s) os (trades s).

Definition set_amount (o : Order) (a : Z) : Order :=
  mkOrder (o_id o) (o_trader_id o) (o_symbol_ticker o) a (o_filled o)
          (o_price o) (o_direction o) (o_status o) (o_created_at o).
Definition set_filled (o : Order) (f : Z) : Order :=
  mkOrder (o_id o) (o_trader_id o) (o_symbol_ticker o) (o_amount o) f
          (o_price o) (o_direction o) (o_status o) (o_created_at o).
Definition set_status (o : Order) (st : OrderStatus) : Order :=
  mkOrder (o_id o) (o_trader_id o) (o_symbol_ticker o) (o_amount o) (o_filled o)
          (o_price o) (o_direction o) st (o_created_at o).

(** [session.add]/[session.flush] of an object already loaded from the
    table: the row with the same primary key is overwritten. *)
Definition flush_order (session : Database) (o : Order) : Database :=
  set_orders session
    (map (λ r, if decide (o_id r = o_id o) then o else r) (orders session)).

(** A new row of the table. *)
Definition add_order (session : Database) (o : Order) : Database :=
  set_orders session (orders session ++ [o]).

(** [session.add] of a new Order followed by the flush of [commit]: the
    INSERT sends amount, filled and price as 32-bit integers, and the
    driver refuses a value outside their range (sqlalchemy's DBAPIError, a
    subclass of Exception); the transaction is then lost as a whole. *)
Definition int32 (z : Z) : bool := bool_decide (- 2 ^ 31 ≤ z < 2 ^ 31).

Definition insertable (o : Order) : bool :=
  int32 (o_amount o) && int32 (o_filled o)
  && match o_price o with Some p => int32 p | None => true end.

Definition insert_order (session : Database) (o : Order) : result Database :=
  if insertable o then ret (add_order session o) else raise DBAPIError.

Section Engine.

(** [BASE_CURRENCY_TICKER = os.getenv('BASE_SYMBOL')]; the environment
    variable is taken to be set. *)
Variable BASE_CURRENCY_TICKER : string.

(** The order in which a SELECT without ORDER BY returns the rows it
    selects: some arrangement of them, which the database chooses (a row
    that was updated may come back after rows inserted later). *)
Variable table_scan : list Order → list Order.
Hypothesis table_scan_rows : ∀ rows, table_scan rows ≡ₚ rows.

Definition FINAL_ORDER_STATUSES : list OrderStatus :=
  [PARTIALLY_EXECUTED; EXECUTED; CANCELLED].
Definition ACTIVE_ORDER_STATUSES : list OrderStatus :=
  [NEW; PARTIALLY_EXECUTED].

(** ** db_utils/order.py: __get_orders *)

(** [ORDER BY price] on a nullable column: PostgreSQL treats NULL as
    larger than every value. *)
Definition price_lt (a b : option Z) : bool :=
  match a, b with
  | Some x, Some y => bool_decide (x < y)
  | Some _, None => true
  | None, _ => false
  end.

(** [sorts_before direction a b]: row [a] does not come after row [b] under
    [ORDER BY (desc(price) if BID else asc(price)), created_at]. *)
Definition sorts_before (direction : OrderSide) (a b : Order) : bool :=
  match direction with
  | BID =>
      price_lt (o_price b) (o_price a)
      || (bool_decide (o_price a = o_price b)
          && bool_decide (o_created_at a ≤ o_created_at b))
  | ASK =>
      price_lt (o_price a) (o_price b)
      || (bool_decide (o_price a = o_price b)
          && bool_decide (o_created_at a ≤ o_created_at b))
  end.

Fixpoint insert_sorted (direction : OrderSide) (x : Order) (l : list Order)
  : list Order :=
  match l with
  | [] => [x]
  | y :: l' =>
      if sorts_before direction x y then x :: y :: l'
      else y :: insert_sorted direction x l'
  end.

(** Rows with equal (price, created_at) keep their table order; SQL leaves
    the order of such ties open. *)
Definition order_by (direction : OrderSide) (l : list Order) : list Order :=
  foldr (insert_sorted direction) [] l.

Definition in_book (symbol_ticker : string) (direction : OrderSide)
    (o : Order) : bool :=
  bool_decide (o_symbol_ticker o = symbol_ticker)
  && bool_decide (o_direction o = direction)
  && bool_decide (o_status o ∈ ACTIVE_ORDER_STATUSES).

(** The query of __get_orders before [.limit(limit)]: the whole side of
    the book in priority order. *)
Definition book (session : Database) (symbol_ticker : string)
    (direction : OrderSide) : list Order :=
  order_by direction
    (List.filter (in_book symbol_ticker direction) (orders session)).

(** [limit] is the quantity of the submission, which the request schema
    keeps positive; a negative LIMIT, which the database refuses, is not
    modelled. *)
Definition __get_orders (session : Database) (symbol_ticker : string)
    (direction : OrderSide) (limit : Z) : list Order :=
  take (Z.to_nat limit) (book session symbol_ticker direction).

(** ** db_utils/order.py: buy, sell *)

Definition buy (session : Database) (seller_id buyer_id : uuid)
    (symbol_ticker : string) (price : option Z) (amount : Z)
  : result Database :=
  let buyer_trader := traders session !! buyer_id in
  let seller_trader := traders session !! seller_id in
  let buyer_position := positions session !! (buyer_id, symbol_ticker) in
  match buyer_trader with
  | None => raise AttributeError
  | Some buyer_balance =>
  match price with
  | None => raise TypeError
  | Some price =>
  if lt_int buyer_balance (amount * price)
  then raise (Exception "Not enough balance")
  else
    let trade_record :=
      mkTrade seller_id buyer_id symbol_ticker amount price in
    match seller_trader with
    | None => raise AttributeError
    | Some seller_balance =>
      (* seller_trader.balance += amount * price *)
      let* seller_balance := add_int seller_balance (amount * price) in
      let tr1 := <[seller_id := seller_balance]> (traders session) in
      (* buyer_trader.balance -= amount * price (same object when the ids agree) *)
      let* buyer_balance :=
        sub_int (default buyer_balance (tr1 !! buyer_id)) (amount * price) in
      let tr2 := <[buyer_id := buyer_balance]> tr1 in
      match buyer_position with
      | None => raise AttributeError
      | Some quantity =>
        (* buyer_position.quantity += amount *)
        let* quantity := add_int quantity amount in
        ret (mkDatabase tr2
               (<[(buyer_id, symbol_ticker) := quantity]> (positions session))
               (orders session)
               (trades session ++ [trade_record]))
      end
    end
  end
  end.

Definition sell (session : Database) (seller_id buyer_id : uuid)
    (symbol_ticker : string) (price : option Z) (amount : Z)
  : result Database :=
  let seller_trader := traders session !! seller_id in
  let seller_position := positions session !! (seller_id, symbol_ticker) in
  let buyer_position := positions session !! (buyer_id, symbol_ticker) in
  match seller_position with
  | None => raise AttributeError
  | Some seller_quantity =>
  if lt_int seller_quantity amount
  then raise (Exception "Not enough instruments")
  else
    match seller_trader with
    | None => raise AttributeError
    | Some seller_balance =>
    match price with
    | None => raise TypeError
    | Some price =>
      (* seller_trader.balance += amount * price *)
      let* seller_balance := add_int seller_balance (amount * price) in
      let tr1 := <[seller_id := seller_balance]> (traders session) in
      (* seller_position.quantity -= amount *)
      let* seller_quantity := sub_int seller_quantity amount in
      let ps1 := <[(seller_id, symbol_ticker) := seller_quantity]> (positions session) in
      (* buyer_position.quantity += amount (same row when the ids agree) *)
      match buyer_position with
      | None => raise AttributeError
      | Some buyer_quantity =>
        let* buyer_quantity :=
          add_int (default buyer_quantity (ps1 !! (buyer_id, symbol_ticker))) amount in
        let ps2 := <[(buyer_id, symbol_ticker) := buyer_quantity]> ps1 in
        ret (mkDatabase tr1 ps2 (orders session)
               (trades session
                  ++ [mkTrade seller_id buyer_id symbol_ticker amount price]))
      end
    end
    end
  end.

(** ** db_utils/order.py: partially_execute_order *)

Definition partially_execute_order (order : Order) (amount : Z) : result Order :=
  if bool_decide (o_amount order < amount)
  then raise (Exception "Order not enough amount")
  else
    let order := set_amount order (o_amount order - amount) in
    let order := set_filled order (o_filled order + amount) in
    ret (set_status order
           (if bool_decide (o_amount order = 0) then EXECUTED
            else PARTIALLY_EXECUTED)).

(** ** db_utils/order.py: freeze_balance, unfreeze_balance *)

Definition freeze_balance (session : Database) (trader_id : uuid)
    (symbol_ticker : string) (amount : Z) : result Database :=
  match traders session !! trader_id with
  | None => raise AttributeError
  | Some balance =>
    if bool_decide (symbol_ticker = BASE_CURRENCY_TICKER) then
      if lt_int balance amount
      then raise (Exception "Trader not enough balance/instruments")
      else
        (* trader.balance -= amount *)
        let* balance := sub_int balance amount in
        ret (set_traders session (<[trader_id := balance]> (traders session)))
    else
      match positions session !! (trader_id, symbol_ticker) with
      | None => raise AttributeError
      | Some quantity =>
        if lt_int quantity amount
        then raise (Exception "Trader not enough balance/instruments")
        else
          (* position.quantity -= amount *)
          let* quantity := sub_int quantity amount in
          ret (set_positions session
                 (<[(trader_id, symbol_ticker) := quantity]> (positions session)))
      end
  end.

Definition unfreeze_balance (session : Database) (trader_id : uuid)
    (symbol_ticker : string) (amount : Z) : result Database :=
  if bool_decide (symbol_ticker = BASE_CURRENCY_TICKER) then
    match traders session !! trader_id with
    | None => raise AttributeError
    | Some balance =>
      (* trader.balance += amount *)
      let* balance := add_int balance amount in
      ret (set_traders session (<[trader_id := balance]> (traders session)))
    end
  else
    match positions session !! (trader_id, symbol_ticker) with
    | None => raise AttributeError
    | Some quantity =>
      (* position.quantity += amount *)
      let* quantity := add_int quantity amount in
      ret (set_positions session
             (<[(trader_id, symbol_ticker) := quantity]> (positions session)))
    end.

(** ** db_utils/trader.py: __change_balance, change_trader_balance *)

Definition __change_balance (session : Database) (trader_id : uuid)
    (symbol_ticker : string) (amount : Z) : result Database :=
  if bool_decide (symbol_ticker = BASE_CURRENCY_TICKER) then
    match traders session !! trader_id with
    | None => raise AttributeError
    | Some balance =>
      let* new_balance := add_int balance amount in
      if lt_int new_balance 0
      then raise (HTTPException 400 "Balance must be >= 0")
      else ret (set_traders session (<[trader_id := new_balance]> (traders session)))
    end
  else
    match traders session !! trader_id with
    | None => raise AttributeError
    | Some _ =>
      (* for position in trader.positions: if position.symbol_ticker == ... *)
      match positions session !! (trader_id, symbol_ticker) with
      | None => ret session
      | Some quantity =>
        let* new_balance := add_int quantity amount in
        if lt_int new_balance 0
        then raise (HTTPException 400 "Balance must be >= 0")
        else ret (set_positions session
                    (<[(trader_id, symbol_ticker) := new_balance]> (positions session)))
      end
    end.

(** The session is committed only when [__change_balance] returns. *)
Definition change_trader_balance (db : Database) (trader_id : uuid)
    (symbol_ticker : string) (amount : Z) : result Database :=
  __change_balance db trader_id symbol_ticker amount.

(** ** db_utils/order.py: cancel_order *)

Definition cancel_order (db : Database) (order_id trader_id : uuid)
  : result (Database * option Order) :=
  let order :=
    List.find (λ o, bool_decide (o_id o = order_id)
                    && bool_decide (o_trader_id o = trader_id)) (orders db) in
  match order with
  | None => ret (db, None)
  | Some order =>
    if bool_decide (o_status order ∈ FINAL_ORDER_STATUSES)
    then raise (HTTPException 400 "Order executed/partially_executed/cancelled")
    else
      match o_price order with
      | None => raise (HTTPException 400 "Order is market")
      | Some price =>
        let* session :=
          match o_direction order with
          | ASK => __change_balance db (o_trader_id order)
                     (o_symbol_ticker order) (o_amount order)
          | BID => __change_balance db (o_trader_id order)
                     BASE_CURRENCY_TICKER (o_amount order * price)
          end in
        let order := set_status order CANCELLED in
        ret (flush_order session order, Some order)
      end
  end.

(** ** db_utils/order.py: create_limit_buy_order, create_limit_sell_order *)

(** The [for matching_order in orderbook] loop of create_limit_buy_order. *)
Fixpoint match_asks (session : Database) (trader_id : uuid)
    (symbol_ticker : string) (price : option Z) (new_order : Order)
    (orderbook : list Order) : result (Database * Order) :=
  match orderbook with
  | [] => ret (session, new_order)
  | matching_order :: orderbook =>
    if bool_decide (o_amount new_order = 0) then ret (session, new_order)
    else
      let* crossed :=
        match price with
        | None => ret false
        | Some price =>
          match o_price matching_order with
          | None => raise TypeError
          | Some matching_price => ret (bool_decide (matching_price > price))
          end
        end in
      if (crossed : bool) then ret (session, new_order)
      else
        let quantity_to_buy :=
          Z.min (o_amount matching_order) (o_amount new_order) in
        let* session :=
          buy session (o_trader_id matching_order) trader_id symbol_ticker
            (o_price matching_order) quantity_to_buy in
        let* matching_order :=
          partially_execute_order matching_order quantity_to_buy in
        let session := flush_order session matching_order in
        let* new_order := partially_execute_order new_order quantity_to_buy in
        match_asks session trader_id symbol_ticker price new_order orderbook
  end.

(** The body of the [try:] block of create_limit_buy_order, up to and
    including [session.add(new_order)]. *)
Definition try_limit_buy_order (session : Database) (symbol_ticker : string)
    (price : option Z) (trader_id : uuid) (new_order : Order)
    (orderbook : list Order) : result (Database * Order) :=
  let* (session, new_order) :=
    match_asks session trader_id symbol_ticker price new_order orderbook in
  let* session :=
    if bool_decide (o_status new_order ≠ EXECUTED) then
      match price with
      | Some _ =>
        (* new_order.amount * new_order.price *)
        match o_price new_order with
        | Some new_price =>
          freeze_balance session trader_id BASE_CURRENCY_TICKER
            (o_amount new_order * new_price)
        | None => raise TypeError
        end
      | None => raise (Exception "Not enough orders")
      end
    else ret session in
  (* session.add(new_order); await session.commit() *)
  let* session := insert_order session new_order in
  ret (session, new_order).

(** The [except Exception] handler shared by both entry points: the
    session is rolled back to [db] and the order is recorded as cancelled,
    unless that INSERT is refused as well. *)
Definition persist_cancelled (db : Database) (new_order : Order)
    (quantity : Z) : result (Database * Order) :=
  let new_order := set_filled new_order 0 in
  let new_order := set_amount new_order quantity in
  let new_order := set_status new_order CANCELLED in
  let* session := insert_order db new_order in
  ret (session, new_order).

(** What a submission leaves: the committed store, and the order returned
    or the exception that leaves the function (the store is then the one
    before the call). *)
Definition submission (db : Database) (tried : result (Database * Order))
    (new_order : Order) (quantity : Z) : Database * result Order :=
  match tried with
  | inr (committed, order) => (committed, ret order)
  | inl _ =>
    match persist_cancelled db new_order quantity with
    | inr (committed, order) => (committed, ret order)
    | inl e => (db, raise e)
    end
  end.

(** [new_id] and [now] stand for the column defaults [uuid.uuid4] and
    [datetime.utcnow] of the inserted row. *)
Definition create_limit_buy_order (db : Database) (new_id : uuid) (now : Z)
    (symbol_ticker : string) (quantity : Z) (price : option Z)
    (trader_id : uuid) : Database * result Order :=
  let orderbook := __get_orders db symbol_ticker ASK quantity in
  let new_order :=
    mkOrder new_id trader_id symbol_ticker quantity 0 price BID NEW now in
  submission db
    (try_limit_buy_order db symbol_ticker price trader_id new_order orderbook)
    new_order quantity.

(** The [for matching_order in orderbook] loop of create_limit_sell_order. *)
Fixpoint match_bids (session : Database) (trader_id : uuid)
    (symbol_ticker : string) (price : option Z) (new_order : Order)
    (orderbook : list Order) : result (Database * Order) :=
  match orderbook with
  | [] => ret (session, new_order)
  | matching_order :: orderbook =>
    if bool_decide (o_amount new_order = 0) then ret (session, new_order)
    else
      let* crossed :=
        match price with
        | None => ret false
        | Some price =>
          match o_price matching_order with
          | None => raise TypeError
          | Some matching_price => ret (bool_decide (matching_price < price))
          end
        end in
      if (crossed : bool) then ret (session, new_order)
      else
        let quantity_to_sell :=
          Z.min (o_amount matching_order) (o_amount new_order) in
        let* session :=
          sell session trader_id (o_trader_id matching_order) symbol_ticker
            (o_price matching_order) quantity_to_sell in
        let* matching_order :=
          partially_execute_order matching_order quantity_to_sell in
        let session := flush_order session matching_order in
        let* new_order := partially_execute_order new_order quantity_to_sell in
        match_bids session trader_id symbol_ticker price new_order orderbook
  end.

(** The body of the [try:] block of create_limit_sell_order. *)
Definition try_limit_sell_order (session : Database) (symbol_ticker : string)
    (price : option Z) (trader_id : uuid) (new_order : Order)
    (orderbook : list Order) : result (Database * Order) :=
  let* (session, new_order) :=
    match_bids session trader_id symbol_ticker price new_order orderbook in
  let* session :=
    if bool_decide (o_status new_order ≠ EXECUTED) then
      match price with
      | Some _ =>
        freeze_balance session trader_id symbol_ticker (o_amount new_order)
      | None => raise (Exception "Not enough orders")
      end
    else ret session in
  let* session := insert_order session new_order in
  ret (session, new_order).

Definition create_limit_sell_order (db : Database) (new_id : uuid) (now : Z)
    (symbol_ticker : string) (quantity : Z) (price : option Z)
    (trader_id : uuid) : Database * result Order :=
  let orderbook := __get_orders db symbol_ticker BID quantity in
  let new_order :=
    mkOrder new_id trader_id symbol_ticker quantity 0 price ASK NEW now in
  submission db
    (try_limit_sell_order db symbol_ticker price trader_id new_order orderbook)
    new_order quantity.

Definition create_market_buy_order (db : Database) (new_id : uuid) (now : Z)
    (symbol_ticker : string) (quantity : Z) (trader_id : uuid)
  : Database * result Order :=
  create_limit_buy_order db new_id now symbol_ticker quantity None trader_id.

Definition create_market_sell_order (db : Database) (new_id : uuid) (now : Z)
    (symbol_ticker : string) (quantity : Z) (trader_id : uuid)
  : Database * result Order :=
  create_limit_sell_order db new_id now symbol_ticker quantity None trader_id.

(** ** db_utils/order.py: get_orders, and api/v1/public/public.py: get_orderbook *)

Definition get_orders (db : Database) (symbol_ticker : string)
    (direction : OrderSide) (limit : Z) : list Order :=
  __get_orders db symbol_ticker direction limit.

(** [sorted(aggregated.items(), reverse=...)]: the keys of a dict are
    distinct, so the items are ordered by price alone. *)
Definition item_le (a b : Z * Z) : Prop := a.1 ≤ b.1.

Local Instance item_le_dec a b : Decision (item_le a b).
Proof. unfold item_le. apply _. Defined.

Definition sorted_items (reverse_ : bool) (items : list (Z * Z)) : list (Z * Z) :=
  let ascending := merge_sort item_le items in
  if reverse_ then reverse ascending else ascending.

Definition aggregate_orders (db : Database) (ticker : string)
    (direction : OrderSide) (limit : Z) : list (Z * Z) :=
  let orders := get_orders db ticker direction limit in
  let aggregated : gmap Z Z :=
    foldl (λ aggregated order,
             match o_price order with
             | Some price =>
               (* if order.price: *)
               if bool_decide (price ≠ 0)
               then <[price := default 0 (aggregated !! price) + o_amount order]> aggregated
               else aggregated
             | None => aggregated
             end) ∅ orders in
  sorted_items (bool_decide (direction = BID)) (map_to_list aggregated).

(** Returns (bid_levels, ask_levels), each a list of (price, qty). *)
Definition get_orderbook (db : Database) (ticker : string) (limit : Z)
  : list (Z * Z) * list (Z * Z) :=
  let bid_levels := aggregate_orders db ticker BID limit in
  let ask_levels := aggregate_orders db ticker ASK limit in
  (bid_levels, ask_levels).

(** ** api/v1/order/order.py: create_order

    The handler dispatches on the direction and on the truthiness of the
    price; the instrument is taken to exist.  The HTTP layer answers 422
    for a CANCELLED order after the commit, so the store is what the
    db_utils function committed; an exception that leaves the db_utils
    function leaves the handler too. *)

Inductive Direction := BUY | SELL.

Definition create_order (db : Database) (new_id : uuid) (now : Z)
    (direction : Direction) (ticker : string) (qty : Z) (price : option Z)
    (trader_id : uuid) : Database * result Order :=
  let truthy := match price with Some p => bool_decide (p ≠ 0) | None => false end in
  match direction with
  | BUY =>
    if truthy
    then create_limit_buy_order db new_id now ticker qty price trader_id
    else create_market_buy_order db new_id now ticker qty trader_id
  | SELL =>
    if truthy
    then create_limit_sell_order db new_id now ticker qty price trader_id
    else create_market_sell_order db new_id now ticker qty trader_id
  end.

(** ** Both matching loops as one function of the taker's side

    create_limit_buy_order and create_limit_sell_order differ in the price
    gate, in the settlement helper and in what is frozen for the remainder.
    The definitions below abstract those three points; they are shown equal
    to the two source functions and carry the proofs shared by both.  In
    them the price tested after the loop is read from the order, which the
    loop never rewrites. *)

Definition opposite (side : OrderSide) : OrderSide :=
  match side with BID => ASK | ASK => BID end.

Definition crosses (taker : OrderSide) (price matching_price : Z) : bool :=
  match taker with
  | BID => bool_decide (matching_price > price)
  | ASK => bool_decide (matching_price < price)
  end.

Definition settle (taker : OrderSide) (session : Database) (trader_id : uuid)
    (symbol_ticker : string) (matching_order : Order) (quantity : Z)
  : result Database :=
  match taker with
  | BID => buy session (o_trader_id matching_order) trader_id symbol_ticker
             (o_price matching_order) quantity
  | ASK => sell session trader_id (o_trader_id matching_order) symbol_ticker
             (o_price matching_order) quantity
  end.

Definition gate (taker : OrderSide) (price : option Z) (matching_order : Order)
  : result bool :=
  match price with
  | None => ret false
  | Some price =>
    match o_price matching_order with
    | None => raise TypeError
    | Some matching_price => ret (crosses taker price matching_price)
    end
  end.

Fixpoint match_orders (taker : OrderSide) (session : Database)
    (trader_id : uuid) (symbol_ticker : string) (price : option Z)
    (new_order : Order) (orderbook : list Order) : result (Database * Order) :=
  match orderbook with
  | [] => ret (session, new_order)
  | matching_order :: orderbook =>
    if bool_decide (o_amount new_order = 0) then ret (session, new_order)
    else
      let* crossed := gate taker price matching_order in
      if (crossed : bool) then ret (session, new_order)
      else
        let quantity := Z.min (o_amount matching_order) (o_amount new_order) in
        let* session :=
          settle taker session trader_id symbol_ticker matching_order quantity in
        let* matching_order := partially_execute_order matching_order quantity in
        let session := flush_order session matching_order in
        let* new_order := partially_execute_order new_order quantity in
        match_orders taker session trader_id symbol_ticker price new_order orderbook
  end.

Definition freeze_remainder (taker : OrderSide) (session : Database)
    (trader_id : uuid) (symbol_ticker : string) (new_order : Order)
  : result Database :=
  if bool_decide (o_status new_order ≠ EXECUTED) then
    match o_price new_order with
    | Some new_price =>
      match taker with
      | BID => freeze_balance session trader_id BASE_CURRENCY_TICKER
                 (o_amount new_order * new_price)
      | ASK => freeze_balance session trader_id symbol_ticker (o_amount new_order)
      end
    | None => raise (Exception "Not enough orders")
    end
  else ret session.

Definition try_limit_order (taker : OrderSide) (session : Database)
    (symbol_ticker : string) (price : option Z) (trader_id : uuid)
    (new_order : Order) (orderbook : list Order) : result (Database * Order) :=
  let* (session, new_order) :=
    match_orders taker session trader_id symbol_ticker price new_order orderbook in
  let* session := freeze_remainder taker session trader_id symbol_ticker new_order in
  let* session := insert_order session new_order in
  ret (session, new_order).

Definition new_order_of (taker : OrderSide) (new_id : uuid) (now : Z)
    (symbol_ticker : string) (quantity : Z) (price : option Z)
    (trader_id : uuid) : Order :=
  mkOrder new_id trader_id symbol_ticker quantity 0 price taker NEW now.

Definition create_limit_order (taker : OrderSide) (db : Database)
    (new_id : uuid) (now : Z) (symbol_ticker : string) (quantity : Z)
    (price : option Z) (trader_id : uuid) : Database * result Order :=
  let orderbook := __get_orders db symbol_ticker (opposite taker) quantity in
  let new_order := new_order_of taker new_id now symbol_ticker quantity price trader_id in
  submission db
    (try_limit_order taker db symbol_ticker price trader_id new_order orderbook)
    new_order quantity.

(** The quantity requested at submission, as the order endpoints report
    it ([qty=order.amount + order.filled] in _format_order_response). *)
Definition original_amount (o : Order) : Z := o_amount o + o_filled o.

(** ** Predicates used by the statements *)

(** One executed iteration of the matching loop: from session [s] and
    order [n], candidate [m] is traded against, giving [s1] and [n1]. *)
Inductive loop_step (taker : OrderSide) (trader_id : uuid)
    (symbol_ticker : string) (price : option Z)
    (s : Database) (n m : Order) (s1 : Database) (n1 : Order) : Prop :=
| LoopStep (m1 : Order) (s0 : Database) :
    o_amount n ≠ 0 →
    gate taker price m = inr false →
    settle taker s trader_id symbol_ticker m (Z.min (o_amount m) (o_amount n)) = inr s0 →
    partially_execute_order m (Z.min (o_amount m) (o_amount n)) = inr m1 →
    partially_execute_order n (Z.min (o_amount m) (o_amount n)) = inr n1 →
    s1 = flush_order s0 m1 →
    loop_step taker trader_id symbol_ticker price s n m s1 n1.


(** What the loop maintains about [new_order]: the identity fields are
    never written, the sum amount + filled is constant, and the status is
    EXECUTED exactly when a fill has brought the amount to zero. *)
Record tracks (n0 n : Order) : Prop := {
  tracks_id : o_id n = o_id n0;
  tracks_trader : o_trader_id n = o_trader_id n0;
  tracks_symbol : o_symbol_ticker n = o_symbol_ticker n0;
  tracks_price : o_price n = o_price n0;
  tracks_direction : o_direction n = o_direction n0;
  tracks_created : o_created_at n = o_created_at n0;
  tracks_original : original_amount n = original_amount n0;
  tracks_status :
    n = n0 ∨ (o_status n = EXECUTED ∧ o_amount n = 0)
    ∨ (o_status n = PARTIALLY_EXECUTED ∧ o_amount n ≠ 0)
}.


(** The outcome of a submission that was rolled back: nothing but the
    cancelled record reaches the store (the rows of [orders] are those
    there were and the record). *)
Definition rolled_back (db db' : Database) (order : Order) (quantity : Z) : Prop :=
  traders db' = traders db ∧ positions db' = positions db
  ∧ trades db' = trades db ∧ orders db' ≡ₚ orders db ++ [order]
  ∧ o_status order = CANCELLED ∧ o_amount order = quantity ∧ o_filled order = 0.

(** The record the handler of a failed submission writes. *)
Definition cancelled (new_order : Order) (quantity : Z) : Order :=
  set_status (set_amount (set_filled new_order 0) quantity) CANCELLED.

(** A quantity and a price that fit the INTEGER columns of an order. *)
Definition fits_int32 (quantity : Z) (price : option Z) : Prop :=
  - 2 ^ 31 ≤ quantity < 2 ^ 31
  ∧ match price with Some p => - 2 ^ 31 ≤ p < 2 ^ 31 | None => True end.

Global Instance fits_int32_dec quantity price : Decision (fits_int32 quantity price).
Proof. unfold fits_int32. destruct price; apply _. Defined.

(** An order's primary key together with its requested quantity. *)
Definition order_key (o : Order) : uuid * Z := (o_id o, original_amount o).

(** Candidates and table rows that share a primary key agree on the
    requested quantity (they are the same row). *)
Definition coherent (rows cands : list Order) : Prop :=
  ∀ m r, m ∈ cands → r ∈ rows → o_id r = o_id m →
         original_amount r = original_amount m.

(** ** Well-formed stores *)

(** [b >= 0] for a stored float that is a double ([nan >= 0] is false). *)
Definition not_negative (b : float) : Prop :=
  match b with
  | Num z => 0 ≤ z ∧ is_double z
  | PosInf => True
  | NegInf | NaN => False
  end.

Global Instance not_negative_dec b : Decision (not_negative b).
Proof. destruct b; apply _. Defined.

(** [b >= r] for a stored float and an integer. *)
Definition at_least (b : float) (r : Z) : Prop :=
  match b with
  | Num x => r ≤ x
  | PosInf => True
  | NegInf | NaN => False
  end.

(** Invariants 1, 2 and 4/7 of the data model: balances and quantities are
    not negative, and an active order has something left to fill at a
    positive limit price; amounts and prices are within their INTEGER
    columns. *)
Record wf_db (db : Database) : Prop := {
  wf_balance : ∀ t b, traders db !! t = Some b → not_negative b;
  wf_quantity : ∀ k q, positions db !! k = Some q → not_negative q;
  wf_active : ∀ o, o ∈ orders db → o_status o ∈ ACTIVE_ORDER_STATUSES →
              1 ≤ o_amount o ∧ ∃ p, o_price o = Some p ∧ 1 ≤ p;
  wf_columns : ∀ o, o ∈ orders db → fits_int32 (o_amount o) (o_price o)
}.

(** The foreign key orders.trader_id -> traders.id. *)
Definition foreign_keys (db : Database) : Prop :=
  ∀ o, o ∈ orders db → is_Some (traders db !! o_trader_id o).

(** A Position row exists for the owner of every order in the order's
    instrument (positions are created for every trader/instrument pair). *)
Definition positions_materialised (db : Database) : Prop :=
  ∀ o, o ∈ orders db → is_Some (positions db !! (o_trader_id o, o_symbol_ticker o)).

(** Headroom below 2^53, the integers a double holds without rounding:
    every balance is an integer that can still be credited [V], and every
    position one that can still be credited [U] units, within that
    range. *)
Definition room (s : Database) (V U : Z) : Prop :=
  (∀ k b, traders s !! k = Some b → ∃ z, b = Num z ∧ 0 ≤ z ∧ z + V ≤ 2 ^ 53)
  ∧ (∀ k q, positions s !! k = Some q → ∃ z, q = Num z ∧ 0 ≤ z ∧ z + U ≤ 2 ^ 53).


(** The row selected by cancel_order. *)
Definition owned_order (db : Database) (order_id trader_id : uuid) (o : Order) : Prop :=
  o ∈ orders db ∧ o_id o = order_id ∧ o_trader_id o = trader_id.

(** ** Price-time priority and the fills of a submission *)

(** Row [a] has priority over row [b] on side [side] of the book: a better
    price (lower for ASK, higher for BID), or the same price and an earlier
    or equal created_at.  Rows without a price are not constrained. *)
Definition price_time_priority (side : OrderSide) (a b : Order) : Prop :=
  match o_price a, o_price b with
  | Some pa, Some pb =>
    match side with ASK => pa < pb | BID => pb < pa end
    ∨ (pa = pb ∧ o_created_at a ≤ o_created_at b)
  | _, _ => True
  end.

(** The candidate's price lies beyond the taker's limit. *)
Definition beyond_limit (taker : OrderSide) (limit_price matching_price : Z) : Prop :=
  match taker with
  | BID => matching_price > limit_price
  | ASK => matching_price < limit_price
  end.

Definition trade_of (taker : OrderSide) (trader_id : uuid) (symbol_ticker : string)
    (matching_order : Order) (quantity matching_price : Z) : Trade :=
  match taker with
  | BID => mkTrade (o_trader_id matching_order) trader_id symbol_ticker
             quantity matching_price
  | ASK => mkTrade trader_id (o_trader_id matching_order) symbol_ticker
             quantity matching_price
  end.

(** [fills taker trader ticker limit r cands ts r']: walking [cands] in
    order with [r] units still to fill produces the trades [ts] and leaves
    [r'] units.  The walk stops when the remainder is zero, at the first
    candidate whose price is beyond the limit, or when no candidate is
    left; every trade is for min(candidate.amount, remainder) units at the
    candidate's price. *)
Inductive fills (taker : OrderSide) (trader_id : uuid) (symbol_ticker : string)
    (limit_price : option Z) : Z → list Order → list Trade → Z → Prop :=
| fills_zero cands :
    fills taker trader_id symbol_ticker limit_price 0 cands [] 0
| fills_exhausted r :
    fills taker trader_id symbol_ticker limit_price r [] [] r
| fills_gate r m rest p mp :
    r ≠ 0 → limit_price = Some p → o_price m = Some mp →
    beyond_limit taker p mp →
    fills taker trader_id symbol_ticker limit_price r (m :: rest) [] r
| fills_trade r m rest mp ts r' :
    r ≠ 0 → o_price m = Some mp →
    (∀ p, limit_price = Some p → ¬ beyond_limit taker p mp) →
    fills taker trader_id symbol_ticker limit_price
      (r - Z.min (o_amount m) r) rest ts r' →
    fills taker trader_id symbol_ticker limit_price r (m :: rest)
      (trade_of taker trader_id symbol_ticker m (Z.min (o_amount m) r) mp :: ts) r'.

(** The units on offer in a list of orders. *)
Definition volume (cands : list Order) : Z := foldr Z.add 0 (map o_amount cands).



(** An order that may be matched against: something left to fill at a
    positive price. *)
Definition cand_ok (m : Order) : Prop :=
  1 ≤ o_amount m ∧ ∃ p, o_price m = Some p ∧ 1 ≤ p.

(** ** Committed operations

    The externally initiated operations that write balances, positions or
    orders: create_order (api/v1/order), cancel_order, and the admin
    deposit and withdraw endpoints (api/v1/admin), which call
    change_trader_balance with [amount] and [-amount].  An operation that
    raises leaves the committed store as it was. *)
Inductive Operation :=
| SubmitOrder (new_id : uuid) (now : Z) (direction : Direction)
    (ticker : string) (qty : Z) (price : option Z) (trader_id : uuid)
| CancelOrder (order_id trader_id : uuid)
| Deposit (trader_id : uuid) (ticker : string) (amount : Z)
| Withdraw (trader_id : uuid) (ticker : string) (amount : Z).

(** The request schemas: [qty: conint(gt=0)], [price: Optional[conint(gt=0)]]
    and [amount: int = Field(..., gt=0)]. *)
Definition valid_operation (op : Operation) : Prop :=
  match op with
  | SubmitOrder _ _ _ _ qty price _ =>
    0 < qty ∧ match price with Some p => 0 < p | None => True end
  | CancelOrder _ _ => True
  | Deposit _ _ amount | Withdraw _ _ amount => 0 < amount
  end.

Definition commit (db : Database) (op : Operation) : Database :=
  match op with
  | SubmitOrder new_id now direction ticker qty price trader_id =>
    (create_order db new_id now direction ticker qty price trader_id).1
  | CancelOrder order_id trader_id =>
    match cancel_order db order_id trader_id with
    | inr (db', _) => db'
    | inl _ => db
    end
  | Deposit trader_id ticker amount =>
    match change_trader_balance db trader_id ticker amount with
    | inr db' => db'
    | inl _ => db
    end
  | Withdraw trader_id ticker amount =>
    match change_trader_balance db trader_id ticker (- amount) with
    | inr db' => db'
    | inl _ => db
    end
  end.

(** ** The reservation protocol of the specification

    A second model, written from the text of the specification (sections
    4.1 and 4.3) and not from the source: the Ledger primitives, the
    matching loop that only credits the counterparty, the reservation made
    before matching and the refund made after it.  It covers priced
    orders, the case the specification spells out.  The specification
    has integer balances and quantities and no floating-point arithmetic
    (section 3, invariant 6): the primitives compute in [Z] on the rows
    that hold an integer ([Num]), and a row that holds none is a
    structural error. *)













(** The taker's free balance (BID) or position (ASK) covers the worst-case
    reservation of the protocol. *)
Definition reservation_covered (taker : OrderSide) (db : Database) (t : uuid)
    (sym : string) (q p : Z) : Prop :=
  match taker with
  | BID => ∃ b, traders db !! t = Some (Num b) ∧ q * p ≤ b
  | ASK => ∃ pq, positions db !! (t, sym) = Some (Num pq) ∧ q ≤ pq
  end.

Global Instance reservation_covered_dec taker db t sym q p :
  Decision (reservation_covered taker db t sym q p).
Proof.
  unfold reservation_covered. destruct taker.
  - destruct (positions db !! (t, sym)) as [[pq| | |]|];
      try (right; by intros (?&?&?)).
    destruct (decide (q ≤ pq)); [left; eauto|right; intros (?&[= <-]&?); lia].
  - destruct (traders db !! t) as [[b| | |]|];
      try (right; by intros (?&?&?)).
    destruct (decide (q * p ≤ b)); [left; eauto|right; intros (?&[= <-]&?); lia].
Defined.

(** ** Executable checks of the store predicates *)

Definition order_okb (o : Order) : bool :=
  bool_decide (fits_int32 (o_amount o) (o_price o))
  && if bool_decide (o_status o ∈ ACTIVE_ORDER_STATUSES)
     then bool_decide (1 ≤ o_amount o)
          && match o_price o with Some p => bool_decide (1 ≤ p) | None => false end
     else true.

Definition wf_dbb (db : Database) : bool :=
  bool_decide (map_Forall (λ _ b, not_negative b) (traders db))
  && bool_decide (map_Forall (λ _ q, not_negative q) (positions db))
  && forallb order_okb (orders db).

Definition within (V : Z) (b : float) : Prop :=
  match b with
  | Num z => 0 ≤ z ∧ z + V ≤ 2 ^ 53
  | _ => False
  end.

Global Instance within_dec V b : Decision (within V b).
Proof. destruct b; apply _. Defined.

Definition roomb (s : Database) (V U : Z) : bool :=
  bool_decide (map_Forall (λ _ b, within V b) (traders s))
  && bool_decide (map_Forall (λ _ q, within U q) (positions s)).

Definition foreign_keysb (db : Database) : bool :=
  forallb (λ o, bool_decide (is_Some (traders db !! o_trader_id o))) (orders db).


(** ** Example stores (base currency RUB)

    [book_db]: trader 2 has two resting ASKs in AAA (3 @ 10, then 4 @ 11)
    whose inventory is already frozen; traders 1 and 3 hold cash only.
    [thin_db]: scenario 3 of the specification, one resting ASK 2 @ 50.
    [tight_db]: a buyer whose balance covers the book's price but not the
    order's own limit.  [level_db]: two resting ASKs at the same price.
    [big_db] and [brim_db]: a trader whose balance is 2^53 + 2,
    respectively 2^53, where neighbouring doubles are 2 apart. *)

Definition book_db : Database :=
  mkDatabase
    (<[1%N := Num 1000]> (<[2%N := Num 500]> (<[3%N := Num 40]> ∅)))
    (<[(1%N, "AAA") := Num 0]> (<[(2%N, "AAA") := Num 10]>
       (<[(3%N, "AAA") := Num 0]> ∅)))
    [mkOrder 10%N 2%N "AAA" 3 0 (Some 10) ASK NEW 1;
     mkOrder 11%N 2%N "AAA" 4 0 (Some 11) ASK NEW 2]
    [].

Definition thin_db : Database :=
  mkDatabase
    (<[1%N := Num 1000]> (<[2%N := Num 0]> ∅))
    (<[(1%N, "CCC") := Num 0]> (<[(2%N, "CCC") := Num 0]> ∅))
    [mkOrder 10%N 2%N "CCC" 2 0 (Some 50) ASK NEW 1]
    [].


Definition level_db : Database :=
  mkDatabase ∅ ∅
    [mkOrder 10%N 2%N "AAA" 3 0 (Some 10) ASK NEW 1;
     mkOrder 11%N 2%N "AAA" 4 0 (Some 10) ASK NEW 2]
    [].

Definition big_db : Database :=
  mkDatabase (<[1%N := Num (2 ^ 53 + 2)]> ∅) (<[(1%N, "AAA") := Num 0]> ∅) [] [].

Definition brim_db : Database :=
  mkDatabase (<[1%N := Num (2 ^ 53)]> ∅) (<[(1%N, "AAA") := Num 0]> ∅) [] [].

(** A scan that returns the newest row first. *)
Definition newest_first (rows : list Order) : list Order := reverse rows.

(** The quantity the order book is specified to report at a price level:
    the sum of [amount] over all active orders of the instrument and side
    at that price. *)
Definition level_total (db : Database) (ticker : string) (direction : OrderSide)
    (price : Z) : Z :=
  foldr Z.add 0
    (map o_amount
       (List.filter (λ o, in_book ticker direction o
                          && bool_decide (o_price o = Some price)) (orders db))).

(** * Further code of the repository

    The functions below are not needed by the statements above; they are
    the rest of db_utils and the request handlers that read or write the
    same tables. *)

(** ** db_utils/order.py: get_order, delete_all_orders *)

Definition get_order (db : Database) (order_id : uuid) : option Order :=
  List.find (λ o, bool_decide (o_id o = order_id)) (orders db).

Definition delete_all_orders (db : Database) : Database := set_orders db [].

(** ** db_utils/trader.py: get_trader, get_trader_orders

    A Trader row is represented by its balance, as in [Database]. *)

Definition get_trader (db : Database) (trader_id : uuid) : option float :=
  traders db !! trader_id.

(** [select(Order).where(Order.trader_id == ...)], without ORDER BY. *)
Definition get_trader_orders (db : Database) (trader_id : uuid) : list Order :=
  table_scan
    (List.filter (λ o, bool_decide (o_trader_id o = trader_id)) (orders db)).

(** ** db_utils/position.py: get_trader_positions

    The rows of one trader, keyed by their ticker (the query has no ORDER
    BY; the unique index makes the ticker a key).  [if symbol_ticker:]
    narrows the result to one ticker when the argument is a non-empty
    string. *)

Definition get_trader_positions (db : Database) (trader_id : uuid)
    (symbol_ticker : option string) : gmap string float :=
  let rows : gmap string float :=
    default ∅ (map_curry (M1 := gmap uuid) (M2 := gmap string) (positions db)
               !! trader_id) in
  match symbol_ticker with
  | Some ticker =>
    if bool_decide (ticker ≠ EmptyString)
    then filter (λ row : string * float, row.1 = ticker) rows
    else rows
  | None => rows
  end.

(** ** api/v1/router.py: get_balance

    The dependency get_current_user loads the trader of the token and
    answers 401 when there is none; the decoding of the token is not
    modelled.  The result is the dict of the handler, before the framework
    renders it. *)

(** The body of [for order in orders]; [0.0] is the default of
    [result.get]. *)
Definition add_frozen (base_symbol : string) (balances : gmap string float)
    (order : Order) : result (gmap string float) :=
  if bool_decide (o_status order ∈ [NEW; PARTIALLY_EXECUTED]) then
    match o_direction order with
    | ASK =>
      let* quantity :=
        add_int (default (Num 0) (balances !! o_symbol_ticker order))
          (o_amount order) in
      ret (<[o_symbol_ticker order := quantity]> balances)
    | BID =>
      match o_price order with
      | Some price =>
        (* if order.price: *)
        if bool_decide (price ≠ 0) then
          let frozen_amount := o_amount order * price in
          let* balance :=
            add_int (default (Num 0) (balances !! base_symbol)) frozen_amount in
          ret (<[base_symbol := balance]> balances)
        else ret balances
      | None => ret balances
      end
    end
  else ret balances.

Definition get_balance (db : Database) (trader_id : uuid)
  : result (gmap string float) :=
  match get_trader db trader_id with
  | None => raise (HTTPException 401 "Could not validate credentials")
  | Some balance =>
    let positions := get_trader_positions db trader_id None in
    let base_symbol := BASE_CURRENCY_TICKER in
    let balances :=
      (* if base_symbol: *)
      if bool_decide (base_symbol ≠ EmptyString)
      then <[base_symbol := balance]> positions
      else positions in
    let orders := get_trader_orders db trader_id in
    foldl (λ acc order, let* balances := acc in add_frozen base_symbol balances order)
      (ret balances) orders
  end.

(** ** api/v1/order/order.py: _format_order_response, list_orders,
       get_order_by_id, delete_order_by_id

    [isoformat] stands for the rendering of [created_at] as an ISO-8601
    UTC string with milliseconds, which belongs to the datetime library. *)

Record OrderBodyResponse := mkOrderBodyResponse {
  body_direction : string;
  body_symbol_ticker : string;
  body_qty : Z;
  body_price : option Z
}.

Record OrderResponse := mkOrderResponse {
  resp_id : uuid;
  resp_status : string;
  resp_trader_id : uuid;
  resp_timestamp : string;
  resp_body : OrderBodyResponse;
  resp_filled : Z
}.

(** [order.status.value] *)
Definition status_value (st : OrderStatus) : string :=
  match st with
  | NEW => "NEW"
  | EXECUTED => "EXECUTED"
  | PARTIALLY_EXECUTED => "PARTIALLY_EXECUTED"
  | CANCELLED => "CANCELLED"
  end.

Definition _format_order_response (isoformat : Z → string) (order : Order)
  : OrderResponse :=
  let formatted_timestamp := isoformat (o_created_at order) in
  let direction_str :=
    if bool_decide (o_direction order = BID) then "BUY" else "SELL" in
  mkOrderResponse (o_id order) (status_value (o_status order))
    (o_trader_id order) formatted_timestamp
    (mkOrderBodyResponse direction_str (o_symbol_ticker order)
       (o_amount order + o_filled order) (o_price order))
    (o_filled order).

Definition list_orders (isoformat : Z → string) (db : Database)
    (trader_id : uuid) : list OrderResponse :=
  map (_format_order_response isoformat) (get_trader_orders db trader_id).

Definition get_order_by_id (isoformat : Z → string) (db : Database)
    (order_id trader_id : uuid) : result OrderResponse :=
  match get_order db order_id with
  | None => raise (HTTPException 404 "Order not found")
  | Some order =>
    if bool_decide (o_trader_id order ≠ trader_id)
    then raise (HTTPException 403 "Access denied")
    else ret (_format_order_response isoformat order)
  end.

(** The committed store and the answer; [true] is
    [DeleteOrderResponse(success=True)]. *)
Definition delete_order_by_id (db : Database) (order_id trader_id : uuid)
  : Database * result bool :=
  match cancel_order db order_id trader_id with
  | inl e => (db, inl e)
  | inr (db', None) => (db', raise (HTTPException 404 "Order not found"))
  | inr (db', Some _) => (db', ret true)
  end.

(** ** Notions used by the statements about the further code *)

(** The columns of an order that are written by the insert alone, together
    with the requested quantity: id, trader_id, symbol_ticker, direction,
    price, created_at, amount + filled. *)
Definition order_static (o : Order)
  : uuid * uuid * string * OrderSide * option Z * Z * Z :=
  (o_id o, o_trader_id o, o_symbol_ticker o, o_direction o, o_price o,
   o_created_at o, original_amount o).

(** [OrderSide.BID if direction == BUY else OrderSide.ASK] *)
Definition side_of (direction : Direction) : OrderSide :=
  match direction with BUY => BID | SELL => ASK end.

(** The price column of the row create_order inserts: a falsy price makes
    a market order, whose price is NULL. *)
Definition price_column (price : option Z) : option Z :=
  match price with
  | Some p => if bool_decide (p ≠ 0) then Some p else None
  | None => None
  end.

(** The row a submission asks to append to the orders table. *)
Definition submission_static (op : Operation)
  : list (uuid * uuid * string * OrderSide * option Z * Z * Z) :=
  match op with
  | SubmitOrder new_id now direction ticker qty price trader_id =>
    [(new_id, trader_id, ticker, side_of direction, price_column price, now, qty)]
  | _ => []
  end.

(** The rows the operations [ops], committed in turn from [db], have
    appended: the row of every submission that returned an order; a
    submission that an exception leaves writes nothing. *)
Fixpoint appended_rows (db : Database) (ops : list Operation)
  : list (uuid * uuid * string * OrderSide * option Z * Z * Z) :=
  match ops with
  | [] => []
  | op :: ops =>
    match op with
    | SubmitOrder new_id now direction ticker qty price trader_id =>
      match (create_order db new_id now direction ticker qty price trader_id).2 with
      | inr _ => submission_static op
      | inl _ => []
      end
    | _ => []
    end ++ appended_rows (commit db op) ops
  end.

(** The quantity and the price column of a submission fit the INTEGER
    columns of an order. *)
Definition fits_operation (op : Operation) : Prop :=
  match op with
  | SubmitOrder _ _ _ _ qty price _ => fits_int32 qty (price_column price)
  | _ => True
  end.

Global Instance fits_operation_dec op : Decision (fits_operation op).
Proof. destruct op; apply _. Defined.

Definition submitted_ids (ops : list Operation) : list uuid :=
  ops ≫= λ op,
    match op with
    | SubmitOrder new_id _ _ _ _ _ _ => [new_id]
    | _ => []
    end.

(** The candidates of a matching loop are rows of the session, and ids are
    a key of both. *)
Definition live_rows (rows cands : list Order) : Prop :=
  NoDup (map o_id rows) ∧ NoDup (map o_id cands) ∧ ∀ m, m ∈ cands → m ∈ rows.


(** How amount, filled and status of a stored order go together: a NEW or
    CANCELLED order has nothing filled, an EXECUTED one nothing left, a
    PARTIALLY_EXECUTED one some of both. *)
Definition lifecycle (o : Order) : Prop :=
  match o_status o with
  | NEW | CANCELLED => o_filled o = 0 ∧ 1 ≤ o_amount o
  | PARTIALLY_EXECUTED => 1 ≤ o_filled o ∧ 1 ≤ o_amount o
  | EXECUTED => 1 ≤ o_filled o ∧ o_amount o = 0
  end.

(** [sum(l)] *)
Definition sumZ (l : list Z) : Z := foldr Z.add 0 l.

(** A trade of [trader_id], taking on side [taker] in [symbol_ticker] with
    limit [limit_price], against one of the orders [makers]: the taker is
    the buyer of a BID and the seller of an ASK; the price is the maker's,
    and not beyond the limit. *)
Definition trade_from (taker : OrderSide) (trader_id : uuid)
    (symbol_ticker : string) (limit_price : option Z) (makers : list Order)
    (tr : Trade) : Prop :=
  t_symbol_ticker tr = symbol_ticker ∧ 1 ≤ t_amount tr
  ∧ match taker with
    | BID => t_trader_to_id tr
    | ASK => t_trader_from_id tr
    end = trader_id
  ∧ (∀ p, limit_price = Some p →
       match taker with BID => t_price tr ≤ p | ASK => p ≤ t_price tr end)
  ∧ ∃ m, m ∈ makers
      ∧ match taker with
        | BID => t_trader_from_id tr
        | ASK => t_trader_to_id tr
        end = o_trader_id m
      ∧ o_price m = Some (t_price tr) ∧ t_amount tr ≤ o_amount m.

(** ** Holdings and the trade journal

    What a trader owns of an instrument is the position together with
    the amounts of the trader's active ASK orders in it, which were taken
    out of the position when the orders were placed; what the trader owns
    of the base currency is the balance together with amount * price of the
    active BID orders.  These are the figures get_balance reports. *)

Definition frozen_units (trader_id : uuid) (symbol_ticker : string)
    (o : Order) : Z :=
  if bool_decide (o_trader_id o = trader_id ∧ o_symbol_ticker o = symbol_ticker
                  ∧ o_direction o = ASK ∧ o_status o ∈ ACTIVE_ORDER_STATUSES)
  then o_amount o else 0.

Definition frozen_money (trader_id : uuid) (o : Order) : Z :=
  if bool_decide (o_trader_id o = trader_id ∧ o_direction o = BID
                  ∧ o_status o ∈ ACTIVE_ORDER_STATUSES)
  then o_amount o * default 0 (o_price o) else 0.

(** The integer in a row, 0 when there is no row. *)
Definition row_value (row : option float) : Z := default 0 (float_value <$> row).

Definition holdings (db : Database) (trader_id : uuid) (symbol_ticker : string) : Z :=
  row_value (positions db !! (trader_id, symbol_ticker))
  + sumZ (map (frozen_units trader_id symbol_ticker) (orders db)).

Definition funds (db : Database) (trader_id : uuid) : Z :=
  row_value (traders db !! trader_id)
  + sumZ (map (frozen_money trader_id) (orders db)).


(** Units of [symbol_ticker] a trade brings to [trader_id] (negative when
    the trader is the seller; zero when seller and buyer at once). *)
Definition units_received (trader_id : uuid) (symbol_ticker : string)
    (tr : Trade) : Z :=
  (if bool_decide (t_trader_to_id tr = trader_id ∧ t_symbol_ticker tr = symbol_ticker)
   then t_amount tr else 0)
  - (if bool_decide (t_trader_from_id tr = trader_id ∧ t_symbol_ticker tr = symbol_ticker)
     then t_amount tr else 0).

(** Base currency a trade brings to [trader_id]. *)
Definition money_received (trader_id : uuid) (tr : Trade) : Z :=
  (if bool_decide (t_trader_from_id tr = trader_id)
   then t_amount tr * t_price tr else 0)
  - (if bool_decide (t_trader_to_id tr = trader_id)
     then t_amount tr * t_price tr else 0).

Definition net_units (journal : list Trade) (trader_id : uuid)
    (symbol_ticker : string) : Z :=
  sumZ (map (units_received trader_id symbol_ticker) journal).

Definition net_money (journal : list Trade) (trader_id : uuid) : Z :=
  sumZ (map (money_received trader_id) journal).

(** ** The supply of money and of units

    All the base currency on the exchange is the balances together with
    amount * price of every active BID order; all the units of an
    instrument are the positions in it together with the amounts of its
    active ASK orders. *)

Definition locked_money (o : Order) : Z :=
  if bool_decide (o_direction o = BID ∧ o_status o ∈ ACTIVE_ORDER_STATUSES)
  then o_amount o * default 0 (o_price o) else 0.

Definition locked_units (symbol_ticker : string) (o : Order) : Z :=
  if bool_decide (o_symbol_ticker o = symbol_ticker ∧ o_direction o = ASK
                  ∧ o_status o ∈ ACTIVE_ORDER_STATUSES)
  then o_amount o else 0.

(** The sum of [w k v] over the rows [k ↦ v] of a table. *)
Definition total `{Countable K} (w : K → float → Z) (rows : gmap K float) : Z :=
  sumZ (map (λ kv, w kv.1 kv.2) (map_to_list rows)).

Definition units_in (symbol_ticker : string) (k : uuid * string) (q : float) : Z :=
  if decide (k.2 = symbol_ticker) then float_value q else 0.

Definition money_supply (db : Database) : Z :=
  total (λ _ b, float_value b) (traders db) + sumZ (map locked_money (orders db)).

Definition units_supply (db : Database) (symbol_ticker : string) : Z :=
  total (units_in symbol_ticker) (positions db)
  + sumZ (map (locked_units symbol_ticker) (orders db)).

(** The units of all instruments together. *)
Definition all_units (db : Database) : Z :=
  total (λ _ q, float_value q) (positions db)
  + sumZ (map (λ o, locked_units (o_symbol_ticker o) o) (orders db)).

(** A row that holds a natural number. *)
Definition counted (b : float) : Prop := ∃ z, b = Num z ∧ 0 ≤ z.

(** The store holds natural numbers, and no more than 2^52 of the base
    currency or of any one instrument: every sum the engine forms is then
    an integer of at most 53 bits, which a double holds without
    rounding. *)
Record within_supply (db : Database) : Prop := {
  supply_balances : ∀ t b, traders db !! t = Some b → counted b;
  supply_quantities : ∀ k q, positions db !! k = Some q → counted q;
  supply_money : money_supply db ≤ 2 ^ 52;
  supply_units : ∀ symbol_ticker, units_supply db symbol_ticker ≤ 2 ^ 52
}.

Definition within_supplyb (db : Database) : bool :=
  roomb db 0 0 && bool_decide (money_supply db ≤ 2 ^ 52)
  && bool_decide (all_units db ≤ 2 ^ 52).

(** No order is in the base currency itself. *)
Definition no_base_orders (db : Database) : Prop :=
  ∀ o, o ∈ orders db → o_symbol_ticker o ≠ BASE_CURRENCY_TICKER.

(** A submission or a cancellation, as opposed to an admin deposit or
    withdrawal; a submission is for a ticker other than the base currency
    in which the submitter has a position row. *)
Definition trading_operation (db : Database) (op : Operation) : Prop :=
  match op with
  | SubmitOrder _ _ _ ticker _ _ trader_id =>
    ticker ≠ BASE_CURRENCY_TICKER ∧ is_Some (positions db !! (trader_id, ticker))
  | CancelOrder _ _ => True
  | Deposit _ _ _ | Withdraw _ _ _ => False
  end.

(** ** The symbols table: db_utils/symbol.py, create_trader and the
       handlers that consult them

    [Database] holds the four tables the matching code writes.  The
    symbols table (ticker, the primary key, and name) is added beside it.
    Of a trader only the id and the balance are kept; name, role and
    api_key play no part below, and neither does the admin check of
    get_current_admin.  A commit that violates a key is refused by the
    database with sqlalchemy's IntegrityError, a subclass of Exception;
    nothing of the transaction is then persisted. *)

Record Exchange := mkExchange {
  ex_db : Database;
  ex_symbols : gmap string string
}.

Definition set_db (ex : Exchange) (db : Database) : Exchange :=
  mkExchange db (ex_symbols ex).

Definition IntegrityError : Exn := Exception "IntegrityError".

Definition get_symbol_by_ticker (ex : Exchange) (ticker : string) : option string :=
  ex_symbols ex !! ticker.

(** The rows as (ticker, name); the query has no ORDER BY. *)
Definition get_all_symbols (ex : Exchange) : list (string * string) :=
  map_to_list (ex_symbols ex).


(** [new_id] stands for the column default uuid.uuid4 of the inserted
    trader.  One Position with quantity 0 is added per symbol; the unique
    index ix_position_trader_symbol refuses a second row for a pair. *)
Definition create_trader (ex : Exchange) (new_id : uuid) : result Exchange :=
  let db := ex_db ex in
  let symbols := map fst (get_all_symbols ex) in
  if bool_decide (is_Some (traders db !! new_id)) then raise IntegrityError
  else if existsb (λ ticker, bool_decide (is_Some (positions db !! (new_id, ticker))))
            symbols
  then raise IntegrityError
  else
    (* Trader.balance defaults to 0.0; Position(..., quantity=0.0) *)
    let session := set_traders db (<[new_id := Num 0]> (traders db)) in
    let session :=
      foldl (λ session ticker,
               set_positions session
                 (<[(new_id, ticker) := Num 0]> (positions session)))
        session symbols in
    ret (set_db ex session).

(** [Symbol.ticker] is a String(10) and [Symbol.name] a String(100)
    column: the INSERT of a longer value is refused by the database
    (DBAPIError), whatever the request schema let through. *)
Definition create_symbol (ex : Exchange) (name ticker : string) : result Exchange :=
  let db := ex_db ex in
  let traders_ := map fst (map_to_list (traders db)) in
  if bool_decide (10 < String.length ticker ∨ 100 < String.length name)%nat
  then raise DBAPIError
  else if bool_decide (is_Some (ex_symbols ex !! ticker)) then raise IntegrityError
  else if existsb (λ trader, bool_decide (is_Some (positions db !! (trader, ticker))))
            traders_
  then raise IntegrityError
  else
    let session :=
      foldl (λ session trader,
               set_positions session
                 (<[(trader, ticker) := Num 0]> (positions session)))
        db traders_ in
    ret (mkExchange session (<[ticker := name]> (ex_symbols ex))).

(** depends.py *)
Definition get_symbol_depend (ex : Exchange) (ticker : string) : result string :=
  match get_symbol_by_ticker ex ticker with
  | None => raise (HTTPException 404 "Symbol not found")
  | Some symbol => ret symbol
  end.

(** api/v1/auth/jwt.py, get_current_user after the token has been decoded
    to the id it carries. *)
Definition get_current_user (ex : Exchange) (id_ : uuid) : result uuid :=
  match get_trader (ex_db ex) id_ with
  | Some _ => ret id_
  | None => raise (HTTPException 401 "Could not validate credentials")
  end.

(** ** api/v1/admin/admin.py

    Each handler gives the committed store and the answer; [true] is
    SuccessResponse(success=True). *)

Definition create_symbol_endpoint (ex : Exchange) (name ticker : string)
  : Exchange * result bool :=
  match get_symbol_by_ticker ex ticker with
  | Some _ =>
    (ex, raise (HTTPException 422 "Symbol with this ticker already exists"))
  | None =>
    match create_symbol ex name ticker with
    | inl e => (ex, inl e)
    | inr ex' => (ex', ret true)
    end
  end.

Definition deposit_balance (ex : Exchange) (trader_id : uuid)
    (ticker : string) (amount : Z) : Exchange * result bool :=
  match get_trader (ex_db ex) trader_id with
  | None => (ex, raise (HTTPException 404 "Trader not found"))
  | Some _ =>
    let base_symbol := BASE_CURRENCY_TICKER in
    if bool_decide (ticker ≠ base_symbol)
       && bool_decide (get_symbol_by_ticker ex ticker = None)
    then (ex, raise (HTTPException 404 "Symbol not found"))
    else
      match change_trader_balance (ex_db ex) trader_id ticker amount with
      | inl e => (ex, inl e)
      | inr db' => (set_db ex db', ret true)
      end
  end.

Definition withdraw_balance (ex : Exchange) (trader_id : uuid)
    (ticker : string) (amount : Z) : Exchange * result bool :=
  match get_trader (ex_db ex) trader_id with
  | None => (ex, raise (HTTPException 404 "Trader not found"))
  | Some _ =>
    let base_symbol := BASE_CURRENCY_TICKER in
    if bool_decide (ticker ≠ base_symbol)
       && bool_decide (get_symbol_by_ticker ex ticker = None)
    then (ex, raise (HTTPException 404 "Symbol not found"))
    else
      match change_trader_balance (ex_db ex) trader_id ticker (- amount) with
      | inl e => (ex, inl e)
      | inr db' => (set_db ex db', ret true)
      end
  end.

(** ** api/v1/order/order.py: create_order with its symbol check and its
       answer

    [create_order] above is the dispatch in the middle of the handler;
    this is the whole handler, for the trader the dependency has loaded.
    The answer is the order_id of CreateOrderResponse. *)
Definition create_order_endpoint (ex : Exchange) (new_id : uuid) (now : Z)
    (direction : Direction) (ticker : string) (qty : Z) (price : option Z)
    (trader_id : uuid) : Exchange * result uuid :=
  match get_symbol_by_ticker ex ticker with
  | None => (ex, raise (HTTPException 404 "Symbol not found"))
  | Some _ =>
    let created :=
      create_order (ex_db ex) new_id now direction ticker qty price trader_id in
    match created.2 with
    | inl e => (set_db ex created.1, inl e)
    | inr created_order =>
      if bool_decide (o_status created_order = CANCELLED)
      then (set_db ex created.1,
            raise (HTTPException 422
                     "Order cancelled due to insufficient funds or invalid parameters"))
      else (set_db ex created.1, ret (o_id created_order))
    end
  end.

(** ** Requests

    The requests that write, with the id the token carries where the
    handler depends on get_current_user, and the store each leaves. *)
Inductive Request :=
| PostRegister (new_id : uuid)
| PostInstrument (name ticker : string)
| PostDeposit (trader_id : uuid) (ticker : string) (amount : Z)
| PostWithdraw (trader_id : uuid) (ticker : string) (amount : Z)
| PostOrder (id_ new_id : uuid) (now : Z) (direction : Direction)
    (ticker : string) (qty : Z) (price : option Z)
| DeleteOrder (id_ order_id : uuid).

Definition serve (ex : Exchange) (rq : Request) : Exchange :=
  match rq with
  | PostRegister new_id =>
    match create_trader ex new_id with
    | inr ex' => ex'
    | inl _ => ex
    end
  | PostInstrument name ticker => (create_symbol_endpoint ex name ticker).1
  | PostDeposit trader_id ticker amount =>
    (deposit_balance ex trader_id ticker amount).1
  | PostWithdraw trader_id ticker amount =>
    (withdraw_balance ex trader_id ticker amount).1
  | PostOrder id_ new_id now direction ticker qty price =>
    match get_current_user ex id_ with
    | inr trader =>
      (create_order_endpoint ex new_id now direction ticker qty price trader).1
    | inl _ => ex
    end
  | DeleteOrder id_ order_id =>
    match get_current_user ex id_ with
    | inr trader => set_db ex (delete_order_by_id (ex_db ex) order_id trader).1
    | inl _ => ex
    end
  end.

(** The request schemas: amount > 0, qty > 0, price > 0 when given. *)
Definition valid_request (rq : Request) : Prop :=
  match rq with
  | PostDeposit _ _ amount | PostWithdraw _ _ amount => 0 < amount
  | PostOrder _ _ _ _ _ qty price =>
    0 < qty ∧ match price with Some p => 0 < p | None => True end
  | _ => True
  end.

Definition requested_ids (rqs : list Request) : list uuid :=
  rqs ≫= λ rq,
    match rq with
    | PostOrder _ new_id _ _ _ _ _ => [new_id]
    | _ => []
    end.

(** The state of an exchange that has been reached through its requests:
    the stores are well formed, order ids are a key, every order is of a
    trader and an instrument that exist, and there is a position row for
    exactly the pairs of an existing trader and an existing instrument. *)
Record exchange_ok (ex : Exchange) : Prop := {
  ok_wf : wf_db (ex_db ex);
  ok_lifecycle : Forall lifecycle (orders (ex_db ex));
  ok_ids : NoDup (map o_id (orders (ex_db ex)));
  ok_orders : ∀ o, o ∈ orders (ex_db ex) →
      is_Some (traders (ex_db ex) !! o_trader_id o)
      ∧ is_Some (ex_symbols ex !! o_symbol_ticker o);
  ok_positions : ∀ t ticker,
      is_Some (positions (ex_db ex) !! (t, ticker))
      ↔ is_Some (traders (ex_db ex) !! t) ∧ is_Some (ex_symbols ex !! ticker)
}.

Definition empty_exchange : Exchange := mkExchange (mkDatabase ∅ ∅ [] []) ∅.

(** ** The book as a whole *)

(** The total amount of the fetched orders priced [price]. *)
Definition fetched_total (fetched : list Order) (price : Z) : Z :=
  sumZ (map o_amount
          (List.filter (λ o, bool_decide (o_price o = Some price)) fetched)).

(** The book is not crossed: in every ticker each active BID is priced
    below each active ASK. *)
Definition uncrossed (db : Database) : Prop :=
  ∀ b a pb pa, b ∈ orders db → a ∈ orders db →
    o_status b ∈ ACTIVE_ORDER_STATUSES → o_status a ∈ ACTIVE_ORDER_STATUSES →
    o_direction b = BID → o_direction a = ASK →
    o_symbol_ticker b = o_symbol_ticker a →
    o_price b = Some pb → o_price a = Some pa → pb < pa.

(** Row [r'] is what has become of row [r]: the same order, and active
    only if [r] was. *)
Definition same_order (r r' : Order) : Prop :=
  order_static r = order_static r'
  ∧ (o_status r' ∈ ACTIVE_ORDER_STATUSES → o_status r ∈ ACTIVE_ORDER_STATUSES).

(** ** Example requests (base currency RUB) *)

(** A small exchange for the scenarios: one instrument, two traders, a
    deposit of cash for one and of inventory for the other. *)
Definition demo_requests : list Request :=
  [PostInstrument "Alpha" "AAA"; PostRegister 1%N; PostRegister 2%N;
   PostDeposit 1%N "RUB" 1000; PostDeposit 2%N "AAA" 10].

(** ** Rounding to the nearest double *)

Lemma round_half_even_bounds n d :
  0 < d → n / d ≤ round_half_even n d ≤ n / d + 1.
Proof.
  intros Hd. unfold round_half_even. cbn zeta.
  repeat case_bool_decide; try destruct (Z.even _); lia.
Qed.

Lemma round_half_even_exact k d : 0 < d → round_half_even (d * k) d = k.
Proof.
  intros Hd. unfold round_half_even. cbn zeta.
  rewrite (Z.mul_comm d k), Z.mod_mul, Z.div_mul by lia.
  rewrite bool_decide_eq_true_2 by lia. done.
Qed.

Lemma round_half_even_mono n m d :
  0 < d → n ≤ m → round_half_even n d ≤ round_half_even m d.
Proof.
  intros Hd Hnm.
  destruct (decide (n / d = m / d)) as [Heq|Hne].
  - assert (n mod d ≤ m mod d).
    { pose proof (Z.div_mod n d ltac:(lia)). pose proof (Z.div_mod m d ltac:(lia)).
      rewrite Heq in *. nia. }
    unfold round_half_even. cbn zeta. rewrite Heq.
    repeat case_bool_decide; try destruct (Z.even _); lia.
  - assert (n / d < m / d).
    { pose proof (Z.div_le_mono n m d ltac:(lia) Hnm). lia. }
    pose proof (round_half_even_bounds n d Hd). pose proof (round_half_even_bounds m d Hd).
    lia.
Qed.

Lemma ulp_pos z : 0 < ulp z.
Proof. unfold ulp. apply Z.pow_pos_nonneg; lia. Qed.

Lemma ulp_small z : z < 2 ^ 53 → ulp z = 1.
Proof.
  intros Hz. unfold ulp.
  destruct (decide (z ≤ 0)) as [Hn|Hp].
  - rewrite Z.log2_nonpos by done. reflexivity.
  - assert (Z.log2 z < 53) by (apply Z.log2_lt_pow2; lia).
    rewrite Z.max_l by lia. reflexivity.
Qed.

(** Above 2^53 the magnitude lies in the binade of its ulp. *)
Lemma ulp_binade z :
  2 ^ 53 ≤ z → 2 ≤ ulp z ∧ 2 ^ 52 * ulp z ≤ z < 2 ^ 53 * ulp z.
Proof.
  intros Hz. unfold ulp.
  assert (53 ≤ Z.log2 z) by (apply Z.log2_le_pow2; lia).
  rewrite Z.max_r by lia.
  destruct (Z.log2_spec z ltac:(lia)) as [Hlo Hhi].
  replace (Z.log2 z) with (52 + (Z.log2 z - 52)) in Hlo at 1 by lia.
  replace (Z.succ (Z.log2 z)) with (53 + (Z.log2 z - 52)) in Hhi by lia.
  rewrite Z.pow_add_r in Hlo, Hhi by lia.
  split; [|done].
  replace (Z.log2 z - 52) with (1 + (Z.log2 z - 53)) by lia.
  rewrite Z.pow_add_r by lia.
  assert (0 < 2 ^ (Z.log2 z - 53)) by (apply Z.pow_pos_nonneg; lia). lia.
Qed.

Lemma ulp_of_binade z e :
  0 ≤ e → 2 ^ 52 * 2 ^ e ≤ z < 2 ^ 53 * 2 ^ e → ulp z = 2 ^ e.
Proof.
  intros He [Hlo Hhi]. unfold ulp.
  assert (0 < 2 ^ e) by (apply Z.pow_pos_nonneg; lia).
  assert (Z.log2 z = 52 + e) as ->.
  { apply Z.log2_unique; [lia|].
    replace (Z.succ (52 + e)) with (53 + e) by lia.
    rewrite !Z.pow_add_r by lia. lia. }
  rewrite Z.max_r by lia. f_equal. lia.
Qed.

Lemma ulp_mono x y : 0 ≤ x ≤ y → ulp x ≤ ulp y.
Proof.
  intros Hxy. unfold ulp. apply Z.pow_le_mono_r; [lia|].
  pose proof (Z.log2_le_mono x y ltac:(lia)). lia.
Qed.

Lemma ulp_is_pow2 z : ∃ e, 0 ≤ e ∧ ulp z = 2 ^ e.
Proof. unfold ulp. eexists; split; [|done]. lia. Qed.

Lemma round_magnitude_small z : 0 ≤ z ≤ 2 ^ 53 → round_magnitude z = z.
Proof.
  intros Hz. unfold round_magnitude.
  destruct (decide (z = 2 ^ 53)) as [->|Hne].
  - vm_compute. reflexivity.
  - rewrite ulp_small by lia.
    replace z with (1 * z) at 1 by lia.
    rewrite round_half_even_exact by lia. lia.
Qed.

Lemma round_magnitude_binade z :
  2 ^ 53 ≤ z → 2 ^ 52 * ulp z ≤ round_magnitude z ≤ 2 ^ 53 * ulp z.
Proof.
  intros Hz. destruct (ulp_binade z Hz) as (Hu & Hlo & Hhi).
  unfold round_magnitude.
  pose proof (round_half_even_bounds z (ulp z) ltac:(lia)) as [Hb1 Hb2].
  assert (2 ^ 52 ≤ z / ulp z) by (apply Z.div_le_lower_bound; lia).
  assert (z / ulp z < 2 ^ 53) by (apply Z.div_lt_upper_bound; lia).
  nia.
Qed.

Lemma round_magnitude_nonneg z : 0 ≤ z → 0 ≤ round_magnitude z.
Proof.
  intros Hz. destruct (decide (z ≤ 2 ^ 53)).
  - rewrite round_magnitude_small; lia.
  - pose proof (round_magnitude_binade z ltac:(lia)).
    pose proof (ulp_pos z). nia.
Qed.

Lemma round_magnitude_pos z : 0 < z → 0 < round_magnitude z.
Proof.
  intros Hz. destruct (decide (z ≤ 2 ^ 53)).
  - rewrite round_magnitude_small; lia.
  - pose proof (round_magnitude_binade z ltac:(lia)).
    pose proof (ulp_pos z). nia.
Qed.

Lemma round_magnitude_mono x y :
  0 ≤ x ≤ y → round_magnitude x ≤ round_magnitude y.
Proof.
  intros [Hx Hxy].
  destruct (decide (y ≤ 2 ^ 53)) as [Hy|Hy].
  { rewrite !round_magnitude_small; lia. }
  pose proof (round_magnitude_binade y ltac:(lia)) as [Hylo _].
  destruct (ulp_binade y ltac:(lia)) as (Huy & _ & _).
  destruct (decide (x ≤ 2 ^ 53)) as [Hxs|Hxl].
  { rewrite (round_magnitude_small x) by lia. nia. }
  pose proof (round_magnitude_binade x ltac:(lia)) as [_ Hxhi].
  destruct (decide (ulp x = ulp y)) as [Heq|Hne].
  - unfold round_magnitude. rewrite Heq.
    pose proof (round_half_even_mono x y (ulp y) ltac:(lia) Hxy).
    pose proof (ulp_pos y). nia.
  - pose proof (ulp_mono x y ltac:(lia)).
    destruct (ulp_is_pow2 x) as (ex & Hex & Hux).
    destruct (ulp_is_pow2 y) as (ey & Hey & Huyy).
    assert (ex < ey).
    { destruct (decide (ex < ey)); [done|].
      assert (2 ^ ey ≤ 2 ^ ex) by (apply Z.pow_le_mono_r; lia). lia. }
    assert (2 * ulp x ≤ ulp y).
    { rewrite Hux, Huyy. replace ey with (1 + (ey - 1)) by lia.
      rewrite Z.pow_add_r by lia.
      assert (2 ^ ex ≤ 2 ^ (ey - 1)) by (apply Z.pow_le_mono_r; lia). lia. }
    lia.
Qed.

Lemma round_magnitude_idemp z :
  0 ≤ z → round_magnitude (round_magnitude z) = round_magnitude z.
Proof.
  intros Hz.
  destruct (decide (z ≤ 2 ^ 53)) as [Hs|Hl].
  { by rewrite !(round_magnitude_small z). }
  destruct (ulp_binade z ltac:(lia)) as (Hu & Hlo & Hhi).
  pose proof (round_magnitude_binade z ltac:(lia)) as [Hrlo Hrhi].
  destruct (ulp_is_pow2 z) as (e & He & Hue).
  set (k := round_half_even z (ulp z)).
  assert (round_magnitude z = ulp z * k) as Hr by done.
  destruct (decide (round_magnitude z = 2 ^ 53 * ulp z)) as [Htop|Hin].
  - assert (ulp (round_magnitude z) = 2 ^ (e + 1)) as Hu'.
    { apply ulp_of_binade; [lia|]. rewrite Htop, Hue.
      rewrite Z.pow_add_r by lia. change (2 ^ 1) with 2.
      assert (0 < 2 ^ e) by (apply Z.pow_pos_nonneg; lia). lia. }
    unfold round_magnitude at 1. rewrite Hu'.
    assert (round_magnitude z = 2 ^ (e + 1) * 2 ^ 52) as Hv.
    { rewrite Htop, Hue, Z.pow_add_r by lia. change (2 ^ 1) with 2. lia. }
    rewrite Hv at 1. rewrite round_half_even_exact; [lia|].
    apply Z.pow_pos_nonneg; lia.
  - assert (ulp (round_magnitude z) = ulp z) as Hu'.
    { rewrite Hue. apply ulp_of_binade; [lia|]. rewrite <- Hue. lia. }
    unfold round_magnitude at 1. rewrite Hu', Hr.
    rewrite round_half_even_exact; lia.
Qed.

Lemma rne_exact z : - 2 ^ 53 ≤ z ≤ 2 ^ 53 → rne z = z.
Proof.
  intros Hz. unfold rne. rewrite round_magnitude_small by lia.
  destruct z; lia.
Qed.

Lemma rne_opp z : rne (- z) = - rne z.
Proof. unfold rne. rewrite Z.abs_opp, Z.sgn_opp. lia. Qed.

Lemma rne_nonneg z : 0 ≤ z → 0 ≤ rne z.
Proof.
  intros Hz. unfold rne. rewrite Z.abs_eq by done.
  pose proof (round_magnitude_nonneg z Hz). destruct z; lia.
Qed.

Lemma rne_neg z : z < 0 → rne z < 0.
Proof.
  intros Hz. unfold rne.
  pose proof (round_magnitude_pos (Z.abs z) ltac:(lia)).
  rewrite Z.sgn_neg by done. lia.
Qed.

Lemma rne_pos z : 0 < z → 0 < rne z.
Proof.
  intros Hz. unfold rne.
  pose proof (round_magnitude_pos (Z.abs z) ltac:(lia)).
  rewrite Z.sgn_pos by done. lia.
Qed.

Lemma rne_mono x y : x ≤ y → rne x ≤ rne y.
Proof.
  intros Hxy.
  destruct (decide (0 ≤ x)) as [Hx|Hx].
  - unfold rne. rewrite !Z.abs_eq by lia.
    pose proof (round_magnitude_mono x y ltac:(lia)).
    pose proof (round_magnitude_nonneg x ltac:(lia)).
    destruct (decide (x = 0)) as [->|]; [|rewrite !Z.sgn_pos by lia; lia].
    rewrite round_magnitude_small in * by lia.
    pose proof (round_magnitude_nonneg y ltac:(lia)).
    destruct y; lia.
  - destruct (decide (0 ≤ y)) as [Hy|Hy].
    + pose proof (rne_neg x ltac:(lia)). pose proof (rne_nonneg y Hy). lia.
    + unfold rne. rewrite !Z.sgn_neg by lia.
      pose proof (round_magnitude_mono (Z.abs y) (Z.abs x) ltac:(lia)). lia.
Qed.

Lemma rne_idemp z : rne (rne z) = rne z.
Proof.
  destruct (Z.lt_trichotomy z 0) as [Hz|[->|Hz]].
  - pose proof (rne_neg z Hz) as Hn.
    unfold rne at 1. rewrite Z.sgn_neg by done.
    unfold rne in *. rewrite Z.sgn_neg in * by done.
    replace (Z.abs (-1 * round_magnitude (Z.abs z))) with (round_magnitude (Z.abs z)) by lia.
    rewrite round_magnitude_idemp by lia. done.
  - reflexivity.
  - pose proof (rne_pos z Hz) as Hn.
    unfold rne at 1. rewrite Z.sgn_pos by done.
    unfold rne in *. rewrite Z.sgn_pos in * by done.
    replace (Z.abs (1 * round_magnitude (Z.abs z))) with (round_magnitude (Z.abs z)) by lia.
    rewrite round_magnitude_idemp by lia. done.
Qed.

(** ** Doubles *)

Lemma is_double_small z : - 2 ^ 53 ≤ z ≤ 2 ^ 53 → is_double z.
Proof.
  intros Hz. split; [by apply rne_exact|].
  assert (2 ^ 53 < 2 ^ 1024) by (vm_compute; reflexivity). lia.
Qed.

Lemma binary64_cases z :
  (binary64 z = Num (rne z) ∧ is_double (rne z))
  ∨ (binary64 z = PosInf ∧ 0 < z) ∨ (binary64 z = NegInf ∧ z < 0).
Proof.
  unfold binary64. cbn zeta.
  assert (0 < 2 ^ 1024) by (vm_compute; reflexivity).
  case_bool_decide as Hhi.
  { right; left. split; [done|].
    destruct (decide (0 < z)); [done|]. pose proof (rne_mono z 0 ltac:(lia)) as Hm.
    change (rne 0) with 0 in Hm. lia. }
  case_bool_decide as Hlo.
  { right; right. split; [done|].
    destruct (decide (z < 0)); [done|]. pose proof (rne_nonneg z ltac:(lia)). lia. }
  left. split; [done|]. split; [apply rne_idemp|lia].
Qed.

Lemma binary64_exact z : - 2 ^ 53 ≤ z ≤ 2 ^ 53 → binary64 z = Num z.
Proof.
  intros Hz. unfold binary64. cbn zeta. rewrite rne_exact by done.
  assert (2 ^ 53 < 2 ^ 1024) by (vm_compute; reflexivity).
  rewrite !bool_decide_eq_false_2 by lia. done.
Qed.

Lemma binary64_double z : is_double z → binary64 z = Num z.
Proof.
  intros [Hr Hz]. unfold binary64. cbn zeta. rewrite Hr.
  rewrite !bool_decide_eq_false_2 by lia. done.
Qed.

Lemma lt_int_binary64 z : lt_int (binary64 z) 0 = bool_decide (z < 0).
Proof.
  destruct (binary64_cases z) as [[-> _]|[[-> ?]|[-> ?]]]; cbn.
  - destruct (decide (z < 0)).
    + pose proof (rne_neg z ltac:(done)).
      rewrite !bool_decide_eq_true_2 by done. done.
    + pose proof (rne_nonneg z ltac:(lia)).
      rewrite !bool_decide_eq_false_2 by lia. done.
  - by rewrite bool_decide_eq_false_2 by lia.
  - by rewrite bool_decide_eq_true_2 by lia.
Qed.

Lemma not_negative_binary64 z : 0 ≤ z → not_negative (binary64 z).
Proof.
  intros Hz. destruct (binary64_cases z) as [[-> Hd]|[[-> ?]|[-> ?]]]; cbn;
    [|done|lia].
  split; [by apply rne_nonneg|done].
Qed.

Lemma float_of_int_inr z v :
  float_of_int z = inr v → v = Num (rne z) ∧ is_double (rne z).
Proof.
  unfold float_of_int.
  destruct (binary64_cases z) as [[-> Hd]|[[-> ?]|[-> ?]]]; cbn; [|done..].
  by intros [= <-].
Qed.

Lemma float_of_int_exact z :
  - 2 ^ 53 ≤ z ≤ 2 ^ 53 → float_of_int z = inr (Num z).
Proof. intros Hz. unfold float_of_int. by rewrite binary64_exact. Qed.

(** A product of two 32-bit integers is converted without overflow. *)
Lemma float_of_int_int64 z :
  - 2 ^ 62 ≤ z ≤ 2 ^ 62 → float_of_int z = inr (Num (rne z)).
Proof.
  intros Hz. unfold float_of_int, binary64. cbn zeta.
  pose proof (rne_mono z (2 ^ 62) ltac:(lia)) as Hhi.
  pose proof (rne_mono (- 2 ^ 62) z ltac:(lia)) as Hlo.
  assert (rne (2 ^ 62) = 2 ^ 62) as E1 by (vm_compute; reflexivity).
  assert (rne (- 2 ^ 62) = - 2 ^ 62) as E2 by (vm_compute; reflexivity).
  rewrite E1 in Hhi. rewrite E2 in Hlo.
  assert (2 ^ 62 < 2 ^ 1024) by (vm_compute; reflexivity).
  rewrite !bool_decide_eq_false_2 by lia. done.
Qed.

Lemma float_of_int_finite z :
  - 2 ^ 1023 ≤ z ≤ 2 ^ 1023 → float_of_int z = inr (Num (rne z)).
Proof.
  intros Hz. unfold float_of_int, binary64. cbn zeta.
  pose proof (rne_mono z (2 ^ 1023) ltac:(lia)) as Hhi.
  pose proof (rne_mono (- 2 ^ 1023) z ltac:(lia)) as Hlo.
  assert (rne (2 ^ 1023) = 2 ^ 1023) as E1 by (vm_compute; reflexivity).
  assert (rne (- 2 ^ 1023) = - 2 ^ 1023) as E2 by (vm_compute; reflexivity).
  rewrite E1 in Hhi. rewrite E2 in Hlo.
  assert (2 ^ 1023 < 2 ^ 1024) by (vm_compute; reflexivity).
  rewrite !bool_decide_eq_false_2 by lia. done.
Qed.

(** A credit keeps a balance non-negative. *)
Lemma add_int_not_negative b z v :
  not_negative b → 0 ≤ z → add_int b z = inr v → not_negative v.
Proof.
  unfold add_int. intros Hb Hz.
  destruct (float_of_int z) as [|c] eqn:Hc; [done|]. cbn. intros [= <-].
  apply float_of_int_inr in Hc as [-> Hd].
  destruct b as [x| | |]; cbn in *; try done.
  apply not_negative_binary64. pose proof (rne_nonneg z Hz). lia.
Qed.

(** A debit that passed the comparison [b < z] keeps it non-negative. *)
Lemma sub_int_not_negative b z v :
  not_negative b → lt_int b z = false → sub_int b z = inr v → not_negative v.
Proof.
  unfold sub_int. intros Hb Hlt.
  destruct (float_of_int z) as [|c] eqn:Hc; [done|]. cbn. intros [= <-].
  apply float_of_int_inr in Hc as [-> Hd].
  destruct b as [x| | |]; cbn in *; try done.
  apply bool_decide_eq_false_1 in Hlt. destruct Hb as [Hx [Hrx _]].
  unfold fsub. cbn. apply not_negative_binary64.
  pose proof (rne_mono z x ltac:(lia)). lia.
Qed.

(** A balance that is not below [z] is at least the double of [z]; so is
    a balance that [z] was added to; and a debit of [z] from such a
    balance is not negative. *)
Lemma lt_int_at_least b z :
  not_negative b → lt_int b z = false → at_least b (rne z).
Proof.
  destruct b as [x| | |]; cbn; try done.
  intros [_ [Hr _]] Hlt%bool_decide_eq_false_1.
  rewrite <- Hr. apply rne_mono. lia.
Qed.

Lemma binary64_NegInf z : binary64 z = NegInf → rne z ≤ - 2 ^ 1024.
Proof.
  unfold binary64. cbn zeta. case_bool_decide; [done|].
  by case_bool_decide.
Qed.

Lemma add_int_at_least b z v :
  not_negative b → add_int b z = inr v → at_least v (rne z).
Proof.
  unfold add_int. intros Hb.
  destruct (float_of_int z) as [|c] eqn:Hc; [done|]. cbn. intros [= <-].
  apply float_of_int_inr in Hc as [-> Hd].
  destruct b as [x| | |]; cbn in *; try done.
  destruct Hb as [Hx _].
  pose proof (rne_mono (rne z) (x + rne z) ltac:(lia)) as Hm.
  rewrite rne_idemp in Hm.
  destruct (binary64 (x + rne z)) as [y| | |] eqn:Hy; cbn; try done.
  - destruct (binary64_cases (x + rne z)) as [[E _]|[[E _]|[E _]]];
      rewrite Hy in E; [|done..]. by injection E as ->.
  - apply binary64_NegInf in Hy. destruct Hd as [_ Hd]. lia.
  - by destruct (binary64_cases (x + rne z)) as [[E _]|[[E _]|[E _]]];
      rewrite Hy in E.
Qed.

Lemma sub_int_at_least b z v :
  at_least b (rne z) → sub_int b z = inr v → not_negative v.
Proof.
  unfold sub_int. intros Hb.
  destruct (float_of_int z) as [|c] eqn:Hc; [done|]. cbn. intros [= <-].
  apply float_of_int_inr in Hc as [-> Hd].
  destruct b as [x| | |]; cbn in *; try done.
  unfold fsub. cbn. apply not_negative_binary64. lia.
Qed.

(** The result of an adjustment that passed the test [new_balance < 0]. *)
Lemma adjusted_not_negative b z v :
  not_negative b → add_int b z = inr v → lt_int v 0 = false → not_negative v.
Proof.
  unfold add_int. intros Hb.
  destruct (float_of_int z) as [|c] eqn:Hc; [done|]. cbn. intros [= <-] Hlt.
  apply float_of_int_inr in Hc as [-> Hd].
  destruct b as [x| | |]; cbn in *; try done.
  rewrite lt_int_binary64 in Hlt. apply bool_decide_eq_false_1 in Hlt.
  apply not_negative_binary64. lia.
Qed.

Lemma not_negative_lt_int b : not_negative b → lt_int b 0 = false.
Proof.
  destruct b as [x| | |]; cbn; try done.
  intros [Hx _]. by rewrite bool_decide_eq_false_2 by lia.
Qed.

Lemma add_int_int64 b z :
  - 2 ^ 62 ≤ z ≤ 2 ^ 62 → ∃ v, add_int b z = inr v.
Proof.
  intros Hz. unfold add_int. rewrite float_of_int_int64 by done. cbn. eauto.
Qed.

Lemma sub_int_int64 b z :
  - 2 ^ 62 ≤ z ≤ 2 ^ 62 → ∃ v, sub_int b z = inr v.
Proof.
  intros Hz. unfold sub_int. rewrite float_of_int_int64 by done. cbn. eauto.
Qed.

(** Below 2^53 the arithmetic is exact. *)
Lemma add_int_exact x z :
  - 2 ^ 53 ≤ z ≤ 2 ^ 53 → - 2 ^ 53 ≤ x + z ≤ 2 ^ 53 →
  add_int (Num x) z = inr (Num (x + z)).
Proof.
  intros Hz Hs. unfold add_int. rewrite float_of_int_exact by done. cbn.
  by rewrite binary64_exact.
Qed.

Lemma sub_int_exact x z :
  - 2 ^ 53 ≤ z ≤ 2 ^ 53 → - 2 ^ 53 ≤ x - z ≤ 2 ^ 53 →
  sub_int (Num x) z = inr (Num (x - z)).
Proof.
  intros Hz Hs. unfold sub_int. rewrite float_of_int_exact by done. cbn.
  unfold fsub. cbn. replace (x + - z) with (x - z) by lia.
  by rewrite binary64_exact.
Qed.

(** ** Bridging lemmas: the source functions are instances of the generic ones *)

Lemma match_asks_eq session trader_id symbol_ticker price new_order orderbook :
  match_asks session trader_id symbol_ticker price new_order orderbook
  = match_orders BID session trader_id symbol_ticker price new_order orderbook.
Proof.
  revert session new_order.
  induction orderbook as [|m rest IH]; intros session new_order; [done|].
  cbn [match_asks match_orders]. case_bool_decide; [done|].
  unfold gate, crosses, settle.
  destruct price as [p|]; [destruct (o_price m) as [mp|]|]; cbn [bind ret raise];
    try done.
  - case_bool_decide; [done|].
    destruct (buy _ _ _ _ _ _); cbn [bind]; [done|].
    destruct (partially_execute_order m _); cbn [bind]; [done|].
    destruct (partially_execute_order new_order _); cbn [bind]; [done|].
    apply IH.
  - destruct (buy _ _ _ _ _ _); cbn [bind]; [done|].
    destruct (partially_execute_order m _); cbn [bind]; [done|].
    destruct (partially_execute_order new_order _); cbn [bind]; [done|].
    apply IH.
Qed.

Lemma match_bids_eq session trader_id symbol_ticker price new_order orderbook :
  match_bids session trader_id symbol_ticker price new_order orderbook
  = match_orders ASK session trader_id symbol_ticker price new_order orderbook.
Proof.
  revert session new_order.
  induction orderbook as [|m rest IH]; intros session new_order; [done|].
  cbn [match_bids match_orders]. case_bool_decide; [done|].
  unfold gate, crosses, settle.
  destruct price as [p|]; [destruct (o_price m) as [mp|]|]; cbn [bind ret raise];
    try done.
  - case_bool_decide; [done|].
    destruct (sell _ _ _ _ _ _); cbn [bind]; [done|].
    destruct (partially_execute_order m _); cbn [bind]; [done|].
    destruct (partially_execute_order new_order _); cbn [bind]; [done|].
    apply IH.
  - destruct (sell _ _ _ _ _ _); cbn [bind]; [done|].
    destruct (partially_execute_order m _); cbn [bind]; [done|].
    destruct (partially_execute_order new_order _); cbn [bind]; [done|].
    apply IH.
Qed.

(** ** Status sets *)

Lemma active_status_iff st :
  st ∈ ACTIVE_ORDER_STATUSES ↔ (st = NEW ∨ st = PARTIALLY_EXECUTED).
Proof.
  unfold ACTIVE_ORDER_STATUSES. rewrite !elem_of_cons, elem_of_nil. tauto.
Qed.

Lemma final_status_iff st :
  st ∈ FINAL_ORDER_STATUSES ↔ st ≠ NEW.
Proof.
  unfold FINAL_ORDER_STATUSES. rewrite !elem_of_cons, elem_of_nil.
  destruct st; split; intros H; try done; auto.
  by destruct H as [|[|[|]]].
Qed.

(** ** One step of the loop, inverted *)

Lemma partially_execute_order_inr order q order' :
  partially_execute_order order q = inr order' →
  q ≤ o_amount order ∧
  order' = mkOrder (o_id order) (o_trader_id order) (o_symbol_ticker order)
             (o_amount order - q) (o_filled order + q) (o_price order)
             (o_direction order)
             (if bool_decide (o_amount order - q = 0) then EXECUTED
              else PARTIALLY_EXECUTED)
             (o_created_at order).
Proof.
  unfold partially_execute_order. case_bool_decide; [done|].
  intros [= <-]. split; [lia|reflexivity].
Qed.


Lemma match_orders_cons_inr taker s t sym price n m rest s' n' :
  match_orders taker s t sym price n (m :: rest) = inr (s', n') →
  (o_amount n = 0 ∧ s' = s ∧ n' = n)
  ∨ (o_amount n ≠ 0 ∧ gate taker price m = inr true ∧ s' = s ∧ n' = n)
  ∨ (∃ s1 n1, loop_step taker t sym price s n m s1 n1
              ∧ match_orders taker s1 t sym price n1 rest = inr (s', n')).
Proof.
  cbn [match_orders]. case_bool_decide as Hz.
  { intros [= <- <-]. by left. }
  destruct (gate taker price m) as [e|[|]] eqn:Hg; cbn [bind]; [done| |].
  { intros [= <- <-]. right; left. done. }
  destruct (settle _ _ _ _ _ _) as [e|s0] eqn:Hs; cbn [bind]; [done|].
  destruct (partially_execute_order m _) as [e|m1] eqn:Hm; cbn [bind]; [done|].
  destruct (partially_execute_order n _) as [e|n1] eqn:Hn; cbn [bind]; [done|].
  intros Hrest. right; right. exists (flush_order s0 m1), n1.
  split; [|done]. by econstructor.
Qed.

Lemma bind_inr {A B} (m : result A) (k : A → result B) b :
  bind m k = inr b → ∃ a, m = inr a ∧ k a = inr b.
Proof. destruct m as [e|a]; [done|]. cbn. eauto. Qed.

(** What a successful [buy] and a successful [sell] have done. *)
Lemma buy_inr s seller buyer sym price q s' :
  buy s seller buyer sym price q = inr s' →
  ∃ p bb sb pq sb' bb' pq',
    price = Some p ∧ traders s !! buyer = Some bb ∧ traders s !! seller = Some sb
    ∧ positions s !! (buyer, sym) = Some pq
    ∧ lt_int bb (q * p) = false
    ∧ add_int sb (q * p) = inr sb'
    ∧ sub_int (if decide (buyer = seller) then sb' else bb) (q * p) = inr bb'
    ∧ add_int pq q = inr pq'
    ∧ s' = mkDatabase (<[buyer := bb']> (<[seller := sb']> (traders s)))
             (<[(buyer, sym) := pq']> (positions s)) (orders s)
             (trades s ++ [mkTrade seller buyer sym q p]).
Proof.
  unfold buy.
  destruct (traders s !! buyer) as [bb|] eqn:Hb; [|done].
  destruct price as [p|]; [|done].
  destruct (lt_int bb (q * p)) eqn:Hlt; [done|].
  destruct (traders s !! seller) as [sb|] eqn:Hs; [|done].
  intros (sb'&Hsb&H)%bind_inr. apply bind_inr in H as (bb'&Hbb&H).
  destruct (positions s !! (buyer, sym)) as [pq|] eqn:Hpq; [|done].
  apply bind_inr in H as (pq'&Hpq'&H). injection H as <-.
  exists p, bb, sb, pq, sb', bb', pq'. split_and!; try done.
  destruct (decide (buyer = seller)) as [->|Hne].
  - by rewrite lookup_insert_eq in Hbb.
  - by rewrite lookup_insert_ne, Hb in Hbb.
Qed.

Lemma sell_inr s seller buyer sym price q s' :
  sell s seller buyer sym price q = inr s' →
  ∃ p sq sb bq sb' sq' bq',
    price = Some p ∧ positions s !! (seller, sym) = Some sq
    ∧ traders s !! seller = Some sb ∧ positions s !! (buyer, sym) = Some bq
    ∧ lt_int sq q = false
    ∧ add_int sb (q * p) = inr sb'
    ∧ sub_int sq q = inr sq'
    ∧ add_int (if decide (buyer = seller) then sq' else bq) q = inr bq'
    ∧ s' = mkDatabase (<[seller := sb']> (traders s))
             (<[(buyer, sym) := bq']> (<[(seller, sym) := sq']> (positions s)))
             (orders s) (trades s ++ [mkTrade seller buyer sym q p]).
Proof.
  unfold sell.
  destruct (positions s !! (seller, sym)) as [sq|] eqn:Hsq; [|done].
  destruct (lt_int sq q) eqn:Hlt; [done|].
  destruct (traders s !! seller) as [sb|] eqn:Hs; [|done].
  destruct price as [p|]; [|done].
  intros (sb'&Hsb&H)%bind_inr. apply bind_inr in H as (sq'&Hsq'&H).
  destruct (positions s !! (buyer, sym)) as [bq|] eqn:Hbq; [|done].
  apply bind_inr in H as (bq'&Hbq'&H). injection H as <-.
  exists p, sq, sb, bq, sb', sq', bq'. split_and!; try done.
  destruct (decide (buyer = seller)) as [->|Hne].
  - by rewrite lookup_insert_eq in Hbq'.
  - rewrite lookup_insert_ne, Hbq in Hbq' by congruence. done.
Qed.

Lemma settle_orders taker s t sym m q s0 :
  settle taker s t sym m q = inr s0 → orders s0 = orders s.
Proof.
  destruct taker; unfold settle.
  - by intros (?&?&?&?&?&?&?&_&_&_&_&_&_&_&_&->)%sell_inr.
  - by intros (?&?&?&?&?&?&?&_&_&_&_&_&_&_&_&->)%buy_inr.
Qed.

Lemma settle_trades taker s t sym m q s0 :
  settle taker s t sym m q = inr s0 →
  ∃ mp, o_price m = Some mp ∧
    trades s0 = trades s ++ [trade_of taker t sym m q mp].
Proof.
  destruct taker; unfold settle.
  - intros (p&?&?&?&?&?&?&Hp&_&_&_&_&_&_&_&->)%sell_inr. eauto.
  - intros (p&?&?&?&?&?&?&Hp&_&_&_&_&_&_&_&->)%buy_inr. eauto.
Qed.

(** ** The order under submission while the loop runs *)

Lemma tracks_refl n : tracks n n.
Proof. split; auto. Qed.

Lemma tracks_step taker t sym price s n0 n m s1 n1 :
  tracks n0 n → loop_step taker t sym price s n m s1 n1 → tracks n0 n1.
Proof.
  intros [] [m1 s0 _ _ _ _ Hn _].
  apply partially_execute_order_inr in Hn as [_ ->].
  split; cbn; try done.
  - unfold original_amount in *. cbn. lia.
  - right. case_bool_decide; [left|right]; done.
Qed.

Lemma match_orders_tracks taker s t sym price n0 n cands s' n' :
  tracks n0 n →
  match_orders taker s t sym price n cands = inr (s', n') →
  tracks n0 n'.
Proof.
  revert s n. induction cands as [|m rest IH]; intros s n Htr.
  { by intros [= <- <-]. }
  intros H. apply match_orders_cons_inr in H
    as [(_&_&->)|[(_&_&_&->)|(s1&n1&Hstep&Hrest)]]; [done..|].
  eapply IH; [|done]. by eapply tracks_step.
Qed.

Lemma try_limit_buy_order_eq session symbol_ticker price trader_id new_order orderbook :
  o_price new_order = price →
  try_limit_buy_order session symbol_ticker price trader_id new_order orderbook
  = try_limit_order BID session symbol_ticker price trader_id new_order orderbook.
Proof.
  intros Hp. unfold try_limit_buy_order, try_limit_order. rewrite match_asks_eq.
  destruct (match_orders _ _ _ _ _ _ _) as [e|[s n]] eqn:Hm; [done|].
  apply (match_orders_tracks _ _ _ _ _ _ _ _ _ _ (tracks_refl _)) in Hm.
  cbn [bind]. unfold freeze_remainder. rewrite (tracks_price _ _ Hm), Hp.
  by destruct price.
Qed.

Lemma try_limit_sell_order_eq session symbol_ticker price trader_id new_order orderbook :
  o_price new_order = price →
  try_limit_sell_order session symbol_ticker price trader_id new_order orderbook
  = try_limit_order ASK session symbol_ticker price trader_id new_order orderbook.
Proof.
  intros Hp. unfold try_limit_sell_order, try_limit_order. rewrite match_bids_eq.
  destruct (match_orders _ _ _ _ _ _ _) as [e|[s n]] eqn:Hm; [done|].
  apply (match_orders_tracks _ _ _ _ _ _ _ _ _ _ (tracks_refl _)) in Hm.
  cbn [bind]. unfold freeze_remainder. rewrite (tracks_price _ _ Hm), Hp.
  by destruct price.
Qed.

Lemma create_limit_buy_order_eq db new_id now symbol_ticker quantity price trader_id :
  create_limit_buy_order db new_id now symbol_ticker quantity price trader_id
  = create_limit_order BID db new_id now symbol_ticker quantity price trader_id.
Proof.
  unfold create_limit_buy_order, create_limit_order.
  by rewrite try_limit_buy_order_eq.
Qed.

Lemma create_limit_sell_order_eq db new_id now symbol_ticker quantity price trader_id :
  create_limit_sell_order db new_id now symbol_ticker quantity price trader_id
  = create_limit_order ASK db new_id now symbol_ticker quantity price trader_id.
Proof.
  unfold create_limit_sell_order, create_limit_order.
  by rewrite try_limit_sell_order_eq.
Qed.

(** ** Commit or roll back *)

Lemma insertable_cancelled taker new_id now sym q price t :
  insertable (cancelled (new_order_of taker new_id now sym q price t) q)
  = bool_decide (fits_int32 q price).
Proof.
  unfold insertable, int32, fits_int32. cbn.
  destruct price as [p|]; repeat case_bool_decide; cbn; try done; lia.
Qed.

Lemma insert_order_inr s o s' :
  insert_order s o = inr s' → s' = add_order s o ∧ insertable o = true.
Proof. unfold insert_order. destruct (insertable o); [|done]. by intros [= <-]. Qed.

Lemma insertable_fits o :
  insertable o = true → fits_int32 (o_amount o) (o_price o).
Proof.
  unfold insertable, int32, fits_int32.
  intros [[H1 _]%andb_prop H2]%andb_prop. apply bool_decide_eq_true_1 in H1.
  split; [lia|]. destruct (o_price o); [|done].
  by apply bool_decide_eq_true_1 in H2.
Qed.

(** The three ways a submission ends: the [try] block raised and the
    handler recorded the order as cancelled; the [try] block raised and
    the handler's INSERT was refused, so the exception leaves the
    function; the [try] block committed. *)
Lemma create_limit_order_cases taker db new_id now sym q price t :
  let n0 := new_order_of taker new_id now sym q price t in
  let cands := __get_orders db sym (opposite taker) q in
  let r := create_limit_order taker db new_id now sym q price t in
  (∃ e, try_limit_order taker db sym price t n0 cands = inl e
        ∧ fits_int32 q price
        ∧ r = (add_order db (cancelled n0 q), inr (cancelled n0 q))
        ∧ rolled_back db r.1 (cancelled n0 q) q)
  ∨ (∃ e, try_limit_order taker db sym price t n0 cands = inl e
        ∧ ¬ fits_int32 q price ∧ r = (db, inl DBAPIError))
  ∨ (∃ s n, match_orders taker db t sym price n0 cands = inr (s, n)
        ∧ ∃ s1, freeze_remainder taker s t sym n = inr s1
        ∧ insertable n = true
        ∧ r = (add_order s1 n, inr n)).
Proof.
  intros n0 cands r. subst r. unfold create_limit_order. fold n0 cands.
  destruct (try_limit_order _ _ _ _ _ _ _) as [e|[s' n']] eqn:Htry.
  - unfold submission, persist_cancelled, insert_order.
    fold (cancelled n0 q). subst n0. rewrite insertable_cancelled.
    case_bool_decide as Hfit; cbn [bind ret raise].
    + left. exists e. split; [done|]. split; [done|]. split; [done|].
      by repeat split.
    + right; left. eauto.
  - right; right. unfold try_limit_order in Htry.
    destruct (match_orders _ _ _ _ _ _ _) as [e|[s n]] eqn:Hm;
      cbn [bind] in Htry; [done|].
    destruct (freeze_remainder _ _ _ _ _) as [e|s1] eqn:Hf;
      cbn [bind] in Htry; [done|].
    destruct (insert_order s1 n) as [e|s2] eqn:Hi; cbn [bind] in Htry; [done|].
    apply insert_order_inr in Hi as [-> Hi].
    injection Htry as <- <-. exists s, n. split; [done|]. by exists s1.
Qed.


(** A price that does not fit its INTEGER column: nothing is left. *)
Lemma create_limit_order_price_refused taker db new_id now sym q p t :
  2 ^ 31 ≤ p →
  create_limit_order taker db new_id now sym q (Some p) t = (db, inl DBAPIError).
Proof.
  intros Hp.
  destruct (create_limit_order_cases taker db new_id now sym q (Some p) t)
    as [(e'&_&[_ ?]&_)|[(e'&_&_&Hr)|(s&n&Hm&s1&Hf&Hi&Hr)]];
    [lia|done|].
  exfalso. apply insertable_fits in Hi as [_ Hpr].
  apply (match_orders_tracks _ _ _ _ _ _ _ _ _ _ (tracks_refl _)) in Hm.
  rewrite (tracks_price _ _ Hm) in Hpr. cbn in Hpr. lia.
Qed.

(** How the three funds checks report a shortfall. *)
Lemma buy_insufficient s seller buyer sym p q b :
  traders s !! buyer = Some b → lt_int b (q * p) = true →
  buy s seller buyer sym (Some p) q = inl (Exception "Not enough balance").
Proof. intros Hb Hlt. unfold buy. by rewrite Hb, Hlt. Qed.

Lemma sell_insufficient s seller buyer sym p q pq :
  positions s !! (seller, sym) = Some pq → lt_int pq q = true →
  sell s seller buyer sym p q = inl (Exception "Not enough instruments").
Proof. intros Hq Hlt. unfold sell. by rewrite Hq, Hlt. Qed.

Lemma freeze_balance_insufficient s t a b :
  traders s !! t = Some b → lt_int b a = true →
  freeze_balance s t BASE_CURRENCY_TICKER a
  = inl (Exception "Trader not enough balance/instruments").
Proof.
  intros Hb Hlt. unfold freeze_balance. rewrite Hb.
  rewrite bool_decide_eq_true_2 by done. by rewrite Hlt.
Qed.

(** A committed submission never carries the CANCELLED status. *)
Lemma committed_not_cancelled taker db new_id now sym q price t s n :
  match_orders taker db t sym price
    (new_order_of taker new_id now sym q price t)
    (__get_orders db sym (opposite taker) q) = inr (s, n) →
  o_status n ≠ CANCELLED.
Proof.
  intros H. apply (match_orders_tracks _ _ _ _ _ _ _ _ _ _ (tracks_refl _)) in H.
  destruct (tracks_status _ _ H) as [->|[[-> _]|[-> _]]]; done.
Qed.


(** ** Market orders *)


(** ** The book query *)

Lemma insert_sorted_Permutation d x l : insert_sorted d x l ≡ₚ x :: l.
Proof.
  induction l as [|y l IH]; cbn; [done|].
  destruct (sorts_before d x y); [done|].
  rewrite IH. apply Permutation_swap.
Qed.

Lemma order_by_Permutation d l : order_by d l ≡ₚ l.
Proof.
  induction l as [|x l IH]; cbn; [done|].
  rewrite insert_sorted_Permutation. by f_equiv.
Qed.

Lemma elem_of_get_orders db sym d limit m :
  m ∈ __get_orders db sym d limit →
  m ∈ orders db ∧ o_symbol_ticker m = sym ∧ o_direction m = d
  ∧ o_status m ∈ ACTIVE_ORDER_STATUSES.
Proof.
  unfold __get_orders, book. intros H%subseteq_take.
  rewrite order_by_Permutation in H.
  apply list_elem_of_In, filter_In in H as [H Hb]. apply list_elem_of_In in H.
  unfold in_book in Hb. apply andb_prop in Hb as [Hb H3].
  apply andb_prop in Hb as [H1 H2].
  apply bool_decide_eq_true_1 in H1, H2, H3. done.
Qed.

(** ** amount + filled along the loop *)

Lemma NoDup_map_eq {A B} (f : A → B) (l : list A) x y :
  NoDup (map f l) → x ∈ l → y ∈ l → f x = f y → x = y.
Proof.
  induction l as [|a l IH]; cbn; [by intros _ ?%elem_of_nil|].
  intros [Hnotin Hnd]%NoDup_cons [->|Hx]%elem_of_cons [->|Hy]%elem_of_cons Hf;
    [done| | |by apply IH].
  - exfalso. apply Hnotin. rewrite Hf. apply list_elem_of_In, in_map.
    by apply list_elem_of_In.
  - exfalso. apply Hnotin. rewrite <- Hf. apply list_elem_of_In, in_map.
    by apply list_elem_of_In.
Qed.

Lemma coherent_of_NoDup rows cands :
  NoDup (map o_id rows) → (∀ m, m ∈ cands → m ∈ rows) → coherent rows cands.
Proof.
  intros Hnd Hsub m r Hm Hr Hid.
  by rewrite (NoDup_map_eq o_id rows r m Hnd Hr (Hsub _ Hm) Hid).
Qed.

Lemma flush_order_keys s m' :
  (∀ r, r ∈ orders s → o_id r = o_id m' → original_amount r = original_amount m') →
  map order_key (orders (flush_order s m')) = map order_key (orders s).
Proof.
  intros H. unfold flush_order. cbn. rewrite map_map.
  apply map_ext_in. intros r Hr%list_elem_of_In.
  case_decide as Hid; [|done]. unfold order_key.
  by rewrite (H r Hr Hid), Hid.
Qed.

Lemma loop_step_keys taker t sym price s n m rest s1 n1 :
  coherent (orders s) (m :: rest) →
  loop_step taker t sym price s n m s1 n1 →
  map order_key (orders s1) = map order_key (orders s)
  ∧ coherent (orders s1) rest.
Proof.
  intros Hco [m1 s0 _ _ Hs Hm _ ->].
  apply settle_orders in Hs.
  apply partially_execute_order_inr in Hm as [_ Hm1].
  assert (original_amount m1 = original_amount m ∧ o_id m1 = o_id m) as [Hom Him].
  { subst m1. unfold original_amount. cbn. split; [lia|done]. }
  split.
  - rewrite <- Hs. apply flush_order_keys. intros r Hr Hid.
    rewrite Hs in Hr. rewrite Hom. apply Hco; [left|done|congruence].
  - intros m2 r' Hm2 Hr' Hid. unfold flush_order in Hr'. cbn in Hr'.
    apply list_elem_of_In, in_map_iff in Hr' as (r&Hr'&Hr).
    apply list_elem_of_In in Hr. rewrite Hs in Hr.
    case_decide as Hd; subst r'.
    + rewrite Hom. transitivity (original_amount r).
      * symmetry. apply Hco; [left|done|congruence].
      * apply Hco; [by right|done|congruence].
    + apply Hco; [by right|done..].
Qed.

Lemma match_orders_keys taker s t sym price n cands s' n' :
  coherent (orders s) cands →
  match_orders taker s t sym price n cands = inr (s', n') →
  map order_key (orders s') = map order_key (orders s).
Proof.
  revert s n. induction cands as [|m rest IH]; intros s n Hco.
  { by intros [= <- <-]. }
  intros H. apply match_orders_cons_inr in H
    as [(_&->&_)|[(_&_&->&_)|(s1&n1&Hstep&Hrest)]]; [done..|].
  destruct (loop_step_keys _ _ _ _ _ _ _ _ _ _ Hco Hstep) as [Hk Hco1].
  rewrite <- Hk. by eapply IH.
Qed.

(** What the ledger helpers have done when they return. *)
Lemma freeze_balance_inr s t sym a s1 :
  freeze_balance s t sym a = inr s1 →
  (sym = BASE_CURRENCY_TICKER
   ∧ ∃ b b', traders s !! t = Some b ∧ lt_int b a = false
       ∧ sub_int b a = inr b'
       ∧ s1 = set_traders s (<[t := b']> (traders s)))
  ∨ (sym ≠ BASE_CURRENCY_TICKER ∧ is_Some (traders s !! t)
     ∧ ∃ q q', positions s !! (t, sym) = Some q ∧ lt_int q a = false
         ∧ sub_int q a = inr q'
         ∧ s1 = set_positions s (<[(t, sym) := q']> (positions s))).
Proof.
  unfold freeze_balance.
  destruct (traders s !! t) as [b|] eqn:Hb; [|done].
  case_bool_decide as Hsym.
  - destruct (lt_int b a) eqn:Hlt; [done|].
    intros (b'&Hb'&[= <-])%bind_inr. left. split; [done|]. by exists b, b'.
  - destruct (positions s !! (t, sym)) as [q|] eqn:Hq; [|done].
    destruct (lt_int q a) eqn:Hlt; [done|].
    intros (q'&Hq'&[= <-])%bind_inr. right. split_and!; [done..|]. by exists q, q'.
Qed.

Lemma unfreeze_balance_inr s t sym a s1 :
  unfreeze_balance s t sym a = inr s1 →
  (sym = BASE_CURRENCY_TICKER
   ∧ ∃ b b', traders s !! t = Some b ∧ add_int b a = inr b'
       ∧ s1 = set_traders s (<[t := b']> (traders s)))
  ∨ (sym ≠ BASE_CURRENCY_TICKER
     ∧ ∃ q q', positions s !! (t, sym) = Some q ∧ add_int q a = inr q'
         ∧ s1 = set_positions s (<[(t, sym) := q']> (positions s))).
Proof.
  unfold unfreeze_balance. case_bool_decide as Hsym.
  - destruct (traders s !! t) as [b|] eqn:Hb; [|done].
    intros (b'&Hb'&[= <-])%bind_inr. left. split; [done|]. by exists b, b'.
  - destruct (positions s !! (t, sym)) as [q|] eqn:Hq; [|done].
    intros (q'&Hq'&[= <-])%bind_inr. right. split; [done|]. by exists q, q'.
Qed.

Lemma change_balance_inr s t sym a s1 :
  __change_balance s t sym a = inr s1 →
  (sym = BASE_CURRENCY_TICKER
   ∧ ∃ b b', traders s !! t = Some b ∧ add_int b a = inr b'
       ∧ lt_int b' 0 = false
       ∧ s1 = set_traders s (<[t := b']> (traders s)))
  ∨ (sym ≠ BASE_CURRENCY_TICKER ∧ is_Some (traders s !! t)
     ∧ ((positions s !! (t, sym) = None ∧ s1 = s)
        ∨ ∃ q q', positions s !! (t, sym) = Some q ∧ add_int q a = inr q'
            ∧ lt_int q' 0 = false
            ∧ s1 = set_positions s (<[(t, sym) := q']> (positions s)))).
Proof.
  unfold __change_balance. case_bool_decide as Hsym.
  - destruct (traders s !! t) as [b|] eqn:Hb; [|done].
    intros (b'&Hb'&H)%bind_inr. destruct (lt_int b' 0) eqn:Hlt; [done|].
    injection H as <-. left. split; [done|]. by exists b, b'.
  - destruct (traders s !! t) as [b|] eqn:Hb; [|done].
    intros H. right. split_and!; [done..|].
    destruct (positions s !! (t, sym)) as [q|] eqn:Hq.
    + apply bind_inr in H as (q'&Hq'&H). destruct (lt_int q' 0) eqn:Hlt; [done|].
      injection H as <-. right. by exists q, q'.
    + injection H as <-. by left.
Qed.

Lemma freeze_balance_orders s t sym a s1 :
  freeze_balance s t sym a = inr s1 → orders s1 = orders s ∧ trades s1 = trades s.
Proof.
  intros [(_&?&?&_&_&_&->)|(_&_&?&?&_&_&_&->)]%freeze_balance_inr; done.
Qed.

Lemma freeze_remainder_orders taker s t sym n s1 :
  freeze_remainder taker s t sym n = inr s1 →
  orders s1 = orders s ∧ trades s1 = trades s.
Proof.
  unfold freeze_remainder. repeat (case_match; try done);
    try (by intros [= <-]); apply freeze_balance_orders.
Qed.

Lemma change_balance_orders s t sym a s1 :
  __change_balance s t sym a = inr s1 → orders s1 = orders s ∧ trades s1 = trades s.
Proof.
  intros [(_&?&?&_&_&_&->)|(_&_&[[_ ->]|(?&?&_&_&_&->)])]%change_balance_inr; done.
Qed.

Lemma create_limit_order_keys taker db new_id now sym q price t :
  NoDup (map o_id (orders db)) →
  let r := create_limit_order taker db new_id now sym q price t in
  (∀ order, r.2 = inr order →
     o_id order = new_id ∧ original_amount order = q
     ∧ map order_key (orders r.1) = map order_key (orders db) ++ [(new_id, q)])
  ∧ (∀ e, r.2 = inl e → r.1 = db)
  ∧ (fits_int32 q price → ∃ order, r.2 = inr order).
Proof.
  intros Hnd r. subst r.
  destruct (create_limit_order_cases taker db new_id now sym q price t)
    as [(e&_&_&->&Hrb)|[(e&_&Hn&->)|(s&n&Hm&s1&Hf&Hi&->)]].
  { split_and!; [|done|eauto]. intros ? [= <-]. cbn.
    rewrite map_app. unfold order_key, original_amount. cbn.
    rewrite Z.add_0_r. done. }
  { split_and!; [done|done|]. by intros ?. }
  cbn [fst snd add_order set_orders orders].
  split_and!; [|done|eauto]. intros ? [= <-].
  pose proof (match_orders_tracks _ _ _ _ _ _ _ _ _ _ (tracks_refl _) Hm) as Htr.
  pose proof (tracks_original _ _ Htr) as Ho.
  pose proof (tracks_id _ _ Htr) as Hid.
  unfold original_amount in Ho at 2. cbn in Ho, Hid. rewrite Z.add_0_r in Ho.
  apply freeze_remainder_orders in Hf as [-> _].
  apply match_orders_keys in Hm.
  - rewrite map_app, Hm. unfold order_key at 2. cbn. by rewrite Ho, Hid.
  - apply coherent_of_NoDup; [done|]. intros m Hin.
    by apply elem_of_get_orders in Hin as [? _].
Qed.

Lemma cancel_order_keys db order_id trader_id db' o :
  NoDup (map o_id (orders db)) →
  cancel_order db order_id trader_id = inr (db', o) →
  map order_key (orders db') = map order_key (orders db).
Proof.
  intros Hnd. unfold cancel_order.
  destruct (List.find _ _) as [order|] eqn:Hfind; [|by intros [= <- _]].
  case_bool_decide; [done|]. destruct (o_price order); [|done].
  set (cb := match o_direction order with ASK => _ | BID => _ end).
  destruct cb as [e|s] eqn:Hcb; cbn [bind]; [done|]. intros [= <- _].
  assert (orders s = orders db) as Hos.
  { subst cb. destruct (o_direction order);
      by apply change_balance_orders in Hcb as [? _]. }
  rewrite <- Hos. apply flush_order_keys. intros r Hr Hid. cbn in Hid.
  apply find_some in Hfind as [Hin _]. apply list_elem_of_In in Hin.
  rewrite Hos in Hr.
  by rewrite (NoDup_map_eq o_id _ r order Hnd Hr Hin Hid).
Qed.

(** C5: for every order in the table, amount + filled equals the quantity
    requested at submission.  Each partial execution step keeps the sum;
    a submission keeps the id and the sum of every order already in the
    table, and the order it returns, committed or recorded as CANCELLED
    after a failure, is the one row it adds, with a sum equal to the
    requested quantity; a submission that raises adds no row (a quantity
    and price within the INTEGER columns never raise); a cancellation
    keeps every sum. *)
Theorem amount_plus_filled_is_original db :
  NoDup (map o_id (orders db)) →
  (∀ order q order', partially_execute_order order q = inr order' →
     original_amount order' = original_amount order)
  ∧ (∀ new_id now symbol_ticker quantity price trader_id,
       0 < quantity →
       let r := create_limit_buy_order db new_id now symbol_ticker quantity price trader_id in
       (∀ order, r.2 = inr order →
          o_id order = new_id ∧ original_amount order = quantity
          ∧ map order_key (orders r.1)
            ≡ₚ map order_key (orders db) ++ [(new_id, quantity)])
       ∧ (∀ e, r.2 = inl e → r.1 = db)
       ∧ (fits_int32 quantity price → ∃ order, r.2 = inr order))
  ∧ (∀ new_id now symbol_ticker quantity price trader_id,
       0 < quantity →
       let r := create_limit_sell_order db new_id now symbol_ticker quantity price trader_id in
       (∀ order, r.2 = inr order →
          o_id order = new_id ∧ original_amount order = quantity
          ∧ map order_key (orders r.1)
            ≡ₚ map order_key (orders db) ++ [(new_id, quantity)])
       ∧ (∀ e, r.2 = inl e → r.1 = db)
       ∧ (fits_int32 quantity price → ∃ order, r.2 = inr order))
  ∧ (∀ order_id trader_id db' o,
       cancel_order db order_id trader_id = inr (db', o) →
       map order_key (orders db') ≡ₚ map order_key (orders db)).
Proof.
  intros Hnd. split_and!.
  - intros order q order' [_ ->]%partially_execute_order_inr.
    unfold original_amount. cbn. lia.
  - intros ?????? _ r. subst r. rewrite create_limit_buy_order_eq.
    destruct (create_limit_order_keys BID db new_id now symbol_ticker quantity
                price trader_id Hnd) as (H1&H2&H3).
    split_and!; [|done..]. intros order Ho.
    destruct (H1 order Ho) as (?&?&->). done.
  - intros ?????? _ r. subst r. rewrite create_limit_sell_order_eq.
    destruct (create_limit_order_keys ASK db new_id now symbol_ticker quantity
                price trader_id Hnd) as (H1&H2&H3).
    split_and!; [|done..]. intros order Ho.
    destruct (H1 order Ho) as (?&?&->). done.
  - intros ???? H. by rewrite (cancel_order_keys _ _ _ _ _ Hnd H).
Qed.

(** ** Cancellation *)

Lemma find_owned_order db order_id trader_id o :
  NoDup (map o_id (orders db)) →
  List.find (λ o, bool_decide (o_id o = order_id)
                  && bool_decide (o_trader_id o = trader_id)) (orders db) = Some o
  ↔ owned_order db order_id trader_id o.
Proof.
  intros Hnd. unfold owned_order. split.
  - intros [Hin Hb]%find_some. apply andb_prop in Hb as [H1 H2].
    apply bool_decide_eq_true_1 in H1, H2. by rewrite <- list_elem_of_In in Hin.
  - intros (Hin&Hid&Htr).
    destruct (List.find _ _) as [o'|] eqn:Hf.
    + apply find_some in Hf as [Hin' Hb]. apply andb_prop in Hb as [H1 _].
      apply bool_decide_eq_true_1 in H1. apply list_elem_of_In in Hin'.
      f_equal. apply (NoDup_map_eq o_id (orders db)); [done..|congruence].
    + apply list_elem_of_In in Hin. eapply find_none in Hf; [|done].
      cbn in Hf. rewrite !bool_decide_eq_true_2 in Hf by done. done.
Qed.

Lemma find_no_owned_order db order_id trader_id :
  (∀ o, ¬ owned_order db order_id trader_id o) →
  List.find (λ o, bool_decide (o_id o = order_id)
                  && bool_decide (o_trader_id o = trader_id)) (orders db) = None.
Proof.
  intros Hno. destruct (List.find _ _) as [o|] eqn:Hf; [|done].
  apply find_some in Hf as [Hin Hb]. apply andb_prop in Hb as [H1 H2].
  apply bool_decide_eq_true_1 in H1, H2. apply list_elem_of_In in Hin.
  by destruct (Hno o).
Qed.

(** The amounts of an order are within the INTEGER columns, so a refund
    is converted without overflow. *)
Lemma change_balance_refund db t sym a :
  wf_db db → is_Some (traders db !! t) → 0 ≤ a ≤ 2 ^ 62 →
  ∃ s, __change_balance db t sym a = inr s.
Proof.
  intros Hwf [b Hb] Ha. unfold __change_balance. rewrite Hb.
  case_bool_decide.
  - destruct (add_int_int64 b a ltac:(lia)) as [v Hv]. rewrite Hv. cbn [bind].
    pose proof (wf_balance _ Hwf _ _ Hb) as Hnn.
    rewrite (not_negative_lt_int v); [eauto|].
    eapply add_int_not_negative; [done| |done]. lia.
  - destruct (positions db !! (t, sym)) as [q|] eqn:Hq; [|eauto].
    destruct (add_int_int64 q a ltac:(lia)) as [v Hv]. rewrite Hv. cbn [bind].
    pose proof (wf_quantity _ Hwf _ _ Hq) as Hnn.
    rewrite (not_negative_lt_int v); [eauto|].
    eapply add_int_not_negative; [done| |done]. lia.
Qed.

(** C7: cancel_order succeeds exactly for an order of that id and owner
    whose status is NEW and whose price is not null.  A status among
    EXECUTED, PARTIALLY_EXECUTED and CANCELLED is rejected with 400
    'Order executed/partially_executed/cancelled', a NEW market order with
    400 'Order is market', and an unknown or foreign id yields no order. *)
Theorem cancel_order_succeeds_iff db order_id trader_id :
  NoDup (map o_id (orders db)) → wf_db db → foreign_keys db →
  ((∃ db' order', cancel_order db order_id trader_id = inr (db', Some order'))
   ↔ ∃ order, owned_order db order_id trader_id order
              ∧ o_status order = NEW ∧ o_price order ≠ None)
  ∧ (∀ order, owned_order db order_id trader_id order →
       (o_status order ∈ [EXECUTED; PARTIALLY_EXECUTED; CANCELLED] →
        cancel_order db order_id trader_id
        = inl (HTTPException 400 "Order executed/partially_executed/cancelled"))
       ∧ (o_status order = NEW → o_price order = None →
          cancel_order db order_id trader_id
          = inl (HTTPException 400 "Order is market")))
  ∧ ((∀ order, ¬ owned_order db order_id trader_id order) →
     cancel_order db order_id trader_id = inr (db, None)).
Proof.
  intros Hnd Hwf Hfk. split_and!.
  - split.
    + intros (db'&order'&Hc). unfold cancel_order in Hc.
      destruct (List.find _ _) as [order|] eqn:Hfind; [|done].
      apply find_owned_order in Hfind; [|done]. exists order.
      case_bool_decide as Hfin; [done|].
      rewrite final_status_iff in Hfin.
      destruct (o_price order) eqn:Hp; [|done].
      split_and!; [done| |done].
      destruct (decide (o_status order = NEW)); [done|by destruct Hfin].
    + intros (order&Hown&Hst&Hp). unfold cancel_order.
      pose proof Hown as (Hin&_&_).
      apply find_owned_order in Hown; [|done]. rewrite Hown.
      rewrite bool_decide_eq_false_2 by (rewrite final_status_iff; congruence).
      destruct (o_price order) as [p|] eqn:Hpr; [|done].
      destruct (wf_active _ Hwf order Hin) as (Ha&p'&Hp'&Hpos).
      { rewrite active_status_iff. by left. }
      assert (p' = p) as -> by congruence.
      destruct (wf_columns _ Hwf order Hin) as [Hca Hcp]. rewrite Hpr in Hcp.
      set (cb := match o_direction order with ASK => _ | BID => _ end).
      assert (∃ s, cb = inr s) as [s ->].
      { subst cb. destruct (o_direction order);
          apply change_balance_refund; auto; [lia|nia]. }
      cbn [bind]. eauto.
  - intros order Hown. pose proof Hown as (Hin&_&_).
    apply find_owned_order in Hown; [|done]. unfold cancel_order. rewrite Hown.
    split.
    + intros Hst. rewrite bool_decide_eq_true_2; [done|].
      rewrite final_status_iff. intros Hnew. rewrite Hnew in Hst.
      by repeat (apply elem_of_cons in Hst as [|Hst]; [done|]);
        apply elem_of_nil in Hst.
    + intros Hst ->. rewrite bool_decide_eq_false_2; [done|].
      rewrite final_status_iff. congruence.
  - intros Hno. unfold cancel_order. by rewrite find_no_owned_order.
Qed.

(** ** Submit, then cancel *)


Lemma find_fresh_app {A} (f : A → bool) (l : list A) (x : A) :
  (∀ y, y ∈ l → f y = false) → f x = true → List.find f (l ++ [x]) = Some x.
Proof.
  induction l as [|a l IH]; cbn; intros Hl Hx; [by rewrite Hx|].
  rewrite (Hl a) by left. apply IH; [|done]. intros y Hy. apply Hl. by right.
Qed.




(** ** Price-time priority of the fetched candidates *)

(** Arithmetic on keys: disequalities of [Some] prices are turned into
    disequalities of the prices before [lia] runs. *)
Ltac key_lia :=
  repeat match goal with
         | H : Some ?x ≠ Some ?y |- _ =>
           assert (x ≠ y) by (intros ->; by apply H); clear H
         end;
  first [done | lia].

Lemma sorts_before_total d a b :
  sorts_before d a b = false → sorts_before d b a = true.
Proof.
  unfold sorts_before, price_lt.
  destruct d, (o_price a) as [pa|], (o_price b) as [pb|]; cbn;
    repeat case_bool_decide; simplify_eq; cbn; key_lia.
Qed.

Lemma sorts_before_trans d a b c :
  sorts_before d a b = true → sorts_before d b c = true →
  sorts_before d a c = true.
Proof.
  unfold sorts_before, price_lt.
  destruct d, (o_price a) as [pa|], (o_price b) as [pb|], (o_price c) as [pc|];
    cbn; repeat case_bool_decide; simplify_eq; cbn; key_lia.
Qed.

Lemma sorts_before_priority d a b :
  sorts_before d a b = true → price_time_priority d a b.
Proof.
  unfold sorts_before, price_lt, price_time_priority.
  destruct d, (o_price a) as [pa|], (o_price b) as [pb|]; cbn;
    repeat case_bool_decide; simplify_eq; cbn; try done; intros _;
    first [left; lia | right; split; [done|lia]].
Qed.

Lemma insert_sorted_StronglySorted d x l :
  StronglySorted (λ a b, sorts_before d a b = true) l →
  StronglySorted (λ a b, sorts_before d a b = true) (insert_sorted d x l).
Proof.
  induction 1 as [|y l Hl IH Hy]; cbn; [repeat constructor|].
  destruct (sorts_before d x y) eqn:Hxy.
  - constructor; [by constructor|]. constructor; [done|].
    eapply Forall_impl; [exact Hy|]. intros z Hz. by eapply sorts_before_trans.
  - constructor; [done|].
    rewrite insert_sorted_Permutation. constructor; [|done].
    by apply sorts_before_total.
Qed.

Lemma order_by_StronglySorted d l :
  StronglySorted (λ a b, sorts_before d a b = true) (order_by d l).
Proof.
  induction l as [|x l IH]; cbn; [constructor|].
  by apply insert_sorted_StronglySorted.
Qed.

Lemma StronglySorted_impl {A} (R1 R2 : A → A → Prop) l :
  (∀ a b, R1 a b → R2 a b) → StronglySorted R1 l → StronglySorted R2 l.
Proof.
  intros HR. induction 1 as [|x l Hl IH Hx]; constructor; [done|].
  eapply Forall_impl; [exact Hx|]. auto.
Qed.

Lemma book_priority db sym d :
  StronglySorted (price_time_priority d) (book db sym d)
  ∧ book db sym d ≡ₚ List.filter (in_book sym d) (orders db).
Proof.
  split; [|apply order_by_Permutation].
  eapply StronglySorted_impl; [apply sorts_before_priority|].
  apply order_by_StronglySorted.
Qed.

Lemma get_orders_prefix db sym d limit :
  __get_orders db sym d limit ++ drop (Z.to_nat limit) (book db sym d)
  = book db sym d.
Proof. apply take_drop. Qed.

(** ** The trades of the loop *)

Lemma gate_inr_true taker price m :
  gate taker price m = inr true →
  ∃ p mp, price = Some p ∧ o_price m = Some mp ∧ beyond_limit taker p mp.
Proof.
  unfold gate. destruct price as [p|]; [|done].
  destruct (o_price m) as [mp|]; [|done]. intros [= H]. exists p, mp.
  split_and!; try done. unfold crosses in H. unfold beyond_limit.
  destruct taker; by apply bool_decide_eq_true_1 in H.
Qed.

Lemma gate_inr_false taker price m mp :
  gate taker price m = inr false → o_price m = Some mp →
  ∀ p, price = Some p → ¬ beyond_limit taker p mp.
Proof.
  unfold gate. intros H Hmp p ->. rewrite Hmp in H. injection H as H.
  unfold crosses in H. unfold beyond_limit.
  destruct taker; by apply bool_decide_eq_false_1 in H.
Qed.

Lemma flush_order_trades s m : trades (flush_order s m) = trades s.
Proof. done. Qed.

Lemma match_orders_fills taker s t sym price n cands s' n' :
  match_orders taker s t sym price n cands = inr (s', n') →
  ∃ ts, trades s' = trades s ++ ts
        ∧ fills taker t sym price (o_amount n) cands ts (o_amount n').
Proof.
  revert s n. induction cands as [|m rest IH]; intros s n.
  { intros [= <- <-]. exists []. rewrite app_nil_r. split; [done|constructor]. }
  intros H. apply match_orders_cons_inr in H
    as [(Hz&->&->)|[(Hnz&Hg&->&->)|(s1&n1&Hstep&Hrest)]].
  - exists []. rewrite app_nil_r, Hz. split; [done|constructor].
  - exists []. rewrite app_nil_r. split; [done|].
    apply gate_inr_true in Hg as (p&mp&->&Hmp&Hb). by econstructor.
  - destruct Hstep as [m1 s0 Hnz Hg Hs Hm Hn ->].
    apply settle_trades in Hs as (mp&Hmp&Hts).
    apply partially_execute_order_inr in Hn as [_ Hn1].
    apply IH in Hrest as (ts&Hts'&Hf).
    rewrite flush_order_trades, Hts, <- app_assoc in Hts'. cbn in Hts'.
    eexists. split; [exact Hts'|].
    replace (o_amount n1) with (o_amount n - Z.min (o_amount m) (o_amount n)) in Hf
      by by subst n1.
    apply fills_trade; [done|done| |done]. by apply (gate_inr_false _ _ m).
Qed.

(** The walk is a function of the remainder, the limit and the candidates. *)
Lemma fills_deterministic taker t sym limit_price r cands ts1 r1 ts2 r2 :
  fills taker t sym limit_price r cands ts1 r1 →
  fills taker t sym limit_price r cands ts2 r2 →
  ts1 = ts2 ∧ r1 = r2.
Proof.
  intros H1. revert ts2 r2.
  induction H1 as [cands|r|r m rest p mp Hr Hl Hm Hb|r m rest mp ts r' Hr Hm Hnb _ IH];
    intros ts2 r2 H2; inversion H2 as [|
      |? ? ? p2 mp2 ? Hl2 Hm2 Hb2
      |? ? ? mp2 ts' ? ? Hm2 Hnb2 Hrest]; simplify_eq; try done.
  - exfalso. by eapply Hnb2.
  - exfalso. by eapply Hnb.
  - destruct (IH _ _ Hrest) as [-> ->]. done.
Qed.

(** The candidates are the first [limit] rows of the side in priority
    order: a prefix of that length of an arrangement of all active rows of
    the side that is sorted by price-time priority. *)
Lemma get_orders_first db sym d limit :
  let fetched := __get_orders db sym d limit in
  ∃ rest,
    StronglySorted (price_time_priority d) (fetched ++ rest)
    ∧ fetched ++ rest ≡ₚ List.filter (in_book sym d) (orders db)
    ∧ length fetched = Nat.min (Z.to_nat limit) (length (fetched ++ rest)).
Proof.
  intros fetched. subst fetched.
  exists (drop (Z.to_nat limit) (book db sym d)).
  rewrite get_orders_prefix. split_and!; [apply book_priority..|].
  unfold __get_orders. apply length_take.
Qed.

(** What a submission leaves in the trade journal. *)
Lemma create_limit_order_fills taker db new_id now sym q price t :
  let r := create_limit_order taker db new_id now sym q price t in
  let cands := __get_orders db sym (opposite taker) q in
  (∀ order, r.2 = inr order → o_status order ≠ CANCELLED →
     ∃ ts, trades r.1 = trades db ++ ts
       ∧ fills taker t sym price q cands ts (o_amount order))
  ∧ (∀ order, r.2 = inr order → o_status order = CANCELLED → trades r.1 = trades db)
  ∧ (∀ e, r.2 = inl e → r.1 = db).
Proof.
  intros r cands. subst r.
  destruct (create_limit_order_cases taker db new_id now sym q price t)
    as [(e&_&_&->&_)|[(e&_&_&->)|(s&n&Hm&s1&Hf&Hi&->)]];
    cbn [fst snd add_order set_orders trades].
  - split_and!; [|done..]. by intros ? [= <-].
  - by split_and!.
  - apply freeze_remainder_orders in Hf as [_ ->].
    pose proof (committed_not_cancelled _ _ _ _ _ _ _ _ _ _ Hm).
    split_and!; [|by intros ? [= <-]|done].
    intros ? [= <-] _. by apply match_orders_fills in Hm.
Qed.

(** C1: for a limit order (price p, quantity q) the candidates fetched by
    the matcher are the first q rows of the active opposite side of the
    book in price-time priority (ASK rows by ascending price then
    created_at for a BID taker, BID rows by descending price then
    created_at for an ASK taker): all of that side when it has at most q
    rows.  The loop walks them in that order: it stops at the first
    candidate priced beyond the limit or when the remainder is zero, and
    each trade is for min(candidate.amount, remainder) units at the
    candidate's price.  The trades of that walk are what a submission
    appends to the journal when it commits; one that is rolled back (the
    order is returned CANCELLED, or the exception leaves the function)
    appends none. *)
Theorem limit_order_matches_in_price_time_priority
    db new_id now symbol_ticker quantity price trader_id :
  0 < quantity → 0 < price →
  let asks := __get_orders db symbol_ticker ASK quantity in
  let bids := __get_orders db symbol_ticker BID quantity in
  let bid := mkOrder new_id trader_id symbol_ticker quantity 0 (Some price) BID NEW now in
  let ask := mkOrder new_id trader_id symbol_ticker quantity 0 (Some price) ASK NEW now in
  let b := create_limit_buy_order db new_id now symbol_ticker quantity (Some price) trader_id in
  let s := create_limit_sell_order db new_id now symbol_ticker quantity (Some price) trader_id in
  (∃ rest,
     StronglySorted (price_time_priority ASK) (asks ++ rest)
     ∧ asks ++ rest ≡ₚ List.filter (in_book symbol_ticker ASK) (orders db)
     ∧ length asks = Nat.min (Z.to_nat quantity) (length (asks ++ rest)))
  ∧ (∃ rest,
     StronglySorted (price_time_priority BID) (bids ++ rest)
     ∧ bids ++ rest ≡ₚ List.filter (in_book symbol_ticker BID) (orders db)
     ∧ length bids = Nat.min (Z.to_nat quantity) (length (bids ++ rest)))
  ∧ (∀ session new_order,
       match_asks db trader_id symbol_ticker (Some price) bid asks
       = inr (session, new_order) →
       ∃ ts, trades session = trades db ++ ts
         ∧ fills BID trader_id symbol_ticker (Some price) quantity asks ts
             (o_amount new_order))
  ∧ (∀ session new_order,
       match_bids db trader_id symbol_ticker (Some price) ask bids
       = inr (session, new_order) →
       ∃ ts, trades session = trades db ++ ts
         ∧ fills ASK trader_id symbol_ticker (Some price) quantity bids ts
             (o_amount new_order))
  ∧ ((∀ order, b.2 = inr order → o_status order ≠ CANCELLED →
        ∃ ts, trades b.1 = trades db ++ ts
          ∧ fills BID trader_id symbol_ticker (Some price) quantity asks ts
              (o_amount order))
     ∧ (∀ order, b.2 = inr order → o_status order = CANCELLED →
          trades b.1 = trades db)
     ∧ (∀ e, b.2 = inl e → b.1 = db))
  ∧ ((∀ order, s.2 = inr order → o_status order ≠ CANCELLED →
        ∃ ts, trades s.1 = trades db ++ ts
          ∧ fills ASK trader_id symbol_ticker (Some price) quantity bids ts
              (o_amount order))
     ∧ (∀ order, s.2 = inr order → o_status order = CANCELLED →
          trades s.1 = trades db)
     ∧ (∀ e, s.2 = inl e → s.1 = db)).
Proof.
  intros Hq Hp asks bids bid ask b s. subst asks bids bid ask b s.
  rewrite create_limit_buy_order_eq, create_limit_sell_order_eq.
  rewrite match_asks_eq, match_bids_eq.
  split; [|split; [|split; [|split; [|split]]]].
  - apply get_orders_first.
  - apply get_orders_first.
  - intros session new_order Hm. by apply match_orders_fills in Hm.
  - intros session new_order Hm. by apply match_orders_fills in Hm.
  - apply (create_limit_order_fills BID).
  - apply (create_limit_order_fills ASK).
Qed.

(** ** The fetch limit *)

Lemma loop_step_amount taker t sym price s n m s1 n1 :
  loop_step taker t sym price s n m s1 n1 →
  o_amount n1 = o_amount n - Z.min (o_amount m) (o_amount n)
  ∧ length (trades s1) = S (length (trades s)).
Proof.
  intros [m1 s0 _ _ Hs _ Hn ->].
  apply partially_execute_order_inr in Hn as [_ ->].
  apply settle_trades in Hs as (mp&_&Hts).
  rewrite flush_order_trades, Hts, length_app. cbn. split; [done|lia].
Qed.

Lemma match_orders_take taker s t sym price n cands k :
  (∀ m, m ∈ cands → 1 ≤ o_amount m) →
  0 ≤ o_amount n ≤ Z.of_nat k →
  match_orders taker s t sym price n (take k cands)
  = match_orders taker s t sym price n cands.
Proof.
  revert s n k. induction cands as [|m rest IH]; intros s n k Hc Hn.
  { by rewrite take_nil. }
  destruct k as [|k].
  { cbn. rewrite bool_decide_eq_true_2 by lia. done. }
  cbn [take match_orders]. case_bool_decide as Hz; [done|].
  destruct (gate taker price m) as [e|[|]]; cbn [bind]; [done..|].
  destruct (settle _ _ _ _ _ _) as [e|s0]; cbn [bind]; [done|].
  destruct (partially_execute_order m _) as [e|m1]; cbn [bind]; [done|].
  destruct (partially_execute_order n _) as [e|n1] eqn:Hn1; cbn [bind]; [done|].
  apply partially_execute_order_inr in Hn1 as [_ ->].
  apply IH.
  - intros m' Hm'. apply Hc. by right.
  - cbn. pose proof (Hc m ltac:(left)). lia.
Qed.

Lemma match_orders_exhausts taker s t sym price n cands s' n' :
  (∀ m, m ∈ cands → 1 ≤ o_amount m) →
  0 ≤ o_amount n →
  match_orders taker s t sym price n cands = inr (s', n') →
  ∃ k : nat, length (trades s') = (length (trades s) + k)%nat
             ∧ (k ≤ length cands)%nat
             ∧ 0 ≤ o_amount n' ∧ (o_amount n' = 0 ∨ o_amount n' ≤ o_amount n - Z.of_nat k).
Proof.
  revert s n. induction cands as [|m rest IH]; intros s n Hc Hn.
  { intros [= <- <-]. exists 0%nat. cbn. split_and!; [lia..|right; lia]. }
  intros H. apply match_orders_cons_inr in H
    as [(Hz&->&->)|[(Hnz&Hg&->&->)|(s1&n1&Hstep&Hrest)]].
  - exists 0%nat. cbn. split_and!; [lia..|right; lia].
  - exists 0%nat. cbn. split_and!; [lia..|right; lia].
  - pose proof (loop_step_amount _ _ _ _ _ _ _ _ _ Hstep) as [Ha Hl].
    destruct Hstep as [m1 s0 Hnz _ _ _ _ _].
    pose proof (Hc m ltac:(left)) as Hm.
    apply IH in Hrest as (k&Hk&Hle&Hn'&Hor); [| |lia].
    + exists (S k). cbn. split_and!; [lia..|].
      destruct Hor; [by left|right; lia].
    + intros m' Hm'. apply Hc. by right.
Qed.

Lemma book_active_amounts db sym d :
  (∀ o, o ∈ orders db → o_status o ∈ ACTIVE_ORDER_STATUSES → 1 ≤ o_amount o) →
  ∀ m, m ∈ book db sym d → 1 ≤ o_amount m.
Proof.
  intros Hact m Hm. unfold book in Hm. rewrite order_by_Permutation in Hm.
  apply list_elem_of_In, filter_In in Hm as [Hin Hb]. apply list_elem_of_In in Hin.
  unfold in_book in Hb. apply andb_prop in Hb as [_ Hst].
  apply bool_decide_eq_true_1 in Hst. by apply Hact.
Qed.

(** C10: fetching only the first q candidates never causes an under-fill.
    With every active order holding amount >= 1, the loop run on the q
    fetched candidates gives the same result as the loop run on the whole
    side of the book; and when the limit is reached (q candidates fetched)
    and a trade was made against every one of them, the incoming order is
    filled in full (amount 0). *)
Theorem fetch_limit_never_underfills db new_id now symbol_ticker quantity price trader_id :
  0 < quantity →
  (∀ o, o ∈ orders db → o_status o ∈ ACTIVE_ORDER_STATUSES → 1 ≤ o_amount o) →
  let bid := mkOrder new_id trader_id symbol_ticker quantity 0 price BID NEW now in
  let ask := mkOrder new_id trader_id symbol_ticker quantity 0 price ASK NEW now in
  match_asks db trader_id symbol_ticker price bid (__get_orders db symbol_ticker ASK quantity)
  = match_asks db trader_id symbol_ticker price bid (book db symbol_ticker ASK)
  ∧ match_bids db trader_id symbol_ticker price ask (__get_orders db symbol_ticker BID quantity)
    = match_bids db trader_id symbol_ticker price ask (book db symbol_ticker BID)
  ∧ (∀ s' n',
       match_asks db trader_id symbol_ticker price bid
         (__get_orders db symbol_ticker ASK quantity) = inr (s', n') →
       length (trades s') = (length (trades db) + Z.to_nat quantity)%nat →
       o_amount n' = 0)
  ∧ (∀ s' n',
       match_bids db trader_id symbol_ticker price ask
         (__get_orders db symbol_ticker BID quantity) = inr (s', n') →
       length (trades s') = (length (trades db) + Z.to_nat quantity)%nat →
       o_amount n' = 0).
Proof.
  intros Hq Hact bid ask.
  assert (∀ taker n, o_amount n = quantity →
    match_orders taker db trader_id symbol_ticker price n
      (__get_orders db symbol_ticker (opposite taker) quantity)
    = match_orders taker db trader_id symbol_ticker price n
        (book db symbol_ticker (opposite taker))) as Htake.
  { intros taker n Hn. unfold __get_orders. apply match_orders_take.
    - by apply book_active_amounts.
    - lia. }
  assert (∀ taker n s' n', o_amount n = quantity →
    match_orders taker db trader_id symbol_ticker price n
      (__get_orders db symbol_ticker (opposite taker) quantity) = inr (s', n') →
    length (trades s') = (length (trades db) + Z.to_nat quantity)%nat →
    o_amount n' = 0) as Hfull.
  { intros taker n s' n' Hn Hm Hlen.
    apply match_orders_exhausts in Hm as (k&Hk&_&Hn'&Hor); [| |lia].
    - destruct Hor; [done|]. lia.
    - intros m Hm'%subseteq_take. by eapply book_active_amounts. }
  rewrite !match_asks_eq, !match_bids_eq. split_and!.
  - by apply (Htake BID).
  - by apply (Htake ASK).
  - intros s' n'. by apply (Hfull BID).
  - intros s' n'. by apply (Hfull ASK).
Qed.

(** ** Balances and quantities never go negative *)

Lemma insert_all `{Countable K} {A} (P : A → Prop) (m : gmap K A) k x :
  (∀ k' v, m !! k' = Some v → P v) → P x →
  ∀ k' v, <[k := x]> m !! k' = Some v → P v.
Proof.
  intros Hm Hx k' v. destruct (decide (k = k')) as [->|Hne].
  - rewrite lookup_insert_eq. by intros [= <-].
  - rewrite lookup_insert_ne by done. apply Hm.
Qed.

Lemma wf_insert_trader s t b :
  wf_db s → not_negative b → wf_db (set_traders s (<[t := b]> (traders s))).
Proof.
  intros [Hb Hq Ha Hc] Hnn. split; cbn [traders positions orders set_traders];
    [|done..].
  by apply insert_all.
Qed.

Lemma wf_insert_position s k q :
  wf_db s → not_negative q → wf_db (set_positions s (<[k := q]> (positions s))).
Proof.
  intros [Hb Hq Ha Hc] Hnn. split; cbn [traders positions orders set_positions];
    [done| |done..].
  by apply insert_all.
Qed.

Lemma wf_same_orders s s' :
  wf_db s → orders s' = orders s →
  (∀ t b, traders s' !! t = Some b → not_negative b) →
  (∀ k q, positions s' !! k = Some q → not_negative q) →
  wf_db s'.
Proof.
  intros [Hb Hq Ha Hc] Hos Hb' Hq'. split; [done..| |]; rewrite Hos; done.
Qed.

Lemma settle_wf taker s t sym m q s0 :
  wf_db s → cand_ok m → 0 ≤ q →
  settle taker s t sym m q = inr s0 → wf_db s0.
Proof.
  intros Hwf (_&mp&Hmp&Hpos) Hq0. pose proof Hwf as [Hb Hq _ _].
  destruct taker; unfold settle.
  - (* sell *)
    intros (p&sq&sb&bq&sb'&sq'&bq'&Hp&Hsq&Hsb&Hbq&Hlt&Hsb'&Hsq'&Hbq'&->)%sell_inr.
    assert (p = mp) as -> by congruence.
    assert (not_negative sb').
    { eapply add_int_not_negative; [by eapply Hb| |done]. nia. }
    assert (not_negative sq').
    { eapply sub_int_at_least; [|done]. apply lt_int_at_least; [by eapply Hq|done]. }
    assert (not_negative bq').
    { eapply add_int_not_negative; [|done|done].
      case_decide; [done|by eapply Hq]. }
    apply (wf_same_orders s); [done|done|..]; cbn [traders positions].
    + by apply insert_all.
    + apply insert_all; [|done]. by apply insert_all.
  - (* buy *)
    intros (p&bb&sb&pq&sb'&bb'&pq'&Hp&Hbb&Hsb&Hpq&Hlt&Hsb'&Hbb'&Hpq'&->)%buy_inr.
    assert (p = mp) as -> by congruence.
    assert (not_negative sb').
    { eapply add_int_not_negative; [by eapply Hb| |done]. nia. }
    assert (not_negative bb').
    { eapply sub_int_at_least; [|done]. case_decide.
      - eapply add_int_at_least; [|done]. by eapply Hb.
      - apply lt_int_at_least; [by eapply Hb|done]. }
    assert (not_negative pq').
    { eapply add_int_not_negative; [by eapply Hq|done|done]. }
    apply (wf_same_orders s); [done|done|..]; cbn [traders positions].
    + apply insert_all; [|done]. by apply insert_all.
    + by apply insert_all.
Qed.

Lemma flush_order_wf s m1 :
  wf_db s → (o_status m1 ∈ ACTIVE_ORDER_STATUSES → cand_ok m1) →
  fits_int32 (o_amount m1) (o_price m1) →
  wf_db (flush_order s m1).
Proof.
  intros [Hb Hq Ha Hc] Hm1 Hfit. split; [done..| |].
  - intros o Ho Hact. unfold flush_order in Ho. cbn in Ho.
    apply list_elem_of_In, in_map_iff in Ho as (r&<-&Hr).
    apply list_elem_of_In in Hr. case_decide; [by apply Hm1|by apply Ha].
  - intros o Ho. unfold flush_order in Ho. cbn in Ho.
    apply list_elem_of_In, in_map_iff in Ho as (r&<-&Hr).
    apply list_elem_of_In in Hr. case_decide; [done|by apply Hc].
Qed.

Lemma add_order_wf s o :
  wf_db s → (o_status o ∈ ACTIVE_ORDER_STATUSES → cand_ok o) →
  fits_int32 (o_amount o) (o_price o) →
  wf_db (add_order s o).
Proof.
  intros [Hb Hq Ha Hc] Ho Hfit. split; [done..| |].
  - intros o' [Hin|Hin%list_elem_of_singleton]%elem_of_app Hact;
      [by apply Ha|subst; by apply Ho].
  - intros o' [Hin|Hin%list_elem_of_singleton]%elem_of_app;
      [by apply Hc|by subst].
Qed.

Lemma partially_executed_cand_ok m q m1 :
  cand_ok m → 0 ≤ q →
  partially_execute_order m q = inr m1 →
  o_status m1 ∈ ACTIVE_ORDER_STATUSES → cand_ok m1.
Proof.
  intros (Ham&p&Hp&Hpos) Hq [Hle ->]%partially_execute_order_inr.
  cbn. rewrite active_status_iff. case_bool_decide; [by intros [|]|].
  intros _. split; [cbn; lia|]. by exists p.
Qed.

Lemma partially_executed_fits m q m1 :
  fits_int32 (o_amount m) (o_price m) → 0 ≤ q → 0 ≤ o_amount m →
  partially_execute_order m q = inr m1 →
  fits_int32 (o_amount m1) (o_price m1).
Proof.
  intros [Ha Hp] Hq Ham [Hle ->]%partially_execute_order_inr. cbn.
  split; [lia|done].
Qed.

Lemma loop_step_wf taker t sym price s n m s1 n1 :
  wf_db s → cand_ok m → fits_int32 (o_amount m) (o_price m) →
  0 ≤ o_amount n →
  loop_step taker t sym price s n m s1 n1 →
  wf_db s1 ∧ 0 ≤ o_amount n1.
Proof.
  intros Hwf Hm Hfit Hn [m1 s0 Hnz _ Hs Hm1 Hn1 ->].
  pose proof Hm as (Ham&_).
  split.
  - apply flush_order_wf.
    + eapply settle_wf; [done..| |done]. lia.
    + eapply partially_executed_cand_ok; [done| |done]. lia.
    + eapply partially_executed_fits; [done| | |done]; lia.
  - apply partially_execute_order_inr in Hn1 as [_ ->]. cbn. lia.
Qed.

Lemma match_orders_wf taker s t sym price n cands s' n' :
  wf_db s →
  (∀ m, m ∈ cands → cand_ok m ∧ fits_int32 (o_amount m) (o_price m)) →
  0 ≤ o_amount n →
  match_orders taker s t sym price n cands = inr (s', n') →
  wf_db s' ∧ 0 ≤ o_amount n'.
Proof.
  revert s n. induction cands as [|m rest IH]; intros s n Hwf Hc Hn.
  { by intros [= <- <-]. }
  intros H. apply match_orders_cons_inr in H
    as [(_&->&->)|[(_&_&->&->)|(s1&n1&Hstep&Hrest)]]; [done..|].
  destruct (Hc m ltac:(left)) as [Hm Hfit].
  eapply loop_step_wf in Hstep as [Hwf1 Hn1]; [|done..].
  eapply IH; [done| |done..]. intros m' Hm'. apply Hc. by right.
Qed.

(** The candidates of a well-formed store. *)
Lemma get_orders_wf db sym d limit m :
  wf_db db → m ∈ __get_orders db sym d limit →
  cand_ok m ∧ fits_int32 (o_amount m) (o_price m).
Proof.
  intros Hwf (Hin&_&_&Hact)%elem_of_get_orders. split.
  - by apply (wf_active _ Hwf).
  - by apply (wf_columns _ Hwf).
Qed.

Lemma freeze_balance_wf s t sym a s1 :
  wf_db s → freeze_balance s t sym a = inr s1 → wf_db s1.
Proof.
  intros Hwf. pose proof Hwf as [Hb Hq _ _].
  intros [(_&b&b'&Hbt&Hlt&Hsub&->)|(_&_&q&q'&Hqt&Hlt&Hsub&->)]%freeze_balance_inr.
  - apply wf_insert_trader; [done|]. eapply sub_int_at_least; [|done].
    apply lt_int_at_least; [by eapply Hb|done].
  - apply wf_insert_position; [done|]. eapply sub_int_at_least; [|done].
    apply lt_int_at_least; [by eapply Hq|done].
Qed.

Lemma change_balance_wf s t sym a s1 :
  wf_db s → __change_balance s t sym a = inr s1 → wf_db s1.
Proof.
  intros Hwf. pose proof Hwf as [Hb Hq _ _].
  intros [(_&b&b'&Hbt&Hadd&Hlt&->)
         |(_&_&[[_ ->]|(q&q'&Hqt&Hadd&Hlt&->)])]%change_balance_inr; [|done|].
  - apply wf_insert_trader; [done|].
    eapply adjusted_not_negative; [by eapply Hb|done..].
  - apply wf_insert_position; [done|].
    eapply adjusted_not_negative; [by eapply Hq|done..].
Qed.

Lemma create_limit_order_wf taker db new_id now sym q price t :
  wf_db db → 0 < q → match price with Some p => 0 < p | None => True end →
  wf_db (create_limit_order taker db new_id now sym q price t).1.
Proof.
  intros Hwf Hq Hp.
  destruct (create_limit_order_cases taker db new_id now sym q price t)
    as [(e&_&Hfit&->&_)|[(e&_&_&->)|(s&n&Hm&s1&Hf&Hi&->)]]; cbn [fst].
  { apply add_order_wf; [done| |done].
    cbn. rewrite active_status_iff. by intros [|]. }
  { done. }
  pose proof (match_orders_tracks _ _ _ _ _ _ _ _ _ _ (tracks_refl _) Hm) as Htr.
  apply match_orders_wf in Hm as [Hwf' Hn]; [|done| |cbn; lia].
  2:{ intros m Hin. by eapply get_orders_wf. }
  apply add_order_wf.
  - unfold freeze_remainder in Hf. case_bool_decide; [|by injection Hf as <-].
    destruct (o_price n); [|done].
    destruct taker; by eapply freeze_balance_wf.
  - intros Hact. unfold freeze_remainder in Hf.
    rewrite bool_decide_eq_true_2 in Hf.
    2:{ intros Hex. rewrite Hex, active_status_iff in Hact. by destruct Hact. }
    pose proof (tracks_price _ _ Htr) as Hpr. cbn in Hpr.
    destruct (o_price n) as [p|] eqn:Hpn; [|done]. subst price.
    split; [|exists p; split; [done|lia]].
    destruct (tracks_status _ _ Htr) as [->|[[Hex _]|[_ Hnz]]]; [cbn; lia| |lia].
    rewrite Hex, active_status_iff in Hact. by destruct Hact.
  - by apply insertable_fits.
Qed.

Lemma create_order_eq db new_id now direction ticker qty price t :
  create_order db new_id now direction ticker qty price t
  = create_limit_order (side_of direction) db new_id now ticker qty
      (price_column price) t.
Proof.
  unfold create_order, create_market_buy_order, create_market_sell_order,
    price_column.
  rewrite !create_limit_buy_order_eq, !create_limit_sell_order_eq.
  destruct direction, price as [p|]; cbn [side_of]; try case_bool_decide; done.
Qed.

Lemma price_column_valid price :
  match price with Some p => 0 < p | None => True end →
  match price_column price with Some p => 0 < p | None => True end.
Proof. unfold price_column. destruct price; [|done]. by case_bool_decide. Qed.

Lemma create_order_wf db new_id now direction ticker qty price t :
  wf_db db → 0 < qty → match price with Some p => 0 < p | None => True end →
  wf_db (create_order db new_id now direction ticker qty price t).1.
Proof.
  intros Hwf Hq Hp. rewrite create_order_eq.
  apply create_limit_order_wf; [done..|]. by apply price_column_valid.
Qed.

Lemma cancel_order_wf db order_id trader_id db' o :
  wf_db db → cancel_order db order_id trader_id = inr (db', o) → wf_db db'.
Proof.
  intros Hwf. unfold cancel_order.
  destruct (List.find _ _) as [order|] eqn:Hfind; [|by intros [= <- _]].
  case_bool_decide; [done|]. destruct (o_price order); [|done].
  set (cb := match o_direction order with ASK => _ | BID => _ end).
  destruct cb as [e|s] eqn:Hcb; cbn [bind]; [done|]. intros [= <- _].
  apply find_some in Hfind as [Hin _]. apply list_elem_of_In in Hin.
  apply flush_order_wf.
  - subst cb. destruct (o_direction order); by eapply change_balance_wf.
  - cbn. rewrite active_status_iff. by intros [|].
  - cbn. by apply (wf_columns _ Hwf).
Qed.

Lemma commit_wf db op : wf_db db → valid_operation op → wf_db (commit db op).
Proof.
  intros Hwf Hv. destruct op; cbn [commit valid_operation] in *.
  - destruct Hv. by apply create_order_wf.
  - destruct (cancel_order _ _ _) as [e|[db' o]] eqn:Hc; [done|].
    by eapply cancel_order_wf.
  - unfold change_trader_balance.
    destruct (__change_balance _ _ _ _) eqn:Hc; [done|]. by eapply change_balance_wf.
  - unfold change_trader_balance.
    destruct (__change_balance _ _ _ _) eqn:Hc; [done|]. by eapply change_balance_wf.
Qed.

Lemma commits_wf ops db :
  wf_db db → Forall valid_operation ops → wf_db (foldl commit db ops).
Proof.
  revert db. induction ops as [|op ops IH]; intros db Hwf Hv; [done|].
  apply Forall_cons in Hv as [Hop Hops]. cbn. apply IH; [|done].
  by apply commit_wf.
Qed.

(** A withdrawal whose result would be negative. *)
Lemma change_balance_overdraft db t sym x amount :
  (if bool_decide (sym = BASE_CURRENCY_TICKER)
   then traders db !! t = Some (Num x)
   else is_Some (traders db !! t) ∧ positions db !! (t, sym) = Some (Num x)) →
  0 < amount ≤ 2 ^ 1023 → x < rne amount →
  __change_balance db t sym (- amount)
  = inl (HTTPException 400 "Balance must be >= 0").
Proof.
  intros Hrow Ha Hlt. unfold __change_balance, add_int.
  rewrite float_of_int_finite by lia. rewrite rne_opp. cbn [bind ret fadd].
  case_bool_decide.
  - rewrite Hrow. cbn [bind fadd]. rewrite lt_int_binary64.
    by rewrite bool_decide_eq_true_2 by lia.
  - destruct Hrow as [[b ->] ->]. cbn [bind fadd]. rewrite lt_int_binary64.
    by rewrite bool_decide_eq_true_2 by lia.
Qed.

(** C6: starting from a well-formed store, after any sequence of committed
    operations (order submissions, cancellations, admin deposits and
    withdrawals with schema-valid arguments) every balance and every
    position quantity is >= 0.  An adjustment whose result would be below
    zero raises 400 'Balance must be >= 0' and commits nothing: the result
    is computed in floating point, so this is a withdrawal whose amount,
    rounded to the nearest double, exceeds the balance; for an amount of
    at most 2^53, which is converted exactly, it is every withdrawal that
    exceeds the balance. *)
Theorem balances_and_quantities_never_negative db ops :
  wf_db db → Forall valid_operation ops →
  let db' := foldl commit db ops in
  (∀ t b, traders db' !! t = Some b → not_negative b)
  ∧ (∀ t ticker q, positions db' !! (t, ticker) = Some q → not_negative q)
  ∧ (∀ t x amount, traders db' !! t = Some (Num x) → 0 < amount ≤ 2 ^ 1023 →
       (amount ≤ 2 ^ 53 → rne amount = amount)
       ∧ (x < rne amount →
          change_trader_balance db' t BASE_CURRENCY_TICKER (- amount)
          = inl (HTTPException 400 "Balance must be >= 0")
          ∧ commit db' (Withdraw t BASE_CURRENCY_TICKER amount) = db'))
  ∧ (∀ t ticker x amount, ticker ≠ BASE_CURRENCY_TICKER →
       is_Some (traders db' !! t) →
       positions db' !! (t, ticker) = Some (Num x) → 0 < amount ≤ 2 ^ 1023 →
       (amount ≤ 2 ^ 53 → rne amount = amount)
       ∧ (x < rne amount →
          change_trader_balance db' t ticker (- amount)
          = inl (HTTPException 400 "Balance must be >= 0")
          ∧ commit db' (Withdraw t ticker amount) = db')).
Proof.
  intros Hwf Hv db'. pose proof (commits_wf ops db Hwf Hv) as [Hb Hq _ _].
  fold db' in Hb, Hq. split_and!.
  - exact Hb.
  - intros t ticker q. apply Hq.
  - intros t x amount Ht Ha. split; [intros ?; apply rne_exact; lia|].
    intros Hlt. cbn [commit]. unfold change_trader_balance.
    rewrite (change_balance_overdraft _ _ _ x) by
      (rewrite ?bool_decide_eq_true_2 by done; done). done.
  - intros t ticker x amount Hne Ht Hp Ha.
    split; [intros ?; apply rne_exact; lia|].
    intros Hlt. cbn [commit]. unfold change_trader_balance.
    rewrite (change_balance_overdraft _ _ _ x) by
      (rewrite ?bool_decide_eq_false_2 by done; done). done.
Qed.

(** ** Settlement within the exact range *)



(** Within the headroom, [buy] computes in the integers. *)
Lemma buy_exact s seller buyer sym p q V U bb sb pq :
  room s V U → 0 ≤ q → 0 ≤ p → q * p ≤ V → q ≤ U →
  traders s !! buyer = Some (Num bb) → traders s !! seller = Some (Num sb) →
  positions s !! (buyer, sym) = Some (Num pq) → q * p ≤ bb →
  buy s seller buyer sym (Some p) q
  = inr (mkDatabase
           (<[buyer := Num ((if decide (buyer = seller) then sb + q * p else bb)
                            - q * p)]>
              (<[seller := Num (sb + q * p)]> (traders s)))
           (<[(buyer, sym) := Num (pq + q)]> (positions s)) (orders s)
           (trades s ++ [mkTrade seller buyer sym q p])).
Proof.
  intros [Ht Hp] Hq Hp0 HV HU Hb Hs Hpq Hcov.
  destruct (Ht _ _ Hb) as (?&[= <-]&?&?), (Ht _ _ Hs) as (?&[= <-]&?&?),
    (Hp _ _ Hpq) as (?&[= <-]&?&?).
  assert (0 ≤ q * p) by nia.
  unfold buy. rewrite Hb, Hs, Hpq. cbn [lt_int].
  rewrite bool_decide_eq_false_2 by lia.
  rewrite add_int_exact by lia. cbn [bind].
  destruct (decide (buyer = seller)) as [->|Hne].
  - rewrite lookup_insert_eq. cbn [default from_option id].
    rewrite sub_int_exact by lia. cbn [bind].
    rewrite add_int_exact by lia. reflexivity.
  - rewrite lookup_insert_ne, Hb by done. cbn [default from_option id].
    rewrite sub_int_exact by lia. cbn [bind].
    rewrite add_int_exact by lia. reflexivity.
Qed.

(** Within the headroom, [sell] computes in the integers. *)
Lemma sell_exact s seller buyer sym p q V U sq sb bq :
  room s V U → 0 ≤ q → 0 ≤ p → q * p ≤ V → q ≤ U →
  positions s !! (seller, sym) = Some (Num sq) →
  traders s !! seller = Some (Num sb) →
  positions s !! (buyer, sym) = Some (Num bq) → q ≤ sq →
  sell s seller buyer sym (Some p) q
  = inr (mkDatabase (<[seller := Num (sb + q * p)]> (traders s))
           (<[(buyer, sym) := Num ((if decide (buyer = seller) then sq - q else bq)
                                   + q)]>
              (<[(seller, sym) := Num (sq - q)]> (positions s)))
           (orders s) (trades s ++ [mkTrade seller buyer sym q p])).
Proof.
  intros [Ht Hp] Hq Hp0 HV HU Hsq Hs Hbq Hcov.
  destruct (Hp _ _ Hsq) as (?&[= <-]&?&?), (Ht _ _ Hs) as (?&[= <-]&?&?),
    (Hp _ _ Hbq) as (?&[= <-]&?&?).
  assert (0 ≤ q * p) by nia.
  unfold sell. rewrite Hsq, Hs, Hbq. cbn [lt_int].
  rewrite bool_decide_eq_false_2 by lia.
  rewrite add_int_exact by lia. cbn [bind].
  rewrite sub_int_exact by lia. cbn [bind].
  destruct (decide (buyer = seller)) as [->|Hne].
  - rewrite lookup_insert_eq. cbn [default from_option id].
    rewrite add_int_exact by lia. reflexivity.
  - rewrite lookup_insert_ne, Hbq by congruence. cbn [default from_option id].
    rewrite add_int_exact by lia. reflexivity.
Qed.

Lemma lt_int_Num_false x z : lt_int (Num x) z = false → z ≤ x.
Proof. cbn. intros ?%bool_decide_eq_false_1. lia. Qed.




(** ** Market orders: all or nothing *)

Lemma volume_cons m cands : volume (m :: cands) = o_amount m + volume cands.
Proof. reflexivity. Qed.

Lemma volume_nonneg cands : (∀ m, m ∈ cands → 1 ≤ o_amount m) → 0 ≤ volume cands.
Proof.
  induction cands as [|m rest IH]; intros Hc; [done|].
  rewrite volume_cons. pose proof (Hc m ltac:(left)).
  assert (0 ≤ volume rest); [|lia]. apply IH. intros m' Hm'. apply Hc. by right.
Qed.

Lemma volume_take k cands :
  (∀ m, m ∈ cands → 1 ≤ o_amount m) → volume (take k cands) ≤ volume cands.
Proof.
  revert k. induction cands as [|m rest IH]; intros k Hc; [by rewrite take_nil|].
  destruct k as [|k]; cbn [take].
  - apply (volume_nonneg (m :: rest)), Hc.
  - rewrite !volume_cons. assert (volume (take k rest) ≤ volume rest); [|lia].
    apply IH. intros m' Hm'. apply Hc. by right.
Qed.






Lemma elem_of_book db sym d r :
  r ∈ book db sym d
  ↔ r ∈ orders db ∧ o_symbol_ticker r = sym ∧ o_direction r = d
    ∧ o_status r ∈ ACTIVE_ORDER_STATUSES.
Proof.
  unfold book. rewrite order_by_Permutation, list_elem_of_In, filter_In.
  rewrite <- list_elem_of_In. unfold in_book.
  rewrite !andb_true_iff, !bool_decide_eq_true. tauto.
Qed.



(** ** The reservation protocol against the source *)














(** With columns that fit, the source returns an order; a CANCELLED one
    is the record of the rollback. *)
Lemma create_limit_order_returns taker db new_id now sym q price t :
  fits_int32 q price →
  let r := create_limit_order taker db new_id now sym q price t in
  let n0 := new_order_of taker new_id now sym q price t in
  ∃ order, r.2 = inr order
    ∧ (o_status order = CANCELLED →
       r = (add_order db (cancelled n0 q), inr (cancelled n0 q))).
Proof.
  intros Hfit r n0. subst r n0.
  destruct (create_limit_order_cases taker db new_id now sym q price t)
    as [(e&_&_&Hr&_)|[(e&_&Hno&_)|(s&n&Hm&s1&Hf&Hi&Hr)]]; [| done |].
  - rewrite Hr. eauto.
  - rewrite Hr. eexists. split; [done|]. cbn.
    intros Hst. by apply committed_not_cancelled in Hm.
Qed.



(** ** Soundness of the executable checks *)

Lemma wf_dbb_correct db : wf_dbb db = true → wf_db db.
Proof.
  unfold wf_dbb. intros [[H1 H2]%andb_prop H3]%andb_prop.
  apply bool_decide_eq_true_1 in H1, H2.
  split.
  - intros t b Hb. by apply (map_Forall_lookup_1 _ _ _ _ H1 Hb).
  - intros k q Hq. by apply (map_Forall_lookup_1 _ _ _ _ H2 Hq).
  - intros o Ho Hact. rewrite forallb_forall in H3.
    apply list_elem_of_In in Ho. apply H3 in Ho. unfold order_okb in Ho.
    apply andb_prop in Ho as [_ Ho].
    rewrite (bool_decide_eq_true_2 (o_status o ∈ ACTIVE_ORDER_STATUSES)) in Ho
      by done.
    apply andb_prop in Ho as [Ha Hp]. apply bool_decide_eq_true_1 in Ha.
    split; [done|]. destruct (o_price o) as [p|]; [|done].
    apply bool_decide_eq_true_1 in Hp. eauto.
  - intros o Ho. rewrite forallb_forall in H3.
    apply list_elem_of_In in Ho. apply H3 in Ho. unfold order_okb in Ho.
    apply andb_prop in Ho as [Ho _]. by apply bool_decide_eq_true_1 in Ho.
Qed.


Lemma foreign_keysb_correct db : foreign_keysb db = true → foreign_keys db.
Proof.
  unfold foreign_keysb. rewrite forallb_forall. intros H o Ho%list_elem_of_In.
  by apply H, bool_decide_eq_true_1 in Ho.
Qed.


(** ** Reading orders back *)

Lemma flush_order_ids s m :
  map o_id (orders (flush_order s m)) = map o_id (orders s).
Proof.
  unfold flush_order. cbn. rewrite map_map. apply map_ext.
  intros r. by case_decide.
Qed.

Lemma match_orders_ids taker s t sym price n cands s' n' :
  match_orders taker s t sym price n cands = inr (s', n') →
  map o_id (orders s') = map o_id (orders s).
Proof.
  revert s n. induction cands as [|m rest IH]; intros s n.
  { by intros [= <- <-]. }
  intros H. apply match_orders_cons_inr in H
    as [(_&->&_)|[(_&_&->&_)|(s1&n1&Hstep&Hrest)]]; [done..|].
  rewrite (IH _ _ Hrest). destruct Hstep as [m1 s0 _ _ Hs _ _ ->].
  rewrite flush_order_ids. by rewrite (settle_orders _ _ _ _ _ _ _ Hs).
Qed.

Lemma create_limit_order_row taker db new_id now sym q price t :
  let r := create_limit_order taker db new_id now sym q price t in
  (∀ order, r.2 = inr order →
     order_static order = (new_id, t, sym, taker, price, now, q)
     ∧ ∃ rows, orders r.1 = rows ++ [order]
         ∧ map o_id rows = map o_id (orders db))
  ∧ (∀ e, r.2 = inl e → r.1 = db).
Proof.
  intros r. subst r.
  destruct (create_limit_order_cases taker db new_id now sym q price t)
    as [(e&_&_&->&_)|[(e&_&_&->)|(s&n&Hm&s1&Hf&_&->)]]; cbn [fst snd].
  - split; [|done]. intros order [= <-]. split; [|by exists (orders db)].
    unfold order_static, original_amount. cbn. by rewrite Z.add_0_r.
  - split; [done|]. by intros.
  - split; [|done]. intros order [= <-].
    cbn [add_order set_orders orders].
    pose proof (match_orders_tracks _ _ _ _ _ _ _ _ _ _ (tracks_refl _) Hm) as [].
    split.
    + unfold order_static. unfold original_amount in tracks_original0 at 2.
      cbn in *. rewrite Z.add_0_r in tracks_original0. congruence.
    + exists (orders s1). split; [done|].
      apply freeze_remainder_orders in Hf as [-> _]. by eapply match_orders_ids.
Qed.

(** With columns that fit, create_order returns an order. *)
Lemma create_order_returns db new_id now direction ticker qty price t :
  fits_int32 qty (price_column price) →
  ∃ order, (create_order db new_id now direction ticker qty price t).2 = inr order.
Proof.
  intros Hfit. rewrite create_order_eq.
  destruct (create_limit_order_returns (side_of direction) db new_id now ticker
              qty (price_column price) t Hfit) as (order&Hr&_). eauto.
Qed.

(** A price beyond the INTEGER column: the exception leaves create_order
    and nothing is written. *)
Lemma create_order_price_refused db new_id now direction ticker qty price t p :
  price_column price = Some p → 2 ^ 31 ≤ p →
  create_order db new_id now direction ticker qty price t = (db, inl DBAPIError).
Proof.
  intros Hp Hbig. rewrite create_order_eq, Hp.
  by apply create_limit_order_price_refused.
Qed.

Lemma get_order_is_Some db order_id :
  is_Some (get_order db order_id) ↔ order_id ∈ map o_id (orders db).
Proof.
  unfold get_order. rewrite list_elem_of_In, in_map_iff. split.
  - intros [o [Hin Hb]%find_some]. apply bool_decide_eq_true_1 in Hb. eauto.
  - intros (o&Hid&Hin). destruct (List.find _ _) eqn:Hf; [done|].
    eapply find_none in Hf; [|done]. cbn in Hf.
    by rewrite bool_decide_eq_true_2 in Hf.
Qed.

Lemma get_order_elem db order_id o :
  get_order db order_id = Some o → o ∈ orders db ∧ o_id o = order_id.
Proof.
  intros [Hin Hb]%find_some. apply bool_decide_eq_true_1 in Hb.
  by apply list_elem_of_In in Hin.
Qed.

Lemma find_app_old {A} (f : A → bool) (l : list A) (x : A) :
  f x = false → List.find f (l ++ [x]) = List.find f l.
Proof.
  intros Hx. induction l as [|a l IH]; cbn; [by rewrite Hx|].
  by destruct (f a).
Qed.

Lemma fresh_rows (rows : list Order) new_id :
  new_id ∉ map o_id rows → ∀ y, y ∈ rows → o_id y ≠ new_id.
Proof.
  intros Hf y Hy <-. apply Hf, list_elem_of_In, in_map. by apply list_elem_of_In.
Qed.

Lemma get_order_fresh db new_id :
  new_id ∉ map o_id (orders db) → get_order db new_id = None.
Proof.
  intros Hfresh. destruct (get_order db new_id) as [o|] eqn:Hget; [|done].
  exfalso. apply Hfresh, get_order_is_Some. by rewrite Hget.
Qed.

(** X1: an order submitted under an unused id, with a quantity and a
    price that fit the 32-bit columns, is read back by that id: create_order
    returns an order, and get_order on the committed store returns that
    very order, whether the submission was committed or recorded as
    CANCELLED; it carries the submitter, instrument, side, price column,
    timestamp and requested quantity of the request; the owner's
    get_order_by_id answers with that order and [qty] as requested, anyone
    else's with 403.  When an exception leaves create_order instead, as it
    does for every price of 2^31 or more, the store is unchanged and the id
    reads nothing.  In every case the ids that could be read before are
    the ids that can be read afterwards, besides the new one. *)
Theorem submitted_order_is_read_back db new_id now direction ticker qty price trader_id :
  new_id ∉ map o_id (orders db) →
  let r := create_order db new_id now direction ticker qty price trader_id in
  (fits_int32 qty (price_column price) → ∃ order, r.2 = inr order)
  ∧ (∀ order, r.2 = inr order →
       get_order r.1 new_id = Some order
       ∧ order_static order
         = (new_id, trader_id, ticker, side_of direction, price_column price, now, qty)
       ∧ (∀ isoformat,
            get_order_by_id isoformat r.1 new_id trader_id
            = inr (_format_order_response isoformat order)
            ∧ body_qty (resp_body (_format_order_response isoformat order)) = qty)
       ∧ (∀ isoformat other, other ≠ trader_id →
            get_order_by_id isoformat r.1 new_id other
            = inl (HTTPException 403 "Access denied")))
  ∧ (∀ e, r.2 = inl e → r.1 = db ∧ get_order r.1 new_id = None)
  ∧ (∀ p, price_column price = Some p → 2 ^ 31 ≤ p → r = (db, inl DBAPIError))
  ∧ (∀ order_id, order_id ≠ new_id →
       (is_Some (get_order r.1 order_id) ↔ is_Some (get_order db order_id))).
Proof.
  intros Hfresh r.
  split; [by apply create_order_returns|].
  split; [|split; [|split; [by intros; eapply create_order_price_refused|]]].
  - intros order Hr. subst r. rewrite create_order_eq in Hr |- *.
    destruct (create_limit_order_row (side_of direction) db new_id now ticker qty
                (price_column price) trader_id) as [Hrow _].
    destruct (Hrow order Hr) as (Hst&rows&Hrows&Hids).
    set (r := create_limit_order _ _ _ _ _ _ _ _) in *.
    assert (o_id order = new_id ∧ o_trader_id order = trader_id
            ∧ original_amount order = qty) as (Hid&Htr&Hq).
    { unfold order_static in Hst. by simplify_eq. }
    assert (get_order r.1 new_id = Some order) as Hget.
    { unfold get_order. rewrite Hrows. apply find_fresh_app.
      - intros y Hy. apply bool_decide_eq_false_2.
        apply fresh_rows with rows; [by rewrite Hids|done].
      - by apply bool_decide_eq_true_2. }
    split_and!; [done|done| |].
    + intros iso. split; [|done]. unfold get_order_by_id. rewrite Hget.
      by rewrite bool_decide_eq_false_2 by (rewrite Htr; tauto).
    + intros iso other Hne. unfold get_order_by_id. rewrite Hget.
      by rewrite bool_decide_eq_true_2 by congruence.
  - intros e Hr. subst r. rewrite create_order_eq in Hr |- *.
    destruct (create_limit_order_row (side_of direction) db new_id now ticker qty
                (price_column price) trader_id) as [_ Hrow].
    rewrite (Hrow e Hr). split; [done|]. by apply get_order_fresh.
  - intros order_id Hne. subst r. rewrite create_order_eq.
    destruct (create_limit_order_row (side_of direction) db new_id now ticker qty
                (price_column price) trader_id) as [Hrow Hraise].
    destruct (create_limit_order _ _ _ _ _ _ _ _) as [st [e|order]] eqn:Hc;
      cbn [fst snd] in *.
    { by rewrite (Hraise e eq_refl). }
    destruct (Hrow order eq_refl) as (Hst&rows&Hrows&Hids).
    assert (o_id order = new_id) as Hid.
    { unfold order_static in Hst. by simplify_eq. }
    rewrite (get_order_is_Some db), <- Hids.
    unfold get_order. rewrite Hrows, find_app_old.
    + apply (get_order_is_Some (set_orders db rows)).
    + apply bool_decide_eq_false_2. congruence.
Qed.

(** ** Rows are replaced in place *)

Lemma flush_order_split l1 m l2 m1 :
  NoDup (map o_id (l1 ++ m :: l2)) → o_id m1 = o_id m →
  map (λ r, if decide (o_id r = o_id m1) then m1 else r) (l1 ++ m :: l2)
  = l1 ++ m1 :: l2.
Proof.
  intros Hnd Hid. rewrite map_app in Hnd. cbn in Hnd.
  apply NoDup_app in Hnd as (_&Hl1&[Hl2 _]%NoDup_cons).
  assert (∀ l : list Order, o_id m ∉ map o_id l →
          map (λ r, if decide (o_id r = o_id m1) then m1 else r) l = l) as Hsame.
  { intros l Hl. rewrite <- (map_id l) at 2. apply map_ext_in.
    intros r Hr%list_elem_of_In. rewrite decide_False; [done|].
    rewrite Hid. by apply fresh_rows with l. }
  rewrite map_app. cbn. rewrite decide_True by done.
  rewrite !Hsame; [done|done|]. intros Hin. apply (Hl1 _ Hin). left.
Qed.

Lemma NoDup_ids_filter (f : Order → bool) l :
  NoDup (map o_id l) → NoDup (map o_id (List.filter f l)).
Proof.
  induction l as [|a l IH]; cbn; [done|].
  intros [Hnotin Hnd]%NoDup_cons. destruct (f a); cbn; [|by apply IH].
  apply NoDup_cons. split; [|by apply IH].
  intros (o&Hid&[Hin _]%filter_In)%list_elem_of_In%in_map_iff.
  apply Hnotin. rewrite <- Hid. by apply list_elem_of_In, in_map.
Qed.

Lemma get_orders_live db sym d limit :
  NoDup (map o_id (orders db)) →
  live_rows (orders db) (__get_orders db sym d limit).
Proof.
  intros Hnd. split_and!; [done| |].
  - unfold __get_orders, book.
    change (NoDup (o_id <$> take (Z.to_nat limit)
              (order_by d (List.filter (in_book sym d) (orders db))))).
    rewrite fmap_take. eapply sublist_NoDup; [|apply sublist_take].
    rewrite order_by_Permutation. by apply NoDup_ids_filter.
  - intros m Hm. by apply elem_of_get_orders in Hm as [? _].
Qed.

Lemma partially_execute_order_static m q m1 :
  partially_execute_order m q = inr m1 → order_static m1 = order_static m.
Proof.
  intros [_ ->]%partially_execute_order_inr.
  unfold order_static, original_amount. cbn. f_equal. lia.
Qed.

Lemma loop_step_live taker t sym price s n m rest s1 n1 :
  live_rows (orders s) (m :: rest) →
  loop_step taker t sym price s n m s1 n1 →
  live_rows (orders s1) rest
  ∧ ∃ l1 l2 m1, orders s = l1 ++ m :: l2 ∧ orders s1 = l1 ++ m1 :: l2
      ∧ partially_execute_order m (Z.min (o_amount m) (o_amount n)) = inr m1.
Proof.
  intros (Hnd&Hndc&Hsub) [m1 s0 _ _ Hs Hm _ ->].
  apply settle_orders in Hs.
  destruct (list_elem_of_split (orders s) m) as (l1&l2&Hrows);
    [apply Hsub; left|].
  pose proof (partially_execute_order_static _ _ _ Hm) as Hst.
  assert (o_id m1 = o_id m) as Hid by (unfold order_static in Hst; by simplify_eq).
  assert (orders (flush_order s0 m1) = l1 ++ m1 :: l2) as Hrows1.
  { unfold flush_order. cbn. rewrite Hs, Hrows.
    apply flush_order_split; [by rewrite <- Hrows|done]. }
  split; [|by exists l1, l2, m1].
  cbn in Hndc. apply NoDup_cons in Hndc as [Hm_rest Hnd_rest].
  split_and!; [|done|].
  - by rewrite flush_order_ids, Hs.
  - intros m' Hm'. pose proof (Hsub m' ltac:(by right)) as Hin.
    rewrite Hrows1. rewrite Hrows in Hin.
    apply elem_of_app in Hin as [Hin|[->|Hin]%elem_of_cons];
      apply elem_of_app; [by left| |right; by right].
    exfalso. apply Hm_rest. by apply list_elem_of_In, in_map, list_elem_of_In.
Qed.

Lemma match_orders_static taker s t sym price n cands s' n' :
  live_rows (orders s) cands →
  match_orders taker s t sym price n cands = inr (s', n') →
  map order_static (orders s') = map order_static (orders s).
Proof.
  revert s n. induction cands as [|m rest IH]; intros s n Hlive.
  { by intros [= <- <-]. }
  intros H. apply match_orders_cons_inr in H
    as [(_&->&_)|[(_&_&->&_)|(s1&n1&Hstep&Hrest)]]; [done..|].
  destruct (loop_step_live _ _ _ _ _ _ _ _ _ _ Hlive Hstep)
    as (Hlive1&l1&l2&m1&Hrows&Hrows1&Hm).
  rewrite (IH _ _ Hlive1 Hrest), Hrows, Hrows1, !map_app. cbn.
  by rewrite (partially_execute_order_static _ _ _ Hm).
Qed.

Lemma create_limit_order_static taker db new_id now sym q price t :
  NoDup (map o_id (orders db)) →
  let r := create_limit_order taker db new_id now sym q price t in
  map order_static (orders r.1)
  = map order_static (orders db)
    ++ match r.2 with
       | inr _ => [(new_id, t, sym, taker, price, now, q)]
       | inl _ => []
       end.
Proof.
  intros Hnd r. subst r.
  destruct (create_limit_order_row taker db new_id now sym q price t)
    as (Hst&_).
  destruct (create_limit_order_cases taker db new_id now sym q price t)
    as [(e&_&_&Hr&_)|[(e&_&_&Hr)|(s&n&Hm&s1&Hf&_&Hr)]]; rewrite Hr in Hst |- *;
    cbn [fst snd add_order set_orders orders] in *;
    [|by rewrite app_nil_r|];
    destruct (Hst _ eq_refl) as [Hrow _];
    rewrite map_app; cbn [map]; rewrite Hrow; [done|].
  apply freeze_remainder_orders in Hf as [-> _]. f_equal.
  eapply match_orders_static; [|done]. by apply get_orders_live.
Qed.

Lemma cancel_order_static db order_id trader_id db' o :
  NoDup (map o_id (orders db)) →
  cancel_order db order_id trader_id = inr (db', o) →
  map order_static (orders db') = map order_static (orders db).
Proof.
  intros Hnd. unfold cancel_order.
  destruct (List.find _ _) as [order|] eqn:Hfind; [|by intros [= <- _]].
  case_bool_decide; [done|]. destruct (o_price order); [|done].
  set (cb := match o_direction order with ASK => _ | BID => _ end).
  destruct cb as [e|s] eqn:Hcb; cbn [bind]; [done|]. intros [= <- _].
  assert (orders s = orders db) as Hos.
  { subst cb. destruct (o_direction order);
      by apply change_balance_orders in Hcb as [? _]. }
  apply find_some in Hfind as [Hin _]. apply list_elem_of_In in Hin.
  destruct (list_elem_of_split _ _ Hin) as (l1&l2&Hrows).
  unfold flush_order. cbn [orders set_orders]. rewrite Hos, Hrows.
  rewrite flush_order_split; [|by rewrite <- Hrows|done].
  by rewrite !map_app.
Qed.

Lemma commit_static db op :
  NoDup (map o_id (orders db) ++ submitted_ids [op]) →
  map order_static (orders (commit db op))
  = map order_static (orders db) ++ appended_rows db [op].
Proof.
  intros [Hnd _]%NoDup_app. destruct op; cbn [commit appended_rows];
    rewrite ?app_nil_r.
  - rewrite create_order_eq. by apply create_limit_order_static.
  - destruct (cancel_order _ _ _) as [e|[db' o]] eqn:Hc; [done|].
    by eapply cancel_order_static.
  - unfold change_trader_balance.
    destruct (__change_balance _ _ _ _) eqn:Hc; [done|].
    by apply change_balance_orders in Hc as [-> _].
  - unfold change_trader_balance.
    destruct (__change_balance _ _ _ _) eqn:Hc; [done|].
    by apply change_balance_orders in Hc as [-> _].
Qed.

Lemma static_ids (l : list Order) :
  map o_id l = map (λ x, x.1.1.1.1.1.1) (map order_static l).
Proof. rewrite map_map. by apply map_ext. Qed.


(** What one operation appends is its own row, or nothing. *)
Lemma appended_rows_one db op :
  (appended_rows db [op] = submission_static op ∨ appended_rows db [op] = [])
  ∧ (fits_operation op → appended_rows db [op] = submission_static op).
Proof.
  destruct op; cbn [appended_rows submission_static fits_operation];
    rewrite ?app_nil_r; [|by auto..].
  destruct (create_order _ _ _ _ _ _ _ _).2 as [e|order] eqn:Hr.
  - split; [by right|]. intros Hfit.
    edestruct create_order_returns as [order Hret]; [exact Hfit|].
    rewrite Hret in Hr. done.
  - split; [by left|done].
Qed.

Lemma appended_ids db op :
  sublist (map (λ x, x.1.1.1.1.1.1) (appended_rows db [op])) (submitted_ids [op]).
Proof.
  destruct (appended_rows_one db op) as [[->| ->] _].
  - destruct op; cbn; done.
  - cbn. apply sublist_nil_l.
Qed.



(** ** The order endpoints *)

Lemma get_order_NoDup db o :
  NoDup (map o_id (orders db)) → o ∈ orders db → get_order db (o_id o) = Some o.
Proof.
  intros Hnd Hin.
  destruct (get_order db (o_id o)) as [o'|] eqn:Hget.
  - apply get_order_elem in Hget as [Hin' Hid].
    f_equal. by apply (NoDup_map_eq o_id (orders db)).
  - assert (is_Some (get_order db (o_id o))) as [? ?]; [|congruence].
    apply get_order_is_Some. by apply list_elem_of_In, in_map, list_elem_of_In.
Qed.

Lemma elem_of_get_trader_orders db t o :
  o ∈ get_trader_orders db t ↔ o ∈ orders db ∧ o_trader_id o = t.
Proof.
  unfold get_trader_orders. rewrite table_scan_rows.
  rewrite !list_elem_of_In, filter_In.
  by rewrite bool_decide_eq_true.
Qed.

(** X3: list_orders and get_order_by_id agree.  Every response
    get_order_by_id gives a trader is for the id asked and for an order of
    that trader, and it is one of the entries of the trader's list_orders;
    with ids a key of the table, every entry of list_orders is in turn
    the response of get_order_by_id for its id.  A trader asking for
    another trader's order gets 403, and an id that no row carries 404. *)
Theorem list_orders_agrees_with_get_order_by_id isoformat db trader_id :
  NoDup (map o_id (orders db)) →
  (∀ order_id resp,
     get_order_by_id isoformat db order_id trader_id = inr resp →
     resp_id resp = order_id ∧ resp_trader_id resp = trader_id
     ∧ resp ∈ list_orders isoformat db trader_id)
  ∧ (∀ resp, resp ∈ list_orders isoformat db trader_id →
       get_order_by_id isoformat db (resp_id resp) trader_id = inr resp)
  ∧ (∀ o, o ∈ orders db → o_trader_id o ≠ trader_id →
       get_order_by_id isoformat db (o_id o) trader_id
       = inl (HTTPException 403 "Access denied"))
  ∧ (∀ order_id, order_id ∉ map o_id (orders db) →
       get_order_by_id isoformat db order_id trader_id
       = inl (HTTPException 404 "Order not found")).
Proof.
  intros Hnd. split_and!.
  - intros order_id resp. unfold get_order_by_id.
    destruct (get_order db order_id) as [o|] eqn:Hget; [|done].
    apply get_order_elem in Hget as [Hin Hid].
    case_bool_decide as Hown; [done|]. intros [= <-].
    assert (o_trader_id o = trader_id) as Htr
      by (destruct (decide (o_trader_id o = trader_id)); tauto).
    split_and!; [done..|]. unfold list_orders.
    apply list_elem_of_In, in_map, list_elem_of_In.
    by apply elem_of_get_trader_orders.
  - intros resp (o&<-&Hin)%list_elem_of_In%in_map_iff.
    apply list_elem_of_In, elem_of_get_trader_orders in Hin as [Hin Htr].
    unfold get_order_by_id. cbn [_format_order_response resp_id].
    rewrite get_order_NoDup by done.
    by rewrite bool_decide_eq_false_2 by tauto.
  - intros o Hin Hne. unfold get_order_by_id.
    rewrite get_order_NoDup by done. by rewrite bool_decide_eq_true_2.
  - intros order_id Hnotin. unfold get_order_by_id.
    destruct (get_order db order_id) eqn:Hget; [|done].
    exfalso. apply Hnotin, get_order_is_Some. by rewrite Hget.
Qed.




(** ** Cancelling twice *)

Lemma find_flushed (f : Order → bool) (l : list Order) (oc : Order) :
  (∀ r, f r = true → o_id r = o_id oc) → f oc = true →
  (∃ r, r ∈ l ∧ o_id r = o_id oc) →
  List.find f (map (λ r, if decide (o_id r = o_id oc) then oc else r) l)
  = Some oc.
Proof.
  intros Hf Hoc. induction l as [|a l IH]; intros (r&Hin&Hid).
  { by apply elem_of_nil in Hin. }
  cbn. case_decide as Ha; [by rewrite Hoc|].
  destruct (f a) eqn:Hfa; [by apply Hf in Hfa|].
  apply IH. exists r. split; [|done].
  apply elem_of_cons in Hin as [->|Hin]; done.
Qed.

Lemma cancel_order_inr_Some db order_id trader_id db' o' :
  cancel_order db order_id trader_id = inr (db', Some o') →
  ∃ order s, order ∈ orders db ∧ o_id order = order_id
    ∧ o_trader_id order = trader_id ∧ o_status order = NEW
    ∧ (∃ p, o_price order = Some p
          ∧ __change_balance db trader_id
              (match o_direction order with
               | ASK => o_symbol_ticker order
               | BID => BASE_CURRENCY_TICKER
               end)
              (match o_direction order with
               | ASK => o_amount order
               | BID => o_amount order * p
               end) = inr s)
    ∧ orders s = orders db ∧ trades s = trades db
    ∧ o' = set_status order CANCELLED ∧ db' = flush_order s o'.
Proof.
  unfold cancel_order.
  destruct (List.find _ _) as [order|] eqn:Hfind; [|done].
  apply find_some in Hfind as [Hin Hb]. apply andb_prop in Hb as [H1 H2].
  apply bool_decide_eq_true_1 in H1, H2. apply list_elem_of_In in Hin.
  case_bool_decide as Hfin; [done|]. rewrite final_status_iff in Hfin.
  destruct (o_price order) as [p|] eqn:Hp; [|done].
  set (cb := match o_direction order with ASK => _ | BID => _ end).
  destruct cb as [e|s] eqn:Hcb; cbn [bind]; [done|]. intros [= <- <-].
  exists order, s. split_and!; try done.
  - destruct (decide (o_status order = NEW)); [done|by destruct Hfin].
  - exists p. split; [done|]. subst cb. rewrite <- H2. by destruct (o_direction order).
  - subst cb. destruct (o_direction order);
      by apply change_balance_orders in Hcb as [? _].
  - subst cb. destruct (o_direction order);
      by apply change_balance_orders in Hcb as [_ ?].
Qed.

Lemma cancel_order_inr_None db order_id trader_id db' :
  cancel_order db order_id trader_id = inr (db', None) → db' = db.
Proof.
  unfold cancel_order.
  destruct (List.find _ _) as [order|]; [|by intros [= <-]].
  case_bool_decide; [done|]. destruct (o_price order); [|done].
  set (cb := match o_direction order with ASK => _ | BID => _ end).
  by destruct cb.
Qed.

(** X5: an order can be cancelled once.  After delete_order_by_id has
    answered success, the order is read back as CANCELLED by get_order and
    get_order_by_id, it is no longer in the book of its instrument, and a
    second delete_order_by_id for it is answered 400 'Order
    executed/partially_executed/cancelled' and writes nothing: no second
    refund is paid.  This holds for any table, also one in which ids
    repeat. *)
Theorem cancelled_order_cannot_be_cancelled_again db order_id trader_id db' :
  delete_order_by_id db order_id trader_id = (db', inr true) →
  delete_order_by_id db' order_id trader_id
  = (db', inl (HTTPException 400 "Order executed/partially_executed/cancelled"))
  ∧ (∃ o, get_order db' order_id = Some o ∧ o_status o = CANCELLED
          ∧ o_trader_id o = trader_id
          ∧ ∀ isoformat,
              get_order_by_id isoformat db' order_id trader_id
              = inr (_format_order_response isoformat o))
  ∧ (∀ symbol_ticker direction m,
       m ∈ book db' symbol_ticker direction → o_id m ≠ order_id).
Proof.
  unfold delete_order_by_id.
  destruct (cancel_order db order_id trader_id) as [e|[db1 [o'|]]] eqn:Hc;
    [done| |done].
  intros [= <-].
  apply cancel_order_inr_Some in Hc
    as (order&s&Hin&Hid&Htr&Hst&Hp&Hos&_&->&->).
  set (oc := set_status order CANCELLED).
  assert (∃ r, r ∈ orders s ∧ o_id r = o_id oc) as Hex.
  { exists order. by rewrite Hos. }
  split_and!.
  - unfold cancel_order, flush_order. cbn [orders set_orders].
    rewrite (find_flushed _ _ oc); [| |by subst oc; cbn;
      rewrite !bool_decide_eq_true_2|done].
    + rewrite bool_decide_eq_true_2; [done|].
      rewrite final_status_iff. by subst oc.
    + intros r [H1 _]%andb_prop. apply bool_decide_eq_true_1 in H1.
      subst oc. cbn. congruence.
  - exists oc. assert (get_order (flush_order s oc) order_id = Some oc) as Hget.
    { unfold get_order, flush_order. cbn [orders set_orders].
      apply find_flushed; [|by subst oc; cbn; rewrite bool_decide_eq_true_2|done].
      intros r H1. apply bool_decide_eq_true_1 in H1. subst oc. cbn. congruence. }
    split_and!; [done|done|done|]. intros iso. unfold get_order_by_id.
    rewrite Hget. by rewrite bool_decide_eq_false_2 by (subst oc; cbn; tauto).
  - intros sym d m Hm Hmid. unfold book in Hm.
    rewrite order_by_Permutation in Hm.
    apply list_elem_of_In, filter_In in Hm as [Hm Hb].
    unfold flush_order in Hm. cbn [orders set_orders] in Hm.
    apply in_map_iff in Hm as (r&Hr&_). case_decide as Hd.
    + subst m. unfold in_book in Hb. apply andb_prop in Hb as [_ Hb].
      apply bool_decide_eq_true_1, active_status_iff in Hb.
      subst oc. cbn in Hb. by destruct Hb.
    + subst m. apply Hd. subst oc. cbn. congruence.
Qed.

(** ** Freezing and unfreezing *)


(** ** Amount, filled and status *)

Lemma partially_execute_order_lifecycle m q m1 :
  lifecycle m → o_status m ∈ ACTIVE_ORDER_STATUSES → 1 ≤ q →
  partially_execute_order m q = inr m1 →
  lifecycle m1 ∧ o_status m1 ≠ CANCELLED.
Proof.
  intros Hl Hact Hq [Hle ->]%partially_execute_order_inr.
  apply active_status_iff in Hact. unfold lifecycle in *. cbn.
  case_bool_decide; (split; [|done]); destruct Hact as [Hst|Hst];
    rewrite Hst in Hl; lia.
Qed.

Lemma lifecycle_active m :
  lifecycle m → o_status m ≠ CANCELLED → o_amount m ≠ 0 →
  o_status m ∈ ACTIVE_ORDER_STATUSES ∧ 1 ≤ o_amount m.
Proof.
  unfold lifecycle. rewrite active_status_iff.
  destruct (o_status m); intros; split; try lia; tauto.
Qed.

Lemma flush_order_Forall (P : Order → Prop) s m1 :
  Forall P (orders s) → P m1 → Forall P (orders (flush_order s m1)).
Proof.
  rewrite !Forall_forall. intros Hs Hm1 o Ho.
  unfold flush_order in Ho. cbn in Ho.
  apply list_elem_of_In, in_map_iff in Ho as (r&<-&Hr).
  apply list_elem_of_In in Hr. case_decide; [done|by apply Hs].
Qed.

Lemma loop_step_lifecycle taker t sym price s n m s1 n1 :
  Forall lifecycle (orders s) →
  lifecycle m → o_status m ∈ ACTIVE_ORDER_STATUSES →
  lifecycle n → o_status n ≠ CANCELLED →
  loop_step taker t sym price s n m s1 n1 →
  Forall lifecycle (orders s1) ∧ lifecycle n1 ∧ o_status n1 ≠ CANCELLED.
Proof.
  intros Hs Hm Hact Hn Hnc [m1 s0 Hnz _ Hset Hm1 Hn1 ->].
  destruct (lifecycle_active n Hn Hnc Hnz) as [Hnact Hna].
  assert (1 ≤ o_amount m) as Hma.
  { apply active_status_iff in Hact. unfold lifecycle in Hm.
    destruct Hact as [Hst|Hst]; rewrite Hst in Hm; lia. }
  apply partially_execute_order_lifecycle in Hm1 as [Hm1 _]; [|done|done|lia].
  apply partially_execute_order_lifecycle in Hn1 as [Hn1 Hn1c]; [|done|done|lia].
  split; [|done]. apply flush_order_Forall; [|done].
  by rewrite (settle_orders _ _ _ _ _ _ _ Hset).
Qed.

Lemma match_orders_lifecycle taker s t sym price n cands s' n' :
  Forall lifecycle (orders s) →
  (∀ m, m ∈ cands → lifecycle m ∧ o_status m ∈ ACTIVE_ORDER_STATUSES) →
  lifecycle n → o_status n ≠ CANCELLED →
  match_orders taker s t sym price n cands = inr (s', n') →
  Forall lifecycle (orders s') ∧ lifecycle n'.
Proof.
  revert s n. induction cands as [|m rest IH]; intros s n Hs Hc Hn Hnc.
  { by intros [= <- <-]. }
  intros H. apply match_orders_cons_inr in H
    as [(_&->&->)|[(_&_&->&->)|(s1&n1&Hstep&Hrest)]]; [done..|].
  destruct (Hc m ltac:(left)) as [Hm Hact].
  destruct (loop_step_lifecycle _ _ _ _ _ _ _ _ _ Hs Hm Hact Hn Hnc Hstep)
    as (Hs1&Hn1&Hn1c).
  eapply IH; [done| |done..]. intros m' Hm'. apply Hc. by right.
Qed.

Lemma create_limit_order_lifecycle taker db new_id now sym q price t :
  0 < q → Forall lifecycle (orders db) →
  Forall lifecycle (orders (create_limit_order taker db new_id now sym q price t).1).
Proof.
  intros Hq Hdb.
  destruct (create_limit_order_cases taker db new_id now sym q price t)
    as [(e&_&_&->&_)|[(e&_&_&->)|(s&n&Hm&s1&Hf&_&->)]];
    cbn [fst add_order set_orders orders]; [|done|].
  { apply Forall_app. split; [done|]. apply Forall_singleton.
    unfold lifecycle. cbn. lia. }
  apply freeze_remainder_orders in Hf as [-> _].
  apply match_orders_lifecycle in Hm as [Hs Hn]; [| | |unfold lifecycle; cbn; lia|done].
  - apply Forall_app. split; [done|]. by apply Forall_singleton.
  - done.
  - intros m (Hin&_&_&Hact)%elem_of_get_orders. split; [|done].
    rewrite Forall_forall in Hdb. by apply Hdb.
Qed.

Lemma commit_lifecycle db op :
  Forall lifecycle (orders db) → valid_operation op →
  Forall lifecycle (orders (commit db op)).
Proof.
  intros Hdb Hv. destruct op; cbn [commit valid_operation] in *.
  - rewrite create_order_eq. apply create_limit_order_lifecycle; [lia|done].
  - destruct (cancel_order _ _ _) as [e|[db' [o'|]]] eqn:Hc; [done| |].
    + apply cancel_order_inr_Some in Hc
        as (order&s&Hin&_&_&Hst&_&Hos&_&->&->).
      apply flush_order_Forall; [by rewrite Hos|].
      rewrite Forall_forall in Hdb. apply Hdb in Hin.
      unfold lifecycle in *. cbn. by rewrite Hst in Hin.
    + by apply cancel_order_inr_None in Hc as ->.
  - unfold change_trader_balance.
    destruct (__change_balance _ _ _ _) eqn:Hc; [done|].
    by apply change_balance_orders in Hc as [-> _].
  - unfold change_trader_balance.
    destruct (__change_balance _ _ _ _) eqn:Hc; [done|].
    by apply change_balance_orders in Hc as [-> _].
Qed.

Lemma commits_lifecycle ops db :
  Forall lifecycle (orders db) → Forall valid_operation ops →
  Forall lifecycle (orders (foldl commit db ops)).
Proof.
  revert db. induction ops as [|op ops IH]; intros db Hdb Hv; [done|].
  apply Forall_cons in Hv as [Hop Hops]. cbn. apply IH; [|done].
  by apply commit_lifecycle.
Qed.

(** X7: amount, filled and status stay consistent.  Starting from a table
    in which they are (the empty table is), after any sequence of
    committed operations with schema-valid arguments every stored order
    has filled = 0 when NEW or CANCELLED, amount = 0 when EXECUTED, and
    both at least 1 when PARTIALLY_EXECUTED.  Hence every entry of
    list_orders reports qty >= 1 and 0 <= filled <= qty, is EXECUTED
    exactly when filled = qty, PARTIALLY_EXECUTED exactly when
    0 < filled < qty, and NEW or CANCELLED exactly when filled = 0. *)
Theorem order_lifecycle_is_kept ops db :
  Forall lifecycle (orders db) → Forall valid_operation ops →
  let db' := foldl commit db ops in
  Forall lifecycle (orders db')
  ∧ ∀ isoformat trader_id resp,
      resp ∈ list_orders isoformat db' trader_id →
      let qty := body_qty (resp_body resp) in
      1 ≤ qty ∧ 0 ≤ resp_filled resp ≤ qty
      ∧ (resp_status resp = "EXECUTED" ↔ resp_filled resp = qty)
      ∧ (resp_status resp = "PARTIALLY_EXECUTED" ↔ 0 < resp_filled resp < qty)
      ∧ (resp_status resp = "NEW" ∨ resp_status resp = "CANCELLED"
         ↔ resp_filled resp = 0).
Proof.
  intros Hdb Hv db'. pose proof (commits_lifecycle ops db Hdb Hv) as Hl.
  fold db' in Hl. split; [done|].
  intros iso t resp (o&<-&Hin)%list_elem_of_In%in_map_iff.
  apply list_elem_of_In, elem_of_get_trader_orders in Hin as [Hin _].
  rewrite Forall_forall in Hl. apply Hl in Hin.
  unfold lifecycle in Hin. cbn.
  destruct (o_status o); cbn; split_and!; try lia;
    (split;
     [intros H; try (destruct H as [H|H]); try discriminate H; lia
     |intros H; try reflexivity; try (left; reflexivity);
      try (right; reflexivity); exfalso; lia]).
Qed.

(** ** The trades of a submission *)

Lemma fills_trade_from taker t sym price r cands ts r' :
  fills taker t sym price r cands ts r' →
  (∀ m, m ∈ cands → 1 ≤ o_amount m) → 0 ≤ r →
  sumZ (map t_amount ts) = r - r'
  ∧ Forall (trade_from taker t sym price cands) ts.
Proof.
  induction 1 as [cands|r|r m rest p mp Hr Hl Hm Hb
                 |r m rest mp ts r' Hr Hm Hnb Hrest IH]; intros Hc Hr0;
    [split; [cbn; lia|constructor]..|].
  destruct IH as [IHs IHf].
  { intros m' Hm'. apply Hc. by right. }
  { lia. }
  pose proof (Hc m ltac:(left)) as Hma.
  split; [cbn; fold (sumZ (map t_amount ts)); rewrite IHs; destruct taker; cbn; lia|].
  constructor.
  - unfold trade_from. split_and!.
    + by destruct taker.
    + destruct taker; cbn; lia.
    + by destruct taker.
    + intros p Hp. specialize (Hnb p Hp). unfold beyond_limit in Hnb.
      destruct taker; cbn; lia.
    + exists m. split_and!; [left|by destruct taker|by destruct taker|].
      destruct taker; cbn; lia.
  - eapply Forall_impl; [exact IHf|].
    intros tr (H1&H2&H3&H4&m'&Hin&H5). unfold trade_from.
    split_and!; try done. exists m'. split; [by right|done].
Qed.

(** X8: what a submission journals.  The trades create_order appends are
    all in the ticker of the order, each for at least one unit, with the
    submitter as buyer (BUY) or seller (SELL) and an active order of the
    opposite side of that ticker as counterparty, at that order's price
    and for no more than its amount; for a limit order no trade is priced
    beyond the limit (above it for a BUY, below it for a SELL).  The
    amounts of these trades add up to the [filled] of the returned order;
    a submission recorded as CANCELLED journals nothing, and neither does
    one that an exception leaves. *)
Theorem submission_trades_respect_the_limit db new_id now direction ticker qty price trader_id :
  wf_db db → 0 < qty →
  let r := create_order db new_id now direction ticker qty price trader_id in
  ∃ ts, trades r.1 = trades db ++ ts
    ∧ (∀ order, r.2 = inr order →
         sumZ (map t_amount ts) = o_filled order
         ∧ (o_status order = CANCELLED → ts = []))
    ∧ (∀ e, r.2 = inl e → ts = [])
    ∧ Forall (trade_from (side_of direction) trader_id ticker (price_column price)
                (book db ticker (opposite (side_of direction)))) ts.
Proof.
  intros Hwf Hq r. subst r. rewrite create_order_eq.
  set (taker := side_of direction). set (p := price_column price).
  destruct (create_limit_order_cases taker db new_id now ticker qty p trader_id)
    as [(e&_&_&->&_)|[(e&_&_&->)|(s&n&Hm&s1&Hf&_&->)]].
  { exists []. cbn. rewrite app_nil_r. split_and!; try done.
    by intros order [= <-]. }
  { exists []. cbn. rewrite app_nil_r. split_and!; done. }
  cbn [fst snd add_order set_orders trades].
  pose proof (match_orders_tracks _ _ _ _ _ _ _ _ _ _ (tracks_refl _) Hm) as Htr.
  pose proof (committed_not_cancelled _ _ _ _ _ _ _ _ _ _ Hm) as Hnc.
  apply freeze_remainder_orders in Hf as [_ ->].
  apply match_orders_fills in Hm as (ts&Hts&Hfills).
  exists ts. split; [done|].
  apply fills_trade_from in Hfills as [Hsum Hall]; [| |cbn; lia].
  2:{ intros m (Hin&_&_&Hact)%elem_of_get_orders.
      by destruct (wf_active _ Hwf m Hin Hact) as [? _]. }
  split_and!; [|done|].
  - intros order [= <-]. split; [|done].
    pose proof (tracks_original _ _ Htr) as Ho.
    unfold original_amount in Ho. cbn in Ho, Hsum. lia.
  - eapply Forall_impl; [exact Hall|].
    intros tr (H1&H2&H3&H4&m&Hin&H5). unfold trade_from.
    split_and!; try done. exists m. split; [|done].
    unfold __get_orders in Hin. by apply subseteq_take in Hin.
Qed.

(** ** Holdings against the trade journal *)

(** Closes the cases left by a case analysis on the guards: arithmetic, or
    guards that contradict each other. *)
Ltac cases_done :=
  first [lia | congruence | tauto | intuition congruence | intuition lia].

Lemma sumZ_cons x l : sumZ (x :: l) = x + sumZ l.
Proof. reflexivity. Qed.

Lemma sumZ_Permutation l l' : l ≡ₚ l' → sumZ l = sumZ l'.
Proof. induction 1; rewrite ?sumZ_cons; lia. Qed.

Lemma sumZ_nonneg l : Forall (λ x, 0 ≤ x) l → 0 ≤ sumZ l.
Proof. induction 1; rewrite ?sumZ_cons; [done|lia]. Qed.

Lemma sumZ_app l1 l2 : sumZ (l1 ++ l2) = sumZ l1 + sumZ l2.
Proof. unfold sumZ. induction l1 as [|x l1 IH]; cbn; lia. Qed.

Lemma sumZ_map_app {A} (f : A → Z) l1 l2 :
  sumZ (map f (l1 ++ l2)) = sumZ (map f l1) + sumZ (map f l2).
Proof. by rewrite map_app, sumZ_app. Qed.

Lemma sumZ_map_split {A} (f : A → Z) l1 x l2 :
  sumZ (map f (l1 ++ x :: l2)) = sumZ (map f l1) + f x + sumZ (map f l2).
Proof. rewrite sumZ_map_app. cbn [map]. rewrite sumZ_cons. lia. Qed.

Lemma sumZ_map_nonneg {A} (f : A → Z) l :
  (∀ x, x ∈ l → 0 ≤ f x) → 0 ≤ sumZ (map f l).
Proof.
  intros Hf. apply sumZ_nonneg, Forall_forall. intros y Hy.
  apply list_elem_of_In, in_map_iff in Hy as (x&<-&Hx).
  apply Hf. by apply list_elem_of_In.
Qed.

Lemma sumZ_map_elem {A} (f : A → Z) l x :
  (∀ y, y ∈ l → 0 ≤ f y) → x ∈ l → f x ≤ sumZ (map f l).
Proof.
  intros Hf Hx. destruct (list_elem_of_split _ _ Hx) as (l1&l2&->).
  rewrite sumZ_map_split.
  assert (0 ≤ sumZ (map f l1)).
  { apply sumZ_map_nonneg. intros y Hy. apply Hf, elem_of_app. by left. }
  assert (0 ≤ sumZ (map f l2)).
  { apply sumZ_map_nonneg. intros y Hy. apply Hf, elem_of_app. right. by right. }
  lia.
Qed.

(** *** Sums over the rows of a table *)

Lemma total_insert_fresh `{Countable K} (w : K → float → Z) (m : gmap K float) k v :
  m !! k = None → total w (<[k := v]> m) = w k v + total w m.
Proof.
  intros Hk. unfold total.
  rewrite (sumZ_Permutation _ (map (λ kv, w kv.1 kv.2) ((k, v) :: map_to_list m))).
  - reflexivity.
  - apply Permutation_map. by apply map_to_list_insert.
Qed.

Lemma total_delete `{Countable K} (w : K → float → Z) (m : gmap K float) k v :
  m !! k = Some v → total w m = w k v + total w (delete k m).
Proof.
  intros Hk. rewrite <- (insert_id m k v) at 1 by done.
  rewrite <- insert_delete_eq. apply total_insert_fresh, lookup_delete_eq.
Qed.

Lemma total_insert `{Countable K} (w : K → float → Z) (m : gmap K float) k v v' :
  m !! k = Some v → total w (<[k := v']> m) = total w m - w k v + w k v'.
Proof.
  intros Hk. rewrite <- insert_delete_eq.
  rewrite total_insert_fresh by apply lookup_delete_eq.
  rewrite (total_delete w m k v) by done. lia.
Qed.

Lemma total_nonneg `{Countable K} (w : K → float → Z) (m : gmap K float) :
  (∀ k v, m !! k = Some v → 0 ≤ w k v) → 0 ≤ total w m.
Proof.
  intros Hw. apply sumZ_map_nonneg. intros [k v] Hkv. cbn.
  by apply Hw, elem_of_map_to_list.
Qed.

Lemma total_one `{Countable K} (w : K → float → Z) (m : gmap K float) k v :
  (∀ k v, m !! k = Some v → 0 ≤ w k v) → m !! k = Some v → w k v ≤ total w m.
Proof.
  intros Hw Hk. rewrite (total_delete w m k v) by done.
  assert (0 ≤ total w (delete k m)); [|lia].
  apply total_nonneg. intros k' v' [_ ?]%lookup_delete_Some. by eapply Hw.
Qed.

Lemma total_two `{Countable K} (w : K → float → Z) (m : gmap K float) k1 v1 k2 v2 :
  (∀ k v, m !! k = Some v → 0 ≤ w k v) → k1 ≠ k2 →
  m !! k1 = Some v1 → m !! k2 = Some v2 → w k1 v1 + w k2 v2 ≤ total w m.
Proof.
  intros Hw Hne Hk1 Hk2. rewrite (total_delete w m k1 v1) by done.
  assert (w k2 v2 ≤ total w (delete k1 m)); [|lia].
  apply total_one.
  - intros k' v' [_ ?]%lookup_delete_Some. by eapply Hw.
  - by rewrite lookup_delete_ne.
Qed.

Lemma total_le `{Countable K} (w w' : K → float → Z) (m : gmap K float) :
  (∀ k v, m !! k = Some v → w k v ≤ w' k v) → total w m ≤ total w' m.
Proof.
  intros Hw. unfold total.
  assert (∀ l : list (K * float), (∀ kv, kv ∈ l → m !! kv.1 = Some kv.2) →
            sumZ (map (λ kv, w kv.1 kv.2) l) ≤ sumZ (map (λ kv, w' kv.1 kv.2) l))
    as Hl.
  { induction l as [|kv l IH]; intros Hin; cbn [map]; rewrite ?sumZ_cons; [done|].
    pose proof (Hw _ _ (Hin kv ltac:(left))).
    assert (sumZ (map (λ kv, w kv.1 kv.2) l) ≤ sumZ (map (λ kv, w' kv.1 kv.2) l));
      [|lia].
    apply IH. intros kv' Hkv'. apply Hin. by right. }
  apply Hl. intros [k v] Hkv. by apply elem_of_map_to_list.
Qed.

(** *** What the supply bounds *)

Lemma counted_value b : counted b → 0 ≤ float_value b.
Proof. by intros (z&->&?). Qed.

Lemma locked_money_nonneg s o : wf_db s → o ∈ orders s → 0 ≤ locked_money o.
Proof.
  intros Hwf Hin. unfold locked_money. case_bool_decide as H; [|done].
  destruct H as [_ Hact].
  destruct (wf_active s Hwf o Hin Hact) as (Ha&p&->&Hp). cbn. nia.
Qed.

Lemma locked_units_nonneg s sym o : wf_db s → o ∈ orders s → 0 ≤ locked_units sym o.
Proof.
  intros Hwf Hin. unfold locked_units. case_bool_decide as H; [|done].
  destruct H as (_&_&Hact).
  destruct (wf_active s Hwf o Hin Hact) as (Ha&_). lia.
Qed.

Lemma units_in_nonneg sym k q : counted q → 0 ≤ units_in sym k q.
Proof. intros (z&->&?). unfold units_in. by case_decide. Qed.

Lemma balance_locked_bound s t b m :
  wf_db s → within_supply s → traders s !! t = Some b → m ∈ orders s →
  float_value b + locked_money m ≤ 2 ^ 52.
Proof.
  intros Hwf [Hb _ Hmoney _] Ht Hm. unfold money_supply in Hmoney.
  pose proof (total_one (λ _ b, float_value b) (traders s) t b
                (λ k v Hk, counted_value v (Hb k v Hk)) Ht) as H1.
  pose proof (sumZ_map_elem locked_money (orders s) m
                (λ o Ho, locked_money_nonneg s o Hwf Ho) Hm) as H2.
  cbn in H1. lia.
Qed.

Lemma balances_bound s t1 b1 t2 b2 :
  wf_db s → within_supply s → t1 ≠ t2 →
  traders s !! t1 = Some b1 → traders s !! t2 = Some b2 →
  float_value b1 + float_value b2 ≤ 2 ^ 52.
Proof.
  intros Hwf [Hb _ Hmoney _] Hne Ht1 Ht2. unfold money_supply in Hmoney.
  pose proof (total_two (λ _ b, float_value b) (traders s) t1 b1 t2 b2
                (λ k v Hk, counted_value v (Hb k v Hk)) Hne Ht1 Ht2) as H1.
  pose proof (sumZ_map_nonneg locked_money (orders s)
                (λ o Ho, locked_money_nonneg s o Hwf Ho)) as H2.
  cbn in H1. lia.
Qed.

Lemma position_locked_bound s t sym q m :
  wf_db s → within_supply s → positions s !! (t, sym) = Some q → m ∈ orders s →
  float_value q + locked_units sym m ≤ 2 ^ 52.
Proof.
  intros Hwf [_ Hq _ Hunits] Ht Hm. specialize (Hunits sym).
  unfold units_supply in Hunits.
  pose proof (total_one (units_in sym) (positions s) (t, sym) q
                (λ k v Hk, units_in_nonneg sym k v (Hq k v Hk)) Ht) as H1.
  pose proof (sumZ_map_elem (locked_units sym) (orders s) m
                (λ o Ho, locked_units_nonneg s sym o Hwf Ho) Hm) as H2.
  unfold units_in in H1 at 1. cbn in H1. rewrite decide_True in H1 by done. lia.
Qed.

Lemma positions_bound s t1 q1 t2 q2 sym :
  wf_db s → within_supply s → t1 ≠ t2 →
  positions s !! (t1, sym) = Some q1 → positions s !! (t2, sym) = Some q2 →
  float_value q1 + float_value q2 ≤ 2 ^ 52.
Proof.
  intros Hwf [_ Hq _ Hunits] Hne Ht1 Ht2. specialize (Hunits sym).
  unfold units_supply in Hunits.
  pose proof (total_two (units_in sym) (positions s) (t1, sym) q1 (t2, sym) q2
                (λ k v Hk, units_in_nonneg sym k v (Hq k v Hk))
                ltac:(congruence) Ht1 Ht2) as H1.
  pose proof (sumZ_map_nonneg (locked_units sym) (orders s)
                (λ o Ho, locked_units_nonneg s sym o Hwf Ho)) as H2.
  unfold units_in in H1 at 1 2. cbn in H1. rewrite !decide_True in H1 by done. lia.
Qed.

(** Every row leaves room for another 2^52. *)
Lemma within_supply_room s : wf_db s → within_supply s → room s (2 ^ 52) (2 ^ 52).
Proof.
  intros Hwf Hs. pose proof Hs as [Hb Hq Hmoney Hunits]. split.
  - intros k b Hk. destruct (Hb _ _ Hk) as (z&->&Hz). exists z.
    split_and!; [done..|].
    pose proof (total_one (λ _ b, float_value b) (traders s) k (Num z)
                  (λ k v Hk, counted_value v (Hb k v Hk)) Hk) as H1.
    pose proof (sumZ_map_nonneg locked_money (orders s)
                  (λ o Ho, locked_money_nonneg s o Hwf Ho)) as H2.
    unfold money_supply in Hmoney. cbn in H1.
    change (2 ^ 53) with (2 ^ 52 + 2 ^ 52). lia.
  - intros [t sym] q Hk. destruct (Hq _ _ Hk) as (z&->&Hz). exists z.
    split_and!; [done..|].
    pose proof (total_one (units_in sym) (positions s) (t, sym) (Num z)
                  (λ k v Hk, units_in_nonneg sym k v (Hq k v Hk)) Hk) as H1.
    pose proof (sumZ_map_nonneg (locked_units sym) (orders s)
                  (λ o Ho, locked_units_nonneg s sym o Hwf Ho)) as H2.
    specialize (Hunits sym). unfold units_supply in Hunits.
    unfold units_in in H1 at 1. cbn in H1. rewrite decide_True in H1 by done.
    change (2 ^ 53) with (2 ^ 52 + 2 ^ 52). lia.
Qed.

Lemma total_insert2 `{Countable K} (w : K → float → Z) (m : gmap K float)
    k1 v1 v1' k2 v2 v2' :
  m !! k1 = Some v1 → <[k1 := v1']> m !! k2 = Some v2 →
  total w (<[k2 := v2']> (<[k1 := v1']> m))
  = total w m - w k1 v1 + w k1 v1' - w k2 v2 + w k2 v2'.
Proof.
  intros H1 H2. rewrite (total_insert w _ k2 v2) by done.
  rewrite (total_insert w m k1 v1) by done. lia.
Qed.

(** *** One settlement *)

Lemma partially_execute_order_frozen m q m1 :
  partially_execute_order m q = inr m1 →
  o_status m ∈ ACTIVE_ORDER_STATUSES →
  (∀ t sym, frozen_units t sym m1
     = frozen_units t sym m
       - (if bool_decide (o_trader_id m = t ∧ o_symbol_ticker m = sym
                          ∧ o_direction m = ASK) then q else 0))
  ∧ (∀ t, frozen_money t m1
     = frozen_money t m
       - (if bool_decide (o_trader_id m = t ∧ o_direction m = BID)
          then q * default 0 (o_price m) else 0))
  ∧ (∀ sym, locked_units sym m1
     = locked_units sym m
       - (if bool_decide (o_symbol_ticker m = sym ∧ o_direction m = ASK)
          then q else 0))
  ∧ locked_money m1
    = locked_money m
      - (if bool_decide (o_direction m = BID) then q * default 0 (o_price m) else 0).
Proof.
  intros [_ ->]%partially_execute_order_inr Hact.
  unfold frozen_units, frozen_money, locked_units, locked_money. cbn.
  split_and!; intros; repeat case_bool_decide; try lia;
    rewrite ?active_status_iff in *; cases_done.
Qed.

(** Within the supply a settlement computes in the integers: the rows
    stay natural numbers and move by the units and the money of the
    trade. *)
Lemma settle_accounting taker s T sym m x s0 :
  wf_db s → within_supply s → m ∈ orders s →
  o_symbol_ticker m = sym → o_direction m = opposite taker →
  o_status m ∈ ACTIVE_ORDER_STATUSES → 0 ≤ x ≤ o_amount m →
  settle taker s T sym m x = inr s0 →
  ∃ mp, o_price m = Some mp
    ∧ trades s0 = trades s ++ [trade_of taker T sym m x mp]
    ∧ orders s0 = orders s
    ∧ (∀ t b, traders s0 !! t = Some b → counted b)
    ∧ (∀ k q, positions s0 !! k = Some q → counted q)
    ∧ (∀ t sym', row_value (positions s0 !! (t, sym'))
         = row_value (positions s !! (t, sym'))
           + match taker with
             | BID => if bool_decide (T = t ∧ sym = sym') then x else 0
             | ASK => (if bool_decide (o_trader_id m = t ∧ sym = sym') then x else 0)
                      - (if bool_decide (T = t ∧ sym = sym') then x else 0)
             end)
    ∧ (∀ t, row_value (traders s0 !! t)
         = row_value (traders s !! t)
           + match taker with
             | BID => (if bool_decide (o_trader_id m = t) then x * mp else 0)
                      - (if bool_decide (T = t) then x * mp else 0)
             | ASK => if bool_decide (T = t) then x * mp else 0
             end)
    ∧ total (λ _ b, float_value b) (traders s0)
      = total (λ _ b, float_value b) (traders s)
        + match taker with BID => 0 | ASK => x * mp end
    ∧ (∀ sym', total (units_in sym') (positions s0)
         = total (units_in sym') (positions s)
           + match taker with
             | BID => if bool_decide (sym = sym') then x else 0
             | ASK => 0
             end).
Proof.
  intros Hwf Hsup Hin Hsym Hdir Hact Hx Hs.
  pose proof (within_supply_room s Hwf Hsup) as Hroom.
  pose proof Hsup as [Hcb Hcq _ _].
  destruct (wf_active s Hwf m Hin Hact) as (Ham&mp&Hmp&Hmp1).
  exists mp. split; [done|].
  destruct taker; unfold settle in Hs; cbn [opposite] in Hdir.
  - (* the taker sells to the resting BID [m] *)
    pose proof Hs as (p&sq&sb&bq&?&?&?&Hp&Hsq&Hsb&Hbq&Hlt&_)%sell_inr.
    assert (p = mp) as -> by congruence.
    destruct (Hcq _ _ Hsq) as (zsq&->&?), (Hcb _ _ Hsb) as (zsb&->&?),
      (Hcq _ _ Hbq) as (zbq&->&?).
    apply lt_int_Num_false in Hlt.
    pose proof (balance_locked_bound s T (Num zsb) m Hwf Hsup Hsb Hin) as Hbound.
    pose proof (position_locked_bound s T sym (Num zsq) m Hwf Hsup Hsq Hin) as Hq.
    assert (locked_money m = o_amount m * mp) as Hlm.
    { unfold locked_money. rewrite bool_decide_eq_true_2 by done.
      by rewrite Hmp. }
    assert (0 ≤ locked_units sym m) by by eapply locked_units_nonneg.
    cbn [float_value] in Hbound, Hq.
    rewrite Hmp in Hs.
    rewrite (sell_exact s T (o_trader_id m) sym mp x (2 ^ 52) (2 ^ 52) zsq zsb zbq)
      in Hs; [|done|lia|lia|nia|lia|done..].
    injection Hs as <-. cbn [trades orders traders positions].
    split; [done|]. split; [done|].
    split_and!.
    + intros t b. rewrite lookup_insert. case_decide.
      * intros [= <-]. exists (zsb + x * mp). split; [done|]. nia.
      * apply Hcb.
    + intros k q. rewrite lookup_insert. case_decide.
      { intros [= <-]. eexists. split; [done|]. case_decide; lia. }
      rewrite lookup_insert. case_decide.
      { intros [= <-]. eexists. split; [done|]. lia. }
      apply Hcq.
    + intros t sym'. rewrite !lookup_insert.
      repeat (case_decide || case_bool_decide); simplify_eq;
        rewrite ?Hsq, ?Hbq; cbn; cases_done.
    + intros t. rewrite !lookup_insert.
      repeat (case_decide || case_bool_decide); simplify_eq;
        rewrite ?Hsb; cbn; cases_done.
    + rewrite (total_insert _ _ T (Num zsb)) by done. cbn. lia.
    + intros sym'.
      assert (<[(T, sym) := Num (zsq - x)]> (positions s) !! (o_trader_id m, sym)
              = Some (Num (if decide (o_trader_id m = T) then zsq - x else zbq)))
        as Hmid.
      { rewrite lookup_insert. destruct (decide (o_trader_id m = T)) as [->|Hne].
        - by rewrite decide_True.
        - rewrite decide_False by congruence. done. }
      rewrite (total_insert2 _ _ (T, sym) (Num zsq) _ (o_trader_id m, sym)
                 (Num (if decide (o_trader_id m = T) then zsq - x else zbq)))
        by done.
      clear Hmid. unfold units_in. cbn.
      destruct (decide (sym = sym')); [|lia].
      destruct (decide (o_trader_id m = T)); lia.
  - (* the taker buys from the resting ASK [m] *)
    pose proof Hs as (p&bb&sb&pq&?&?&?&Hp&Hb&Hsb&Hpq&Hlt&_)%buy_inr.
    assert (p = mp) as -> by congruence.
    destruct (Hcb _ _ Hb) as (zb&->&?), (Hcb _ _ Hsb) as (zs&->&?),
      (Hcq _ _ Hpq) as (zq&->&?).
    apply lt_int_Num_false in Hlt.
    pose proof (position_locked_bound s T sym (Num zq) m Hwf Hsup Hpq Hin) as Hq.
    assert (locked_units sym m = o_amount m) as Hlu.
    { unfold locked_units. by rewrite bool_decide_eq_true_2. }
    destruct Hroom as [Hrt Hrp].
    destruct (Hrt _ _ Hb) as (?&[= <-]&_&?).
    cbn [float_value] in Hq.
    rewrite Hmp in Hs.
    rewrite (buy_exact s (o_trader_id m) T sym mp x (2 ^ 52) (2 ^ 52) zb zs zq)
      in Hs; [|done|lia|lia|lia|lia|done..].
    injection Hs as <-. cbn [trades orders traders positions].
    split; [done|]. split; [done|].
    split_and!.
    + intros t b. rewrite lookup_insert. case_decide.
      { intros [= <-]. eexists. split; [done|]. case_decide; simplify_eq; nia. }
      rewrite lookup_insert. case_decide.
      { intros [= <-]. eexists. split; [done|]. nia. }
      apply Hcb.
    + intros k q. rewrite lookup_insert. case_decide.
      * intros [= <-]. eexists. split; [done|]. lia.
      * apply Hcq.
    + intros t sym'. rewrite !lookup_insert.
      repeat (case_decide || case_bool_decide); simplify_eq;
        rewrite ?Hpq; cbn; cases_done.
    + intros t. rewrite !lookup_insert.
      repeat (case_decide || case_bool_decide); simplify_eq;
        rewrite ?Hb, ?Hsb; cbn; cases_done.
    + assert (<[o_trader_id m := Num (zs + x * mp)]> (traders s) !! T
              = Some (Num (if decide (T = o_trader_id m) then zs + x * mp else zb)))
        as Hmid.
      { rewrite lookup_insert. destruct (decide (T = o_trader_id m)) as [->|Hne].
        - by rewrite decide_True.
        - rewrite decide_False by congruence. done. }
      rewrite (total_insert2 _ _ (o_trader_id m) (Num zs) _ T
                 (Num (if decide (T = o_trader_id m) then zs + x * mp else zb)))
        by done.
      clear Hmid. cbn. destruct (decide (T = o_trader_id m)); lia.
    + intros sym'. rewrite (total_insert _ _ (T, sym) (Num zq)) by done.
      unfold units_in. cbn. case_decide; case_bool_decide; cases_done.
Qed.

(** *** The matching loop *)

Lemma within_supply_same s s' :
  (∀ t b, traders s' !! t = Some b → counted b) →
  (∀ k q, positions s' !! k = Some q → counted q) →
  money_supply s' = money_supply s →
  (∀ sym, units_supply s' sym = units_supply s sym) →
  within_supply s → within_supply s'.
Proof.
  intros Hb Hq Hm Hu [_ _ Hmoney Hunits].
  split; [done..|by rewrite Hm|]. intros sym. by rewrite Hu.
Qed.

Lemma loop_step_accounting taker T sym price s n m rest s1 n1 :
  wf_db s → within_supply s → 0 ≤ o_amount n →
  live_rows (orders s) (m :: rest) →
  o_symbol_ticker m = sym → o_direction m = opposite taker →
  o_status m ∈ ACTIVE_ORDER_STATUSES →
  loop_step taker T sym price s n m s1 n1 →
  wf_db s1 ∧ within_supply s1 ∧ 0 ≤ o_amount n1
  ∧ money_supply s1 = money_supply s
  ∧ (∀ sym', units_supply s1 sym' = units_supply s sym')
  ∧ ∃ tr, trades s1 = trades s ++ [tr]
      ∧ (∀ t sym', holdings s1 t sym' = holdings s t sym' + units_received t sym' tr)
      ∧ (∀ t, funds s1 t = funds s t + money_received t tr).
Proof.
  intros Hwf Hsup Hn Hlive Hsym Hdir Hact Hstep.
  assert (m ∈ orders s) as Hin by (apply Hlive; left).
  pose proof (wf_active s Hwf m Hin Hact) as Hok.
  pose proof (wf_columns s Hwf m Hin) as Hfit.
  destruct (loop_step_wf _ _ _ _ _ _ _ _ _ Hwf Hok Hfit Hn Hstep) as [Hwf1 Hn1].
  destruct (loop_step_live _ _ _ _ _ _ _ _ _ _ Hlive Hstep)
    as (_&l1&l2&m1&Hrows&Hrows1&Hm).
  destruct Hstep as [m1' s0 _ _ Hs _ _ Hs1].
  assert (positions s1 = positions s0 ∧ traders s1 = traders s0
          ∧ trades s1 = trades s0) as (Hp1&Ht1&Hj1) by by subst s1.
  clear Hs1 m1'. destruct Hok as [Ham _].
  apply settle_accounting in Hs
    as (mp&Hmp&Htr&_&Hcb&Hcq&Hpos&Hbal&Hmoney&Hunits); [|done..|lia].
  destruct (partially_execute_order_frozen _ _ _ Hm Hact) as (Hfu&Hfm&Hlu&Hlm).
  assert (money_supply s1 = money_supply s) as Hms.
  { unfold money_supply.
    rewrite Ht1, Hrows, Hrows1, !sumZ_map_split, Hmoney, Hlm, Hdir, Hmp.
    destruct taker; cbn;
      [rewrite bool_decide_eq_true_2 by done|rewrite bool_decide_eq_false_2 by done];
      lia. }
  assert (∀ sym', units_supply s1 sym' = units_supply s sym') as Hus.
  { intros sym'. unfold units_supply.
    rewrite Hp1, Hrows, Hrows1, !sumZ_map_split, Hunits, Hlu, Hsym, Hdir.
    destruct taker; cbn; repeat case_bool_decide; cases_done. }
  split; [done|]. split.
  { apply (within_supply_same s); [by rewrite Ht1|by rewrite Hp1|done..]. }
  split; [done|]. split; [done|]. split; [done|].
  exists (trade_of taker T sym m (Z.min (o_amount m) (o_amount n)) mp).
  split; [by rewrite Hj1|]. split.
  - intros t sym'. unfold holdings.
    rewrite Hp1, Hrows, Hrows1, !sumZ_map_split, Hpos, Hfu, Hsym, Hdir.
    unfold units_received, trade_of. destruct taker; cbn;
      repeat case_bool_decide; cases_done.
  - intros t. unfold funds.
    rewrite Ht1, Hrows, Hrows1, !sumZ_map_split, Hbal, Hfm, Hdir, Hmp.
    unfold money_received, trade_of. destruct taker; cbn;
      repeat case_bool_decide; cases_done.
Qed.

Lemma match_orders_accounting taker T sym price s n cands s' n' :
  wf_db s → within_supply s → 0 ≤ o_amount n →
  live_rows (orders s) cands →
  (∀ m, m ∈ cands → o_symbol_ticker m = sym ∧ o_direction m = opposite taker
                    ∧ o_status m ∈ ACTIVE_ORDER_STATUSES) →
  match_orders taker s T sym price n cands = inr (s', n') →
  wf_db s' ∧ within_supply s' ∧ 0 ≤ o_amount n'
  ∧ money_supply s' = money_supply s
  ∧ (∀ sym', units_supply s' sym' = units_supply s sym')
  ∧ ∃ ts, trades s' = trades s ++ ts
      ∧ (∀ t sym', holdings s' t sym' = holdings s t sym' + net_units ts t sym')
      ∧ (∀ t, funds s' t = funds s t + net_money ts t).
Proof.
  revert s n. induction cands as [|m rest IH]; intros s n Hwf Hsup Hn Hlive Hc.
  { intros [= <- <-]. split_and!; [done..|]. exists []. rewrite app_nil_r.
    unfold net_units, net_money. cbn. split_and!; [done|intros; lia..]. }
  intros H. apply match_orders_cons_inr in H
    as [(_&->&->)|[(_&_&->&->)|(s1&n1&Hstep&Hrest)]].
  1,2: split_and!; [done..|]; exists []; rewrite app_nil_r;
       unfold net_units, net_money; cbn; split_and!; [done|intros; lia..].
  destruct (Hc m ltac:(left)) as (Hsym&Hdir&Hact).
  destruct (loop_step_live _ _ _ _ _ _ _ _ _ _ Hlive Hstep) as (Hlive1&_).
  destruct (loop_step_accounting _ _ _ _ _ _ _ _ _ _ Hwf Hsup Hn Hlive Hsym Hdir
              Hact Hstep) as (Hwf1&Hsup1&Hn1&Hms&Hus&tr&Htr&Hh&Hf).
  apply IH in Hrest as (Hwf'&Hsup'&Hn'&Hms'&Hus'&ts&Hts&Hh'&Hf'); [|done..|].
  2:{ intros m' Hm'. apply Hc. by right. }
  split_and!; [done..|by rewrite Hms'| |].
  { intros sym'. by rewrite Hus'. }
  exists (tr :: ts). split_and!.
  - rewrite Hts, Htr, <- app_assoc. done.
  - intros t sym'. rewrite Hh', Hh. unfold net_units. cbn [map].
    rewrite sumZ_cons. lia.
  - intros t. rewrite Hf', Hf. unfold net_money. cbn [map].
    rewrite sumZ_cons. lia.
Qed.

(** *** The remainder and the new row *)

Lemma holdings_add_order s o t sym :
  holdings (add_order s o) t sym = holdings s t sym + frozen_units t sym o.
Proof.
  unfold holdings. cbn [add_order set_orders orders positions].
  rewrite sumZ_map_app. cbn [map]. rewrite sumZ_cons. cbn. lia.
Qed.

Lemma funds_add_order s o t :
  funds (add_order s o) t = funds s t + frozen_money t o.
Proof.
  unfold funds. cbn [add_order set_orders orders traders].
  rewrite sumZ_map_app. cbn [map]. rewrite sumZ_cons. cbn. lia.
Qed.

Lemma money_supply_add_order s o :
  money_supply (add_order s o) = money_supply s + locked_money o.
Proof.
  unfold money_supply. cbn [add_order set_orders orders traders].
  rewrite sumZ_map_app. cbn [map]. rewrite sumZ_cons. cbn. lia.
Qed.

Lemma units_supply_add_order s o sym :
  units_supply (add_order s o) sym = units_supply s sym + locked_units sym o.
Proof.
  unfold units_supply. cbn [add_order set_orders orders positions].
  rewrite sumZ_map_app. cbn [map]. rewrite sumZ_cons. cbn. lia.
Qed.

Lemma frozen_inactive o :
  o_status o ∉ ACTIVE_ORDER_STATUSES →
  (∀ t sym, frozen_units t sym o = 0) ∧ (∀ t, frozen_money t o = 0)
  ∧ (∀ sym, locked_units sym o = 0) ∧ locked_money o = 0.
Proof.
  intros Hst. unfold frozen_units, frozen_money, locked_units, locked_money.
  split_and!; intros; case_bool_decide; tauto.
Qed.

(** A row that is not matched against changes nothing. *)
Lemma add_inactive_accounting s o :
  o_status o ∉ ACTIVE_ORDER_STATUSES → within_supply s →
  within_supply (add_order s o)
  ∧ money_supply (add_order s o) = money_supply s
  ∧ (∀ sym, units_supply (add_order s o) sym = units_supply s sym)
  ∧ (∀ t sym, holdings (add_order s o) t sym = holdings s t sym)
  ∧ (∀ t, funds (add_order s o) t = funds s t).
Proof.
  intros Hst Hsup. destruct (frozen_inactive o Hst) as (Hu&Hm&Hlu&Hlm).
  assert (money_supply (add_order s o) = money_supply s) as Hms
    by (rewrite money_supply_add_order; lia).
  assert (∀ sym, units_supply (add_order s o) sym = units_supply s sym) as Hus
    by (intros; rewrite units_supply_add_order, Hlu; lia).
  split_and!; [|done..| |].
  - apply (within_supply_same s); [apply Hsup..|done|done|done].
  - intros. rewrite holdings_add_order, Hu. lia.
  - intros. rewrite funds_add_order, Hm. lia.
Qed.

Lemma freeze_remainder_accounting taker s T sym n s1 :
  wf_db s → within_supply s → sym ≠ BASE_CURRENCY_TICKER →
  o_trader_id n = T → o_symbol_ticker n = sym → o_direction n = taker →
  o_status n ≠ CANCELLED → 0 ≤ o_amount n →
  match o_price n with Some p => 0 < p | None => True end →
  freeze_remainder taker s T sym n = inr s1 →
  trades s1 = trades s
  ∧ within_supply (add_order s1 n)
  ∧ money_supply (add_order s1 n) = money_supply s
  ∧ (∀ sym', units_supply (add_order s1 n) sym' = units_supply s sym')
  ∧ (∀ t sym', holdings (add_order s1 n) t sym' = holdings s t sym')
  ∧ (∀ t, funds (add_order s1 n) t = funds s t).
Proof.
  intros Hwf Hsup Hbase Htr Hsym Hdir Hnc Hn Hprice. unfold freeze_remainder.
  case_bool_decide as Hex.
  2:{ intros [= <-]. split; [done|]. apply add_inactive_accounting; [|done].
      rewrite active_status_iff. destruct (o_status n); intuition congruence. }
  assert (o_status n ∈ ACTIVE_ORDER_STATUSES) as Hact.
  { rewrite active_status_iff. destruct (o_status n); tauto. }
  destruct (o_price n) as [p|] eqn:Hp; [|done].
  pose proof (within_supply_room s Hwf Hsup) as [Hrt Hrp].
  pose proof Hsup as [Hcb Hcq _ _].
  assert (0 ≤ o_amount n * p) as Ha by nia.
  destruct taker.
  - (* ASK: the units of the remainder leave the position *)
    intros [[? _]|(_&_&q&q'&Hq&Hlt&Hsub&->)]%freeze_balance_inr; [done|].
    destruct (Hrp _ _ Hq) as (zq&->&?&?). apply lt_int_Num_false in Hlt.
    rewrite sub_int_exact in Hsub by lia. injection Hsub as <-.
    assert (locked_money n = 0) as Hlm.
    { unfold locked_money. rewrite bool_decide_eq_false_2; [done|].
      intros [? _]. congruence. }
    assert (∀ sym', locked_units sym' n
                    = if decide (sym = sym') then o_amount n else 0) as Hlu.
    { intros sym'. unfold locked_units. rewrite Hsym.
      case_bool_decide; case_decide; cases_done. }
    assert (money_supply (add_order (set_positions s
              (<[(T, sym) := Num (zq - o_amount n)]> (positions s))) n)
            = money_supply s) as Hms.
    { rewrite money_supply_add_order, Hlm. unfold money_supply.
      cbn [set_positions traders orders]. lia. }
    assert (∀ sym', units_supply (add_order (set_positions s
              (<[(T, sym) := Num (zq - o_amount n)]> (positions s))) n) sym'
            = units_supply s sym') as Hus.
    { intros sym'. rewrite units_supply_add_order, Hlu. unfold units_supply.
      cbn [set_positions positions orders].
      rewrite (total_insert _ _ (T, sym) (Num zq)) by done.
      unfold units_in. cbn. case_decide; lia. }
    split; [done|]. split.
    { apply (within_supply_same s); [apply Hcb| |done..].
      intros k q0. cbn. rewrite lookup_insert. case_decide.
      - intros [= <-]. eexists. split; [done|]. lia.
      - apply Hcq. }
    split; [done|]. split; [done|].
    split; intros; rewrite ?holdings_add_order, ?funds_add_order;
      unfold holdings, funds, frozen_units, frozen_money;
      cbn [set_positions orders positions traders];
      rewrite ?lookup_insert;
      repeat (case_decide || case_bool_decide); simplify_eq;
      rewrite ?Hq; cbn; cases_done.
  - (* BID: amount * price of the remainder leaves the balance *)
    intros [(_&b&b'&Hb&Hlt&Hsub&->)|[? _]]%freeze_balance_inr; [|done].
    destruct (Hrt _ _ Hb) as (zb&->&?&?). apply lt_int_Num_false in Hlt.
    rewrite sub_int_exact in Hsub by lia. injection Hsub as <-.
    assert (locked_money n = o_amount n * p) as Hlm.
    { unfold locked_money. rewrite bool_decide_eq_true_2 by done.
      by rewrite Hp. }
    assert (∀ sym', locked_units sym' n = 0) as Hlu.
    { intros sym'. unfold locked_units. rewrite bool_decide_eq_false_2; [done|].
      intros (_&?&_). congruence. }
    assert (money_supply (add_order (set_traders s
              (<[T := Num (zb - o_amount n * p)]> (traders s))) n)
            = money_supply s) as Hms.
    { rewrite money_supply_add_order, Hlm. unfold money_supply.
      cbn [set_traders traders orders].
      rewrite (total_insert _ _ T (Num zb)) by done. cbn. lia. }
    assert (∀ sym', units_supply (add_order (set_traders s
              (<[T := Num (zb - o_amount n * p)]> (traders s))) n) sym'
            = units_supply s sym') as Hus.
    { intros sym'. rewrite units_supply_add_order, Hlu. unfold units_supply.
      cbn [set_traders positions orders]. lia. }
    split; [done|]. split.
    { apply (within_supply_same s); [|apply Hcq|done..].
      intros k b0. cbn. rewrite lookup_insert. case_decide.
      - intros [= <-]. eexists. split; [done|]. lia.
      - apply Hcb. }
    split; [done|]. split; [done|].
    split; intros; rewrite ?holdings_add_order, ?funds_add_order;
      unfold holdings, funds, frozen_units, frozen_money;
      cbn [set_traders orders positions traders];
      rewrite ?lookup_insert, ?Hp;
      repeat (case_decide || case_bool_decide); simplify_eq;
      rewrite ?Hb; cbn; cases_done.
Qed.

Lemma net_units_app ts1 ts2 t sym :
  net_units (ts1 ++ ts2) t sym = net_units ts1 t sym + net_units ts2 t sym.
Proof. unfold net_units. by rewrite sumZ_map_app. Qed.

Lemma net_money_app ts1 ts2 t :
  net_money (ts1 ++ ts2) t = net_money ts1 t + net_money ts2 t.
Proof. unfold net_money. by rewrite sumZ_map_app. Qed.

Lemma create_limit_order_accounting taker db new_id now sym q price T :
  NoDup (map o_id (orders db)) → sym ≠ BASE_CURRENCY_TICKER →
  wf_db db → within_supply db → 0 < q →
  match price with Some p => 0 < p | None => True end →
  let r := create_limit_order taker db new_id now sym q price T in
  within_supply r.1
  ∧ money_supply r.1 = money_supply db
  ∧ (∀ sym', units_supply r.1 sym' = units_supply db sym')
  ∧ ∃ ts, trades r.1 = trades db ++ ts
      ∧ (∀ t sym', holdings r.1 t sym' = holdings db t sym' + net_units ts t sym')
      ∧ (∀ t, funds r.1 t = funds db t + net_money ts t).
Proof.
  intros Hnd Hbase Hwf Hsup Hq Hprice r. subst r.
  destruct (create_limit_order_cases taker db new_id now sym q price T)
    as [(e&_&_&->&_)|[(e&_&_&->)|(s&n&Hm&s1&Hf&_&->)]]; cbn [fst].
  - destruct (add_inactive_accounting db
                (cancelled (new_order_of taker new_id now sym q price T) q))
      as (Hs&Hms&Hus&Hh&Hfu); [|done|].
    { cbn. rewrite active_status_iff. by intros [|]. }
    split_and!; [done..|]. exists []. rewrite app_nil_r. split; [done|].
    split; intros; rewrite ?Hh, ?Hfu; unfold net_units, net_money; cbn; lia.
  - split_and!; [done..|]. exists []. rewrite app_nil_r. split; [done|].
    split; intros; unfold net_units, net_money; cbn; lia.
  - pose proof (match_orders_tracks _ _ _ _ _ _ _ _ _ _ (tracks_refl _) Hm) as Htr.
    pose proof (committed_not_cancelled _ _ _ _ _ _ _ _ _ _ Hm) as Hnc.
    apply match_orders_accounting in Hm
      as (Hwf'&Hsup'&Hn'&Hms&Hus&ts&Hts&Hh&Hfu);
      [|done|done|cbn; lia|by apply get_orders_live|].
    2:{ intros m Hin. apply elem_of_get_orders in Hin. tauto. }
    apply freeze_remainder_accounting in Hf
      as (Hts1&Hsup1&Hms1&Hus1&Hh1&Hfu1); [|done..| | | |done|done|].
    2-4: by destruct Htr.
    2:{ by rewrite (tracks_price _ _ Htr). }
    split_and!; [done|by rewrite Hms1| |].
    { intros sym'. by rewrite Hus1. }
    exists ts. split_and!.
    + cbn [add_order set_orders trades]. by rewrite Hts1.
    + intros. by rewrite Hh1, Hh.
    + intros. by rewrite Hfu1, Hfu.
Qed.

(** X9: within the supply, a submission changes what a trader owns by
    the trader's trades and by nothing else.  The store holds natural
    numbers and at most 2^52 of the base currency and of every
    instrument (so that every sum is exact in a double), quantity and
    price are positive as the request schema demands, the order's
    ticker is not the base currency and ids are a key of the orders
    table.  Then for every trader and every ticker, holdings (position
    plus the amounts of the trader's active ASK orders) change over a
    create_order call by the units the trades journaled by this call
    bring to the trader, and funds (balance plus amount * price of the
    active BID orders) by the money they bring; freezing the remainder of
    the order moves value between the balance or position and the order,
    and a submission recorded as CANCELLED or refused changes nothing.
    Stated as an invariant: holdings minus the net of the whole journal
    is the same before and after; the supply of money and of every
    instrument is unchanged, and the store stays within it. *)
Theorem submission_changes_holdings_by_its_trades
    db new_id now direction ticker qty price trader_id :
  NoDup (map o_id (orders db)) → ticker ≠ BASE_CURRENCY_TICKER →
  wf_db db → within_supply db → 0 < qty →
  match price with Some p => 0 < p | None => True end →
  let db' := (create_order db new_id now direction ticker qty price trader_id).1 in
  (∀ t sym,
     holdings db' t sym - net_units (trades db') t sym
     = holdings db t sym - net_units (trades db) t sym
     ∧ funds db' t - net_money (trades db') t
       = funds db t - net_money (trades db) t)
  ∧ within_supply db'
  ∧ money_supply db' = money_supply db
  ∧ ∀ sym, units_supply db' sym = units_supply db sym.
Proof.
  intros Hnd Hbase Hwf Hsup Hq Hp db'. subst db'. rewrite create_order_eq.
  destruct (create_limit_order_accounting (side_of direction) db new_id now
              ticker qty (price_column price) trader_id Hnd Hbase Hwf Hsup Hq
              (price_column_valid price Hp))
    as (Hsup'&Hms&Hus&ts&Hts&Hh&Hf).
  split_and!; [|done..]. intros t sym.
  rewrite Hts, net_units_app, net_money_app, Hh, Hf. lia.
Qed.

(** *** Cancellation *)

Lemma cancel_order_accounting db order_id trader_id db' o' :
  NoDup (map o_id (orders db)) → no_base_orders db → positions_materialised db →
  wf_db db → within_supply db →
  cancel_order db order_id trader_id = inr (db', Some o') →
  ∃ order p,
    owned_order db order_id trader_id order
    ∧ o_status order = NEW ∧ o_price order = Some p
    ∧ o' = set_status order CANCELLED
    ∧ (∃ l1 l2, orders db = l1 ++ order :: l2 ∧ orders db' = l1 ++ o' :: l2)
    ∧ trades db' = trades db
    ∧ match o_direction order with
      | BID =>
        positions db' = positions db
        ∧ ∃ b, traders db !! trader_id = Some (Num b)
            ∧ traders db' = <[trader_id := Num (b + o_amount order * p)]> (traders db)
      | ASK =>
        traders db' = traders db
        ∧ ∃ q, positions db !! (trader_id, o_symbol_ticker order) = Some (Num q)
            ∧ positions db'
              = <[(trader_id, o_symbol_ticker order) := Num (q + o_amount order)]>
                  (positions db)
      end
    ∧ within_supply db'
    ∧ money_supply db' = money_supply db
    ∧ (∀ sym, units_supply db' sym = units_supply db sym)
    ∧ (∀ t sym, holdings db' t sym = holdings db t sym)
    ∧ (∀ t, funds db' t = funds db t).
Proof.
  intros Hnd Hnb Hpm Hwf Hsup Hc.
  apply cancel_order_inr_Some in Hc
    as (order&s&Hin&Hid&Htr&Hst&(p&Hp&Hcb)&Hos&Hts&->&->).
  exists order, p. split; [done|]. split; [done|]. split; [done|].
  split; [done|].
  destruct (list_elem_of_split _ _ Hin) as (l1&l2&Hrows).
  assert (orders (flush_order s (set_status order CANCELLED))
          = l1 ++ set_status order CANCELLED :: l2) as Hrows'.
  { unfold flush_order. cbn [orders set_orders]. rewrite Hos, Hrows.
    apply flush_order_split; [by rewrite <- Hrows|done]. }
  split; [by exists l1, l2|]. split; [done|].
  destruct (frozen_inactive (set_status order CANCELLED)) as (Hu&Hm&Hlu&Hlm).
  { cbn. rewrite active_status_iff. by intros [|]. }
  assert (o_status order ∈ ACTIVE_ORDER_STATUSES) as Hact
    by (rewrite active_status_iff; by left).
  destruct (wf_active db Hwf order Hin Hact) as (Ham&p'&Hp'&Hp1).
  assert (p' = p) as -> by congruence.
  pose proof (Hnb _ Hin) as Hbase. destruct (Hpm _ Hin) as [pq Hpq].
  rewrite Htr in Hpq.
  pose proof Hsup as [Hcb' Hcq' _ _].
  destruct (o_direction order) eqn:Hdir.
  - (* ASK: the units return to the position *)
    apply change_balance_inr in Hcb
      as [[? _]|(_&_&[[Hnone _]|(q&q'&Hq&Hadd&_&->)])]; [done|congruence|].
    destruct (Hcq' _ _ Hq) as (zq&->&?).
    pose proof (position_locked_bound db trader_id (o_symbol_ticker order)
                  (Num zq) order Hwf Hsup Hq Hin) as Hbound.
    assert (locked_units (o_symbol_ticker order) order = o_amount order) as Hlo.
    { unfold locked_units. by rewrite bool_decide_eq_true_2. }
    assert (locked_money order = 0) as Hmo.
    { unfold locked_money. rewrite bool_decide_eq_false_2; [done|].
      intros [? _]. congruence. }
    cbn [float_value] in Hbound.
    rewrite add_int_exact in Hadd by lia. injection Hadd as <-.
    cbn [flush_order set_orders set_positions positions traders].
    split; [split; [done|]; by exists zq|].
    assert (money_supply (flush_order (set_positions db
              (<[(trader_id, o_symbol_ticker order) := Num (zq + o_amount order)]>
                 (positions db))) (set_status order CANCELLED))
            = money_supply db) as Hms.
    { unfold money_supply. rewrite Hrows', Hrows, !sumZ_map_split, Hlm, Hmo.
      cbn [flush_order set_orders set_positions traders]. lia. }
    assert (∀ sym, units_supply (flush_order (set_positions db
              (<[(trader_id, o_symbol_ticker order) := Num (zq + o_amount order)]>
                 (positions db))) (set_status order CANCELLED)) sym
            = units_supply db sym) as Hus.
    { intros sym. unfold units_supply.
      rewrite Hrows', Hrows, !sumZ_map_split, Hlu.
      cbn [flush_order set_orders set_positions positions].
      rewrite (total_insert _ _ _ (Num zq)) by done.
      unfold units_in, locked_units. cbn [fst snd float_value].
      rewrite Hdir. case_decide; case_bool_decide; cases_done. }
    split.
    { apply (within_supply_same db); [apply Hcb'| |done..].
      intros k q0. cbn. rewrite lookup_insert. case_decide.
      - intros [= <-]. eexists. split; [done|]. lia.
      - apply Hcq'. }
    split; [done|]. split; [done|].
    unfold holdings, funds. rewrite Hrows', Hrows.
    cbn [flush_order set_orders set_positions positions traders].
    split; intros; rewrite !sumZ_map_split, ?Hu, ?Hm;
      unfold frozen_units, frozen_money; rewrite ?Hst, ?Hp, ?Hdir, ?lookup_insert;
      repeat (case_decide || case_bool_decide); simplify_eq;
      rewrite ?Hq; cbn; try lia; try congruence;
      rewrite ?active_status_iff in *; cases_done.
  - (* BID: amount * price returns to the balance *)
    apply change_balance_inr in Hcb
      as [(_&b&b'&Hb&Hadd&_&->)|[? _]]; [|done].
    destruct (Hcb' _ _ Hb) as (zb&->&?).
    pose proof (balance_locked_bound db trader_id (Num zb) order Hwf Hsup Hb Hin)
      as Hbound.
    assert (locked_money order = o_amount order * p) as Hmo.
    { unfold locked_money. rewrite bool_decide_eq_true_2 by done. by rewrite Hp. }
    assert (∀ sym, locked_units sym order = 0) as Hlo.
    { intros sym. unfold locked_units. rewrite bool_decide_eq_false_2; [done|].
      intros (_&?&_). congruence. }
    cbn [float_value] in Hbound.
    rewrite add_int_exact in Hadd by nia. injection Hadd as <-.
    cbn [flush_order set_orders set_traders positions traders].
    split; [split; [done|]; by exists zb|].
    assert (money_supply (flush_order (set_traders db
              (<[trader_id := Num (zb + o_amount order * p)]> (traders db)))
              (set_status order CANCELLED))
            = money_supply db) as Hms.
    { unfold money_supply. rewrite Hrows', Hrows, !sumZ_map_split, Hlm, Hmo.
      cbn [flush_order set_orders set_traders traders].
      rewrite (total_insert _ _ _ (Num zb)) by done. cbn [float_value]. lia. }
    assert (∀ sym, units_supply (flush_order (set_traders db
              (<[trader_id := Num (zb + o_amount order * p)]> (traders db)))
              (set_status order CANCELLED)) sym
            = units_supply db sym) as Hus.
    { intros sym. unfold units_supply.
      rewrite Hrows', Hrows, !sumZ_map_split, Hlu, Hlo.
      cbn [flush_order set_orders set_traders positions]. lia. }
    split.
    { apply (within_supply_same db); [|apply Hcq'|done..].
      intros k b0. cbn. rewrite lookup_insert. case_decide.
      - intros [= <-]. eexists. split; [done|]. nia.
      - apply Hcb'. }
    split; [done|]. split; [done|].
    unfold holdings, funds. rewrite Hrows', Hrows.
    cbn [flush_order set_orders set_traders positions traders].
    split; intros; rewrite !sumZ_map_split, ?Hu, ?Hm;
      unfold frozen_units, frozen_money; rewrite ?Hst, ?Hp, ?Hdir, ?lookup_insert;
      repeat (case_decide || case_bool_decide); simplify_eq;
      rewrite ?Hb; cbn; try lia; try congruence;
      rewrite ?active_status_iff in *; cases_done.
Qed.

(** X10: within the supply, a cancellation gives back exactly what the
    order held.  The store holds natural numbers and at most 2^52 of the
    base currency and of every instrument, ids are a key of the orders
    table, no order is in the base currency, and every order's owner has
    a position row in its ticker.  Whatever delete_order_by_id answers,
    it journals no trade and leaves the holdings and the funds of every
    trader, and the supply, as they were; a request that is refused or
    finds no order writes nothing.  When it answers with success, the
    order was a NEW limit order of that id and owner; its row is replaced
    by the same order with status CANCELLED; for a BID order the owner's
    balance row is credited amount * price and no position changes, for an
    ASK order the owner's position row in the order's ticker is credited
    the amount and no balance changes. *)
Theorem cancellation_keeps_holdings db order_id trader_id :
  NoDup (map o_id (orders db)) → no_base_orders db → positions_materialised db →
  wf_db db → within_supply db →
  let r := delete_order_by_id db order_id trader_id in
  let db' := r.1 in
  trades db' = trades db
  ∧ (∀ t sym, holdings db' t sym = holdings db t sym ∧ funds db' t = funds db t)
  ∧ within_supply db'
  ∧ money_supply db' = money_supply db
  ∧ (∀ sym, units_supply db' sym = units_supply db sym)
  ∧ (r.2 ≠ inr true → db' = db)
  ∧ (r.2 = inr true →
     ∃ order p l1 l2,
       owned_order db order_id trader_id order
       ∧ o_status order = NEW ∧ o_price order = Some p
       ∧ orders db = l1 ++ order :: l2
       ∧ orders db' = l1 ++ set_status order CANCELLED :: l2
       ∧ match o_direction order with
         | BID =>
           positions db' = positions db
           ∧ ∃ b, traders db !! trader_id = Some (Num b)
               ∧ traders db'
                 = <[trader_id := Num (b + o_amount order * p)]> (traders db)
         | ASK =>
           traders db' = traders db
           ∧ ∃ q, positions db !! (trader_id, o_symbol_ticker order) = Some (Num q)
               ∧ positions db'
                 = <[(trader_id, o_symbol_ticker order) := Num (q + o_amount order)]>
                     (positions db)
         end).
Proof.
  intros Hnd Hnb Hpm Hwf Hsup r db'. subst db' r. unfold delete_order_by_id.
  destruct (cancel_order db order_id trader_id) as [e|[db1 [o'|]]] eqn:Hc;
    cbn [fst snd].
  - split_and!; [done..|]. intros [=].
  - destruct (cancel_order_accounting _ _ _ _ _ Hnd Hnb Hpm Hwf Hsup Hc)
      as (order&p&Hown&Hst&Hp&->&(l1&l2&Hr&Hr')&Ht&Hrows&Hsup'&Hms&Hus&Hh&Hf).
    split_and!; [done..| |].
    + by intros [].
    + intros _. by exists order, p, l1, l2.
  - apply cancel_order_inr_None in Hc as ->.
    split_and!; [done..|]. intros [=].
Qed.

(** ** Rows of traders and positions *)

Lemma union_singleton_elem `{Countable K} (k : K) (X : gset K) :
  k ∈ X → {[k]} ∪ X = X.
Proof. intros Hk. apply subseteq_union_1_L. by apply singleton_subseteq_l. Qed.

Lemma dom_insert_Some `{Countable K} {A} (m : gmap K A) k x v :
  m !! k = Some x → dom (<[k := v]> m) = dom m.
Proof.
  intros Hk%elem_of_dom_2. rewrite dom_insert_L. by apply union_singleton_elem.
Qed.

Lemma settle_dom taker s t sym m q s0 :
  settle taker s t sym m q = inr s0 →
  dom (traders s0) = dom (traders s) ∧ dom (positions s0) = dom (positions s).
Proof.
  destruct taker; unfold settle.
  - intros (?&?&?&?&?&?&?&_&Hsq&Hsb&Hbq&_&_&_&_&->)%sell_inr.
    cbn [traders positions]. rewrite !dom_insert_L.
    apply elem_of_dom_2 in Hsq, Hsb, Hbq.
    by rewrite !(union_singleton_elem _ (dom _)) by done.
  - intros (?&?&?&?&?&?&?&_&Hbb&Hsb&Hbq&_&_&_&_&->)%buy_inr.
    cbn [traders positions]. rewrite !dom_insert_L.
    apply elem_of_dom_2 in Hbb, Hsb, Hbq.
    by rewrite !(union_singleton_elem _ (dom _)) by done.
Qed.

Lemma match_orders_dom taker s t sym price n cands s' n' :
  match_orders taker s t sym price n cands = inr (s', n') →
  dom (traders s') = dom (traders s) ∧ dom (positions s') = dom (positions s).
Proof.
  revert s n. induction cands as [|m rest IH]; intros s n.
  { by intros [= <- <-]. }
  intros H. apply match_orders_cons_inr in H
    as [(_&->&_)|[(_&_&->&_)|(s1&n1&Hstep&Hrest)]]; [done..|].
  apply IH in Hrest as [-> ->]. destruct Hstep as [m1 s0 _ _ Hs _ _ ->].
  by apply settle_dom in Hs.
Qed.

Lemma freeze_balance_dom s t sym a s1 :
  freeze_balance s t sym a = inr s1 →
  dom (traders s1) = dom (traders s) ∧ dom (positions s1) = dom (positions s).
Proof.
  intros [(_&b&b'&Hb&_&_&->)|(_&_&q&q'&Hq&_&_&->)]%freeze_balance_inr; cbn.
  - by rewrite (dom_insert_Some _ _ _ _ Hb).
  - by rewrite (dom_insert_Some _ _ _ _ Hq).
Qed.

Lemma change_balance_dom s t sym a s1 :
  __change_balance s t sym a = inr s1 →
  dom (traders s1) = dom (traders s) ∧ dom (positions s1) = dom (positions s).
Proof.
  intros [(_&b&b'&Hb&_&_&->)|(_&_&[[_ ->]|(q&q'&Hq&_&_&->)])]%change_balance_inr;
    cbn; [|done|].
  - by rewrite (dom_insert_Some _ _ _ _ Hb).
  - by rewrite (dom_insert_Some _ _ _ _ Hq).
Qed.

Lemma create_limit_order_dom taker db new_id now sym q price t :
  let db' := (create_limit_order taker db new_id now sym q price t).1 in
  dom (traders db') = dom (traders db) ∧ dom (positions db') = dom (positions db).
Proof.
  intros db'. subst db'.
  destruct (create_limit_order_cases taker db new_id now sym q price t)
    as [(e&_&_&->&_)|[(e&_&_&->)|(s&n&Hm&s1&Hf&_&->)]]; [done..|].
  cbn [fst add_order set_orders traders positions].
  apply match_orders_dom in Hm as [<- <-].
  unfold freeze_remainder in Hf. case_bool_decide; [|by injection Hf as <-].
  destruct (o_price n); [|done].
  destruct taker; by apply freeze_balance_dom in Hf.
Qed.

Lemma cancel_order_dom db order_id trader_id db' o :
  cancel_order db order_id trader_id = inr (db', o) →
  dom (traders db') = dom (traders db) ∧ dom (positions db') = dom (positions db).
Proof.
  intros Hc. destruct o as [o'|];
    [|by apply cancel_order_inr_None in Hc as ->].
  apply cancel_order_inr_Some in Hc as (order&s&_&_&_&_&(p&_&Hcb)&_&_&_&->).
  cbn [flush_order set_orders traders positions].
  by apply change_balance_dom in Hcb.
Qed.

Lemma commit_dom db op :
  dom (traders (commit db op)) = dom (traders db)
  ∧ dom (positions (commit db op)) = dom (positions db).
Proof.
  destruct op; cbn [commit].
  - rewrite create_order_eq. apply create_limit_order_dom.
  - destruct (cancel_order _ _ _) as [e|[db' o]] eqn:Hc; [done|].
    by eapply cancel_order_dom.
  - unfold change_trader_balance.
    destruct (__change_balance _ _ _ _) eqn:Hc; [done|].
    by eapply change_balance_dom.
  - unfold change_trader_balance.
    destruct (__change_balance _ _ _ _) eqn:Hc; [done|].
    by eapply change_balance_dom.
Qed.

(** X11: no operation creates or deletes a trader or a position row.
    After any sequence of order submissions, cancellations, deposits and
    withdrawals the traders are the traders there were, and the
    (trader, ticker) pairs with a position row are those there were:
    settlement, freezing and refunds rewrite existing rows only.  In
    particular a deposit into a ticker in which the trader has no position
    row credits nothing. *)
Theorem operations_keep_the_rows ops db :
  let db' := foldl commit db ops in
  dom (traders db') = dom (traders db)
  ∧ dom (positions db') = dom (positions db)
  ∧ ∀ t ticker amount,
      positions db' !! (t, ticker) = None → ticker ≠ BASE_CURRENCY_TICKER →
      commit db' (Deposit t ticker amount) = db'.
Proof.
  intros db'. subst db'. split_and!.
  - revert db. induction ops as [|op ops IH]; intros db; [done|].
    cbn. rewrite IH. apply commit_dom.
  - revert db. induction ops as [|op ops IH]; intros db; [done|].
    cbn. rewrite IH. apply commit_dom.
  - intros t ticker amount Hnone Hbase. cbn [commit].
    unfold change_trader_balance, __change_balance.
    rewrite bool_decide_eq_false_2 by done. rewrite Hnone.
    by destruct (traders _ !! t).
Qed.

(** ** A trading session *)

Lemma commit_rows db op o' :
  NoDup (map o_id (orders db) ++ submitted_ids [op]) →
  o' ∈ orders (commit db op) →
  (∃ o, o ∈ orders db ∧ order_static o = order_static o')
  ∨ order_static o' ∈ submission_static op.
Proof.
  intros Hnd Hin.
  assert (order_static o' ∈ map order_static (orders (commit db op))) as Hst
    by by apply list_elem_of_In, in_map, list_elem_of_In.
  rewrite commit_static in Hst by done.
  apply elem_of_app in Hst as [Hst|Hst]; [left|right].
  - apply list_elem_of_In, in_map_iff in Hst as (o&Ho&Hino).
    exists o. by rewrite <- list_elem_of_In in Hino.
  - destruct (appended_rows_one db op) as [[Heq|Heq] _]; rewrite Heq in Hst;
      [done|by apply elem_of_nil in Hst].
Qed.

(** The ids still to hand out stay unused. *)
Lemma commit_fresh db op ops :
  NoDup (map o_id (orders db) ++ submitted_ids (op :: ops)) →
  NoDup (map o_id (orders db) ++ submitted_ids [op])
  ∧ NoDup (map o_id (orders (commit db op)) ++ submitted_ids ops).
Proof.
  intros Hnd. change (op :: ops) with ([op] ++ ops) in Hnd.
  unfold submitted_ids in Hnd. rewrite bind_app in Hnd.
  fold (submitted_ids [op]) (submitted_ids ops) in Hnd.
  rewrite app_assoc in Hnd.
  assert (NoDup (map o_id (orders db) ++ submitted_ids [op])) as Hnd1
    by by apply NoDup_app in Hnd as [? _].
  split; [done|].
  rewrite (static_ids (orders (commit db op))), commit_static, map_app by done.
  rewrite <- static_ids.
  eapply sublist_NoDup; [exact Hnd|].
  apply sublist_app; [|done].
  apply sublist_app; [done|apply appended_ids].
Qed.

Lemma commit_ids db op :
  NoDup (map o_id (orders db) ++ submitted_ids [op]) →
  sublist (map o_id (orders (commit db op)))
    (map o_id (orders db) ++ submitted_ids [op])
  ∧ NoDup (map o_id (orders (commit db op))).
Proof.
  intros Hnd.
  assert (sublist (map o_id (orders (commit db op)))
            (map o_id (orders db) ++ submitted_ids [op])) as Hsub.
  { rewrite (static_ids (orders (commit db op))), commit_static, map_app by done.
    rewrite <- static_ids. apply sublist_app; [done|apply appended_ids]. }
  split; [done|]. by eapply sublist_NoDup.
Qed.

Lemma commit_ids_cases db op :
  NoDup (map o_id (orders db) ++ submitted_ids [op]) →
  map o_id (orders (commit db op)) = map o_id (orders db)
  ∨ map o_id (orders (commit db op)) = map o_id (orders db) ++ submitted_ids [op].
Proof.
  intros Hnd.
  rewrite (static_ids (orders (commit db op))), commit_static, map_app by done.
  rewrite <- static_ids.
  destruct (appended_rows_one db op) as [[->| ->] _].
  - right. f_equal. by destruct op.
  - left. cbn. by rewrite app_nil_r.
Qed.

Lemma order_static_inv o x :
  order_static o = x →
  o_id o = x.1.1.1.1.1.1 ∧ o_trader_id o = x.1.1.1.1.1.2
  ∧ o_symbol_ticker o = x.1.1.1.1.2.
Proof. by intros <-. Qed.

Lemma commit_accounting db op :
  NoDup (map o_id (orders db) ++ submitted_ids [op]) →
  no_base_orders db → positions_materialised db →
  wf_db db → within_supply db →
  trading_operation db op → valid_operation op →
  within_supply (commit db op)
  ∧ money_supply (commit db op) = money_supply db
  ∧ (∀ sym, units_supply (commit db op) sym = units_supply db sym)
  ∧ (∀ t sym, holdings (commit db op) t sym - net_units (trades (commit db op)) t sym
              = holdings db t sym - net_units (trades db) t sym)
  ∧ (∀ t, funds (commit db op) t - net_money (trades (commit db op)) t
          = funds db t - net_money (trades db) t).
Proof.
  intros Hnd Hnb Hpm Hwf Hsup Hop Hv. pose proof Hnd as [Hnd0 _]%NoDup_app.
  destruct op; cbn [trading_operation valid_operation] in Hop, Hv; [| |done..];
    cbn [commit].
  - destruct Hop as [Hbase _]. destruct Hv as [Hq Hp]. rewrite create_order_eq.
    destruct (create_limit_order_accounting (side_of direction) db new_id now
                ticker qty (price_column price) trader_id Hnd0 Hbase Hwf Hsup Hq
                (price_column_valid price Hp))
      as (Hsup'&Hms&Hus&ts&Hts&Hh&Hf).
    split_and!; [done..| |];
      intros; rewrite Hts, ?net_units_app, ?net_money_app, ?Hh, ?Hf; lia.
  - destruct (cancel_order _ _ _) as [e|[db' [o'|]]] eqn:Hc; [done| |].
    + destruct (cancel_order_accounting _ _ _ _ _ Hnd0 Hnb Hpm Hwf Hsup Hc)
        as (_&_&_&_&_&_&_&Ht&_&Hsup'&Hms&Hus&Hh&Hf).
      split_and!; [done..| |]; intros; by rewrite Ht, ?Hh, ?Hf.
    + by apply cancel_order_inr_None in Hc as ->.
Qed.

Lemma commit_invariants db op :
  NoDup (map o_id (orders db) ++ submitted_ids [op]) →
  no_base_orders db → positions_materialised db → trading_operation db op →
  no_base_orders (commit db op) ∧ positions_materialised (commit db op).
Proof.
  intros Hnd Hnb Hpm Hop.
  destruct (commit_dom db op) as [_ Hdom].
  split; intros o' Hin; destruct (commit_rows _ _ _ Hnd Hin) as [(o&Ho&Hst)|Hst].
  - symmetry in Hst. apply order_static_inv in Hst as (_&_&->). by apply Hnb.
  - destruct op; cbn in Hst; try by apply elem_of_nil in Hst.
    apply list_elem_of_singleton, order_static_inv in Hst as (_&_&->).
    by destruct Hop.
  - apply elem_of_dom. rewrite Hdom. apply elem_of_dom.
    symmetry in Hst. apply order_static_inv in Hst as (_&->&->). by apply Hpm.
  - destruct op; cbn in Hst; try by apply elem_of_nil in Hst.
    apply list_elem_of_singleton, order_static_inv in Hst as (_&->&->).
    apply elem_of_dom. rewrite Hdom. apply elem_of_dom. by destruct Hop.
Qed.

Lemma trading_operation_dom db db' op :
  dom (positions db') = dom (positions db) →
  trading_operation db op → trading_operation db' op.
Proof.
  intros Hdom. destruct op; cbn; try done.
  intros [? Hrow]. split; [done|].
  apply elem_of_dom. rewrite Hdom. by apply elem_of_dom.
Qed.

(** X12: over a trading session within the supply, every trader's
    holdings follow the trade journal, and nothing is created or lost.
    The store holds natural numbers and at most 2^52 of the base
    currency and of every instrument, no order is in the base currency,
    every order's owner has a position row in its ticker, and the
    operations are submissions with positive quantities and prices (in
    tickers other than the base currency in which the submitter has a
    position row, under unused ids) and cancellations.  Then after the
    operations, for every trader and every ticker the holdings have
    changed by the net of the units bought and sold in the trades
    journaled meanwhile, and the funds by the net of the money received
    and paid: holdings minus the net of the journal is constant.  The
    supply of the base currency and of every instrument is what it was,
    so the store stays within the supply: matching, partial fills,
    freezing, roll-backs and refunds compute in the integers. *)
Theorem trading_keeps_holdings_in_line_with_the_journal ops db :
  NoDup (map o_id (orders db) ++ submitted_ids ops) →
  no_base_orders db → positions_materialised db →
  wf_db db → within_supply db →
  Forall (trading_operation db) ops → Forall valid_operation ops →
  let db' := foldl commit db ops in
  (∀ t sym,
     holdings db' t sym - net_units (trades db') t sym
     = holdings db t sym - net_units (trades db) t sym
     ∧ funds db' t - net_money (trades db') t
       = funds db t - net_money (trades db) t)
  ∧ within_supply db'
  ∧ money_supply db' = money_supply db
  ∧ ∀ sym, units_supply db' sym = units_supply db sym.
Proof.
  revert db. induction ops as [|op ops IH];
    intros db Hnd Hnb Hpm Hwf Hsup Hops Hvs db'; [done|].
  subst db'. cbn [foldl].
  apply Forall_cons in Hops as [Hop Hops]. apply Forall_cons in Hvs as [Hv Hvs].
  destruct (commit_fresh db op ops Hnd) as [Hnd1 Hnd'].
  destruct (commit_invariants db op Hnd1 Hnb Hpm Hop) as [Hnb' Hpm'].
  destruct (commit_accounting db op Hnd1 Hnb Hpm Hwf Hsup Hop Hv)
    as (Hsup1&Hms&Hus&Hh&Hf).
  destruct (commit_dom db op) as [_ Hdom].
  destruct (IH (commit db op) Hnd' Hnb' Hpm' (commit_wf db op Hwf Hv) Hsup1)
    as (IHa&IHsup&IHms&IHus); [|done|].
  { eapply Forall_impl; [exact Hops|]. intros op'.
    by apply trading_operation_dom. }
  split_and!; [|done|by rewrite IHms|].
  - intros t sym. destruct (IHa t sym) as [IHh IHf].
    by rewrite IHh, IHf, Hh, Hf.
  - intros sym. by rewrite IHus.
Qed.

(** ** What get_balance reports *)

Lemma get_trader_positions_lookup db t sym :
  get_trader_positions db t None !! sym = positions db !! (t, sym).
Proof.
  unfold get_trader_positions.
  rewrite <- (lookup_map_curry (M1 := gmap uuid) (M2 := gmap string) (positions db)).
  by destruct (map_curry _ !! t).
Qed.

Lemma get_trader_positions_ticker db t ticker sym :
  ticker ≠ EmptyString →
  get_trader_positions db t (Some ticker) !! sym
  = if decide (sym = ticker) then positions db !! (t, ticker) else None.
Proof.
  intros Hne. pose proof (get_trader_positions_lookup db t sym) as Hl.
  unfold get_trader_positions in *. rewrite bool_decide_eq_true_2 by done.
  case_decide as Hs.
  - subst sym. destruct (positions db !! (t, ticker)) as [q|] eqn:Hq.
    + apply map_lookup_filter_Some. by rewrite Hl.
    + apply map_lookup_filter_None. left. by rewrite Hl.
  - apply map_lookup_filter_None. right. intros x _. cbn. done.
Qed.








(** ** Traders, instruments and their position rows *)

Lemma set_db_id ex : set_db ex (ex_db ex) = ex.
Proof. by destruct ex. Qed.

Lemma add_rows_spec {X} (key : X → uuid * string) (l : list X) (s : Database) :
  let s' := foldl (λ session x,
                     set_positions session (<[key x := Num 0]> (positions session)))
              s l in
  traders s' = traders s ∧ orders s' = orders s ∧ trades s' = trades s
  ∧ ∀ k, positions s' !! k
         = if bool_decide (k ∈ map key l) then Some (Num 0) else positions s !! k.
Proof.
  revert s. induction l as [|x l IH]; intros s; cbn [foldl map].
  { by split_and!. }
  destruct (IH (set_positions s (<[key x := Num 0]> (positions s))))
    as (Ht&Ho&Hj&Hp).
  split_and!; [by rewrite Ht|by rewrite Ho|by rewrite Hj|].
  intros k. rewrite Hp. cbn [set_positions positions].
  destruct (decide (k ∈ map key l)) as [Hin|Hin].
  - rewrite !bool_decide_eq_true_2; [done|by right|done].
  - rewrite (bool_decide_eq_false_2 _ Hin). rewrite lookup_insert.
    case_decide as Hk.
    + subst k. rewrite bool_decide_eq_true_2; [done|left].
    + rewrite bool_decide_eq_false_2; [done|].
      intros [?|?]%elem_of_cons; congruence.
Qed.

Lemma elem_of_map_fst_to_list `{Countable K} {A} (m : gmap K A) k :
  k ∈ map fst (map_to_list m) ↔ is_Some (m !! k).
Proof.
  rewrite list_elem_of_In, in_map_iff. split.
  - intros ([k' x]&<-&Hin%list_elem_of_In%elem_of_map_to_list). by eexists.
  - intros [x Hx]. exists (k, x). split; [done|].
    by apply list_elem_of_In, elem_of_map_to_list.
Qed.

Lemma existsb_false_iff {X} (p : X → bool) (l : list X) :
  existsb p l = false ↔ ∀ x, x ∈ l → p x = false.
Proof.
  induction l as [|a l IH]; cbn.
  - split; [by intros _ x ?%elem_of_nil|done].
  - rewrite orb_false_iff, IH. split.
    + intros [Ha Hl] x [->|Hx]%elem_of_cons; auto.
    + intros Hall. split; [apply Hall; left|]. intros x Hx. apply Hall. by right.
Qed.

Lemma create_trader_inr ex new_id ex' :
  create_trader ex new_id = inr ex' →
  traders (ex_db ex) !! new_id = None
  ∧ ex_symbols ex' = ex_symbols ex
  ∧ traders (ex_db ex') = <[new_id := Num 0]> (traders (ex_db ex))
  ∧ orders (ex_db ex') = orders (ex_db ex)
  ∧ trades (ex_db ex') = trades (ex_db ex)
  ∧ ∀ t ticker,
      positions (ex_db ex') !! (t, ticker)
      = if bool_decide (t = new_id ∧ is_Some (ex_symbols ex !! ticker))
        then Some (Num 0) else positions (ex_db ex) !! (t, ticker).
Proof.
  unfold create_trader. case_bool_decide as Hnew; [done|].
  destruct (existsb _ _) eqn:Hrows; [done|]. intros [= <-].
  set (s0 := set_traders (ex_db ex) (<[new_id := Num 0]> (traders (ex_db ex)))).
  destruct (add_rows_spec (λ ticker, (new_id, ticker))
              (map fst (get_all_symbols ex)) s0) as (Ht&Ho&Hj&Hp).
  cbn [set_db ex_db ex_symbols]. split_and!; try done.
  - by apply eq_None_not_Some.
  - intros t ticker. rewrite Hp. cbn [s0 set_traders positions].
    destruct (decide (t = new_id ∧ is_Some (ex_symbols ex !! ticker)))
      as [[-> Hs]|Hno].
    + rewrite !bool_decide_eq_true_2; [done|done|].
      apply list_elem_of_In, in_map, list_elem_of_In.
      by apply elem_of_map_fst_to_list.
    + rewrite !bool_decide_eq_false_2; [done|done|].
      intros (tk&[= -> ->]&Hin%list_elem_of_In)%list_elem_of_In%in_map_iff.
      apply Hno. split; [done|]. by apply elem_of_map_fst_to_list.
Qed.

Lemma create_symbol_inr ex name ticker ex' :
  create_symbol ex name ticker = inr ex' →
  ex_symbols ex !! ticker = None
  ∧ ex_symbols ex' = <[ticker := name]> (ex_symbols ex)
  ∧ traders (ex_db ex') = traders (ex_db ex)
  ∧ orders (ex_db ex') = orders (ex_db ex)
  ∧ trades (ex_db ex') = trades (ex_db ex)
  ∧ (String.length ticker ≤ 10 ∧ String.length name ≤ 100)%nat
  ∧ ∀ t tk,
      positions (ex_db ex') !! (t, tk)
      = if bool_decide (tk = ticker ∧ is_Some (traders (ex_db ex) !! t))
        then Some (Num 0) else positions (ex_db ex) !! (t, tk).
Proof.
  unfold create_symbol. case_bool_decide as Hlen; [done|].
  case_bool_decide as Hnew; [done|].
  destruct (existsb _ _) eqn:Hrows; [done|]. intros [= <-].
  destruct (add_rows_spec (λ trader, (trader, ticker))
              (map fst (map_to_list (traders (ex_db ex)))) (ex_db ex))
    as (Ht&Ho&Hj&Hp).
  cbn [ex_db ex_symbols]. split_and!; try done.
  - by apply eq_None_not_Some.
  - lia.
  - lia.
  - intros t tk. rewrite Hp.
    destruct (decide (tk = ticker ∧ is_Some (traders (ex_db ex) !! t)))
      as [[-> Hs]|Hno].
    + rewrite !bool_decide_eq_true_2; [done|done|].
      apply list_elem_of_In, (in_map (λ trader, (trader, ticker)) _ t),
        list_elem_of_In.
      by apply elem_of_map_fst_to_list.
    + rewrite !bool_decide_eq_false_2; [done|done|].
      intros (tr&[= -> ->]&Hin%list_elem_of_In)%list_elem_of_In%in_map_iff.
      apply Hno. split; [done|]. by apply elem_of_map_fst_to_list.
Qed.


Lemma not_negative_zero : not_negative (Num 0).
Proof. split; [done|]. by apply is_double_small. Qed.

Lemma create_trader_ok ex new_id ex' :
  exchange_ok ex → create_trader ex new_id = inr ex' → exchange_ok ex'.
Proof.
  intros [[Hb Hq Ha Hcol] Hl Hids Ho Hp]
    (Hnew&Hsym&Htr&Hor&_&Hpos)%create_trader_inr.
  split; [split|..]; rewrite ?Hor, ?Hsym, ?Htr; try done.
  - intros t b. rewrite lookup_insert.
    case_decide; [intros [= <-]; apply not_negative_zero|apply Hb].
  - intros [t ticker] q. rewrite Hpos.
    case_bool_decide; [intros [= <-]; apply not_negative_zero|apply Hq].
  - intros o Hin. destruct (Ho o Hin) as [[b Hb'] Hs]. split; [|done].
    rewrite lookup_insert. case_decide; by eexists.
  - intros t ticker. rewrite Hpos, lookup_insert. case_bool_decide as Hc.
    + destruct Hc as [-> Hs]. rewrite decide_True by done.
      split; [intros _; split; [by eexists|done]|by eexists].
    + rewrite Hp. case_decide as Ht; [|done]. subst t. rewrite Hnew. split.
      * by intros [[? [=]] _].
      * intros [_ Hs]. by destruct Hc.
Qed.

Lemma create_symbol_ok ex name ticker ex' :
  exchange_ok ex → create_symbol ex name ticker = inr ex' → exchange_ok ex'.
Proof.
  intros [[Hb Hq Ha Hcol] Hl Hids Ho Hp]
    (Hnew&Hsym&Htr&Hor&_&_&Hpos)%create_symbol_inr.
  split; [split|..]; rewrite ?Hor, ?Hsym, ?Htr; try done.
  - intros [t tk] q. rewrite Hpos.
    case_bool_decide; [intros [= <-]; apply not_negative_zero|apply Hq].
  - intros o Hin. destruct (Ho o Hin) as [Hb' [nm Hs]]. split; [done|].
    rewrite lookup_insert. case_decide; by eexists.
  - intros t tk. rewrite Hpos, lookup_insert. case_bool_decide as Hc.
    + destruct Hc as [-> Hs]. rewrite decide_True by done.
      split; [intros _; split; [done|by eexists]|by eexists].
    + rewrite Hp. case_decide as Ht; [|done]. subst tk. rewrite Hnew. split.
      * by intros [_ [? [=]]].
      * intros [Hs _]. by destruct Hc.
Qed.

Lemma commit_exchange_ok ex op :
  exchange_ok ex → valid_operation op →
  NoDup (map o_id (orders (ex_db ex)) ++ submitted_ids [op]) →
  (∀ x, x ∈ submission_static op →
        is_Some (traders (ex_db ex) !! x.1.1.1.1.1.2)
        ∧ is_Some (ex_symbols ex !! x.1.1.1.1.2)) →
  exchange_ok (set_db ex (commit (ex_db ex) op)).
Proof.
  intros [Hwf Hl Hids Ho Hp] Hv Hnd Hnew.
  destruct (commit_dom (ex_db ex) op) as [Hdt Hdp].
  assert (∀ t, is_Some (traders (commit (ex_db ex) op) !! t)
               ↔ is_Some (traders (ex_db ex) !! t)) as Htr.
  { intros t. by rewrite <- !elem_of_dom, Hdt. }
  assert (∀ k, is_Some (positions (commit (ex_db ex) op) !! k)
               ↔ is_Some (positions (ex_db ex) !! k)) as Hps.
  { intros k. by rewrite <- !elem_of_dom, Hdp. }
  split; cbn [set_db ex_db ex_symbols].
  - by apply commit_wf.
  - by apply commit_lifecycle.
  - by apply commit_ids.
  - intros o' Hin. rewrite Htr.
    destruct (commit_rows _ _ _ Hnd Hin) as [(o&Hino&Hst)|Hst].
    + symmetry in Hst. apply order_static_inv in Hst as (_&->&->). by apply Ho.
    + exact (Hnew _ Hst).
  - intros t ticker. by rewrite Hps, Htr.
Qed.

Lemma NoDup_app_drop_mid {A} (l m r : list A) :
  NoDup (l ++ m ++ r) → NoDup (l ++ r).
Proof.
  rewrite !NoDup_app. intros (Hl&Hd&Hm&Hd'&Hr). split_and!; [done| |done].
  intros x Hx Hxr. apply (Hd x Hx). apply elem_of_app. by right.
Qed.

Lemma serve_ok ex rq :
  exchange_ok ex → valid_request rq →
  NoDup (map o_id (orders (ex_db ex)) ++ requested_ids [rq]) →
  exchange_ok (serve ex rq)
  ∧ (map o_id (orders (ex_db (serve ex rq))) = map o_id (orders (ex_db ex))
     ∨ map o_id (orders (ex_db (serve ex rq)))
       = map o_id (orders (ex_db ex)) ++ requested_ids [rq]).
Proof.
  intros Hok Hv Hnd. destruct rq; cbn [serve valid_request] in *.
  - destruct (create_trader ex new_id) as [e|ex'] eqn:Hc; [by split; [|left]|].
    split; [by eapply create_trader_ok|left].
    by apply create_trader_inr in Hc as (_&_&_&->&_).
  - unfold create_symbol_endpoint.
    destruct (get_symbol_by_ticker ex ticker); [by split; [|left]|].
    destruct (create_symbol ex name ticker) as [e|ex'] eqn:Hc; [by split; [|left]|].
    cbn [fst]. split; [by eapply create_symbol_ok|left].
    by apply create_symbol_inr in Hc as (_&_&_&->&_).
  - unfold deposit_balance.
    destruct (get_trader _ _); [|by split; [|left]].
    destruct (_ && _); [by split; [|left]|].
    pose proof (commit_exchange_ok ex (Deposit trader_id ticker amount) Hok Hv)
      as Hc. cbn [commit submitted_ids submission_static] in Hc.
    destruct (change_trader_balance _ _ _ _) as [e|db'] eqn:Hcb;
      [by split; [|left]|].
    split.
    + apply Hc; [by rewrite app_nil_r; apply Hok|by intros x ?%elem_of_nil].
    + left. cbn. unfold change_trader_balance in Hcb.
      by apply change_balance_orders in Hcb as [-> _].
  - unfold withdraw_balance.
    destruct (get_trader _ _); [|by split; [|left]].
    destruct (_ && _); [by split; [|left]|].
    pose proof (commit_exchange_ok ex (Withdraw trader_id ticker amount) Hok Hv)
      as Hc. cbn [commit submitted_ids submission_static] in Hc.
    destruct (change_trader_balance _ _ _ _) as [e|db'] eqn:Hcb;
      [by split; [|left]|].
    split.
    + apply Hc; [by rewrite app_nil_r; apply Hok|by intros x ?%elem_of_nil].
    + left. cbn. unfold change_trader_balance in Hcb.
      by apply change_balance_orders in Hcb as [-> _].
  - unfold get_current_user, get_trader.
    destruct (traders (ex_db ex) !! id_) as [b|] eqn:Hb; [|by split; [|left]].
    unfold create_order_endpoint, get_symbol_by_ticker.
    destruct (ex_symbols ex !! ticker) as [nm|] eqn:Hs; [|by split; [|left]].
    pose proof (commit_exchange_ok ex
                  (SubmitOrder new_id now direction ticker qty price id_) Hok Hv)
      as Hc. cbn [commit submission_static] in Hc.
    assert (exchange_ok
              (set_db ex (create_order (ex_db ex) new_id now direction ticker
                            qty price id_).1)) as Hok'.
    { apply Hc; [done|]. intros x ->%list_elem_of_singleton. cbn. by split. }
    pose proof (commit_ids_cases (ex_db ex)
                  (SubmitOrder new_id now direction ticker qty price id_) Hnd)
      as Hids. cbn [commit] in Hids.
    cbn [ret].
    destruct (create_order _ _ _ _ _ _ _ _).2 as [e|created_order];
      [|case_bool_decide]; (split; [done|exact Hids]).
  - unfold get_current_user, get_trader.
    destruct (traders (ex_db ex) !! id_) as [b|] eqn:Hb; [|by split; [|left]].
    cbn [ret].
    pose proof (commit_exchange_ok ex (CancelOrder order_id id_) Hok I) as Hc.
    cbn [commit submitted_ids submission_static] in Hc.
    assert ((delete_order_by_id (ex_db ex) order_id id_).1
            = match cancel_order (ex_db ex) order_id id_ with
              | inl _ => ex_db ex
              | inr (db', _) => db'
              end) as ->.
    { unfold delete_order_by_id.
      by destruct (cancel_order _ _ _) as [e|[db' [o|]]]. }
    split.
    + apply Hc; [by rewrite app_nil_r; apply Hok|by intros x ?%elem_of_nil].
    + left. cbn [set_db ex_db].
      destruct (commit_ids_cases (ex_db ex) (CancelOrder order_id id_))
        as [Hids|Hids]; [by rewrite app_nil_r; apply Hok|done|].
      by rewrite app_nil_r in Hids.
Qed.

Lemma empty_exchange_ok : exchange_ok empty_exchange.
Proof.
  split; cbn.
  - split; cbn; [by intros ?? ?%lookup_empty_Some..|by intros ? ?%elem_of_nil
                |by intros ? ?%elem_of_nil].
  - constructor.
  - constructor.
  - by intros ? ?%elem_of_nil.
  - intros t ticker. rewrite !lookup_empty. split; [by intros [? ?]|].
    by intros [[? ?] _].
Qed.

Lemma foldl_serve_ok rqs ex :
  exchange_ok ex → Forall valid_request rqs →
  NoDup (map o_id (orders (ex_db ex)) ++ requested_ids rqs) →
  exchange_ok (foldl serve ex rqs).
Proof.
  revert ex. induction rqs as [|rq rqs IH]; intros ex Hok Hv Hnd; [done|].
  apply Forall_cons in Hv as [Hrq Hrqs]. cbn [foldl].
  change (rq :: rqs) with ([rq] ++ rqs) in Hnd.
  unfold requested_ids in Hnd. rewrite bind_app in Hnd.
  fold (requested_ids [rq]) (requested_ids rqs) in Hnd.
  destruct (serve_ok ex rq Hok Hrq) as [Hok1 Hids].
  { rewrite app_assoc in Hnd. by apply NoDup_app in Hnd as [? _]. }
  apply IH; [done..|].
  destruct Hids as [-> | ->].
  - by apply NoDup_app_drop_mid in Hnd.
  - by rewrite <- app_assoc.
Qed.

(** X14: every state the exchange reaches through its requests is
    consistent.  Starting from the empty exchange, or from any consistent
    one, after any sequence of registrations, instrument creations,
    deposits, withdrawals, order submissions and cancellations with
    schema-valid arguments and unused order ids: balances and quantities
    are not negative, amount, filled and status of every order agree,
    order ids are a key, every order belongs to an existing trader and an
    existing instrument, and a position row exists for exactly the pairs
    of an existing trader and an existing instrument.  So the foreign
    keys and the materialised positions that the statements about
    cancelling and about holdings assume hold in every reachable
    state. *)
Theorem served_exchange_is_consistent rqs ex :
  exchange_ok ex → Forall valid_request rqs →
  NoDup (map o_id (orders (ex_db ex)) ++ requested_ids rqs) →
  let ex' := foldl serve ex rqs in
  exchange_ok empty_exchange ∧ exchange_ok ex'
  ∧ foreign_keys (ex_db ex') ∧ positions_materialised (ex_db ex').
Proof.
  intros Hok Hv Hnd ex'. split; [apply empty_exchange_ok|].
  pose proof (foldl_serve_ok rqs ex Hok Hv Hnd) as Hok'. fold ex' in Hok'.
  split; [done|]. destruct Hok' as [_ _ _ Ho Hp]. split.
  - intros o Hin. by apply Ho.
  - intros o Hin. apply Hp. by apply Ho.
Qed.







Lemma create_order_get_order db new_id now direction ticker qty price t :
  new_id ∉ map o_id (orders db) →
  let r := create_order db new_id now direction ticker qty price t in
  ∀ order, r.2 = inr order → get_order r.1 new_id = Some order ∧ o_id order = new_id.
Proof.
  intros Hfresh r order Hr. subst r. rewrite create_order_eq in Hr |- *.
  destruct (create_limit_order_row (side_of direction) db new_id now ticker qty
              (price_column price) t) as [Hrow _].
  destruct (Hrow order Hr) as (Hst&rows&Hrows&Hids).
  apply order_static_inv in Hst as (Hid&_). cbn in Hid. split; [|done].
  unfold get_order. rewrite Hrows. apply find_fresh_app.
  - intros y Hy. apply bool_decide_eq_false_2.
    apply fresh_rows with rows; [by rewrite Hids|done].
  - by apply bool_decide_eq_true_2.
Qed.

(** X16: the answers of the create_order handler.  For a ticker that is
    not listed the answer is 404 'Symbol not found' and nothing is
    written.  For a listed ticker the store is the one the dispatch
    commits.  When the dispatch returns an order, as it does whenever the
    quantity and the price fit the 32-bit columns, the order is read back
    under its id: when it is not CANCELLED the answer is its id; when it
    is, the answer is 422 'Order cancelled due to insufficient funds or
    invalid parameters', yet the CANCELLED record has been added (amount
    as requested, filled 0) while balances, positions and the trade
    journal are as before.  When an exception leaves the dispatch, it
    leaves the handler too and nothing is written.  The symbols table is
    never written. *)
Theorem create_order_endpoint_answers
    ex new_id now direction ticker qty price trader_id :
  new_id ∉ map o_id (orders (ex_db ex)) →
  let r := create_order_endpoint ex new_id now direction ticker qty price trader_id in
  let created :=
    create_order (ex_db ex) new_id now direction ticker qty price trader_id in
  (ex_symbols ex !! ticker = None →
   r = (ex, inl (HTTPException 404 "Symbol not found")))
  ∧ (is_Some (ex_symbols ex !! ticker) →
     r.1 = set_db ex created.1
     ∧ (fits_int32 qty (price_column price) → ∃ order, created.2 = inr order)
     ∧ (∀ order, created.2 = inr order →
          get_order (ex_db r.1) new_id = Some order
          ∧ ((o_status order ≠ CANCELLED ∧ r.2 = inr new_id)
             ∨ (r.2 = inl (HTTPException 422
                             "Order cancelled due to insufficient funds or invalid parameters")
                ∧ rolled_back (ex_db ex) (ex_db r.1) order qty)))
     ∧ (∀ e, created.2 = inl e → r = (ex, inl e))).
Proof.
  intros Hfresh r created. subst r.
  unfold create_order_endpoint, get_symbol_by_ticker.
  split; [by intros ->|]. intros [nm ->]. fold created.
  pose proof (create_order_get_order (ex_db ex) new_id now direction
                ticker qty price trader_id Hfresh) as Hback.
  fold created in Hback.
  split.
  { by destruct created.2 as [e|o]; [|case_bool_decide]. }
  split; [subst created; by apply create_order_returns|].
  split.
  - intros order Hc. destruct (Hback order Hc) as [Hget Hid].
    rewrite Hc. case_bool_decide as Hst; cbn [fst snd set_db ex_db];
      (split; [done|]); [right|left; by rewrite <- Hid].
    split; [done|]. subst created. rewrite create_order_eq in Hc |- *.
    destruct (create_limit_order_cases (side_of direction) (ex_db ex) new_id now
                ticker qty (price_column price) trader_id)
      as [(e&_&_&Hr&Hrb)|[(e&_&_&Hr)|(s&n&Hm&s1&Hf&_&Hr)]];
      rewrite Hr in Hc |- *; cbn [fst snd] in Hc |- *.
    + injection Hc as <-. by rewrite Hr in Hrb.
    + done.
    + injection Hc as <-. by apply committed_not_cancelled in Hm.
  - intros e Hc. rewrite Hc. cbn [fst snd]. f_equal.
    subst created. rewrite create_order_eq in Hc |- *.
    destruct (create_limit_order_row (side_of direction) (ex_db ex) new_id now
                ticker qty (price_column price) trader_id) as [_ Hraise].
    rewrite (Hraise e Hc). apply set_db_id.
Qed.


Lemma existsb_rows_false {X} (key : X → uuid * string) (l : list X)
    (ps : gmap (uuid * string) float) :
  (∀ x, x ∈ l → ps !! key x = None) →
  existsb (λ x, bool_decide (is_Some (ps !! key x))) l = false.
Proof.
  intros Hnone. apply existsb_false_iff. intros x Hx.
  apply bool_decide_eq_false_2. rewrite (Hnone x Hx). by intros [? ?].
Qed.


Lemma filter_none {X} (p : X → bool) (l : list X) :
  (∀ x, x ∈ l → p x = false) → List.filter p l = [].
Proof.
  induction l as [|a l IH]; intros Hl; cbn; [done|].
  rewrite (Hl a) by left. apply IH. intros x Hx. apply Hl. by right.
Qed.

(** X17: registering a trader opens an empty account.  In a consistent
    exchange create_trader under an unused id succeeds: the new trader has
    balance 0 and a position of 0 in every listed instrument, no order,
    and get_balance reports 0 under the base ticker and under every listed
    ticker; every other trader's balance and positions, the orders, the
    trades and the symbols are untouched.  Under an id that is in use the
    commit is refused and nothing is written. *)
Theorem create_trader_opens_an_empty_account ex new_id :
  exchange_ok ex →
  (is_Some (traders (ex_db ex) !! new_id) →
   create_trader ex new_id = inl IntegrityError)
  ∧ (traders (ex_db ex) !! new_id = None →
     ∃ ex', create_trader ex new_id = inr ex'
       ∧ ex_symbols ex' = ex_symbols ex
       ∧ orders (ex_db ex') = orders (ex_db ex)
       ∧ trades (ex_db ex') = trades (ex_db ex)
       ∧ traders (ex_db ex') !! new_id = Some (Num 0)
       ∧ (∀ ticker, is_Some (ex_symbols ex !! ticker) →
            positions (ex_db ex') !! (new_id, ticker) = Some (Num 0))
       ∧ (∀ t, t ≠ new_id →
            traders (ex_db ex') !! t = traders (ex_db ex) !! t
            ∧ ∀ ticker, positions (ex_db ex') !! (t, ticker)
                        = positions (ex_db ex) !! (t, ticker))
       ∧ get_trader_orders (ex_db ex') new_id = []
       ∧ (BASE_CURRENCY_TICKER ≠ EmptyString →
          ∃ result, get_balance (ex_db ex') new_id = inr result
            ∧ ∀ ticker,
                ticker = BASE_CURRENCY_TICKER ∨ is_Some (ex_symbols ex !! ticker) →
                result !! ticker = Some (Num 0))).
Proof.
  intros Hok. split.
  { intros Hsome. unfold create_trader. by rewrite bool_decide_eq_true_2. }
  intros Hnew.
  assert (∃ ex', create_trader ex new_id = inr ex') as [ex' Hc].
  { unfold create_trader.
    rewrite bool_decide_eq_false_2 by (rewrite Hnew; by intros [? ?]).
    rewrite existsb_rows_false; [by eexists|].
    intros ticker _. apply eq_None_not_Some. intros Hrow.
    apply (ok_positions _ Hok) in Hrow as [[? ?] _]. congruence. }
  exists ex'. split; [done|].
  apply create_trader_inr in Hc as (_&Hsym&Htr&Hor&Hj&Hpos).
  assert (get_trader_orders (ex_db ex') new_id = []) as Hnone.
  { unfold get_trader_orders. rewrite Hor. apply Permutation_nil_r.
    rewrite table_scan_rows. apply reflexive_eq, filter_none.
    intros o Hin. apply bool_decide_eq_false_2. intros Heq.
    destruct (ok_orders _ Hok o Hin) as [[b Hb] _]. congruence. }
  split_and!; [done..| | | |done|].
  - by rewrite Htr, lookup_insert_eq.
  - intros ticker Hs. rewrite Hpos. by rewrite bool_decide_eq_true_2.
  - intros t Hne. split; [by rewrite Htr, lookup_insert_ne|].
    intros ticker. rewrite Hpos. by rewrite bool_decide_eq_false_2 by tauto.
  - intros Hset. unfold get_balance, get_trader.
    rewrite Htr, lookup_insert_eq, Hnone.
    rewrite bool_decide_eq_true_2 by done. eexists. split; [reflexivity|].
    cbn [foldl]. intros ticker Hlisted.
    destruct (decide (ticker = BASE_CURRENCY_TICKER)) as [->|Hne].
    + by rewrite lookup_insert_eq.
    + rewrite lookup_insert_ne by done.
      rewrite get_trader_positions_lookup, Hpos.
      destruct Hlisted as [?|Hs]; [done|]. by rewrite bool_decide_eq_true_2.
Qed.


(** ** The levels of the order book *)

Lemma foldl_totals (F : gmap Z Z → Order → gmap Z Z) (g : Z → Order → Z)
    (l : list Order) (r0 : gmap Z Z) :
  (∀ r o p, default 0 (F r o !! p) = default 0 (r !! p) + g p o) →
  ∀ p, default 0 (foldl F r0 l !! p) = default 0 (r0 !! p) + sumZ (map (g p) l).
Proof.
  intros HF. revert r0. induction l as [|o l IH]; intros r0 p.
  { unfold sumZ. cbn. lia. }
  cbn [foldl]. rewrite IH, HF. unfold sumZ. cbn. lia.
Qed.

Lemma foldl_keys (F : gmap Z Z → Order → gmap Z Z) (hit : Z → Order → Prop)
    (l : list Order) (r0 : gmap Z Z) :
  (∀ r o p, is_Some (F r o !! p) ↔ is_Some (r !! p) ∨ hit p o) →
  ∀ p, is_Some (foldl F r0 l !! p)
       ↔ is_Some (r0 !! p) ∨ ∃ o, o ∈ l ∧ hit p o.
Proof.
  intros HF. revert r0. induction l as [|o l IH]; intros r0 p.
  { cbn. split; [by left|]. intros [?|(o&[]%elem_of_nil&_)]. done. }
  cbn [foldl]. rewrite IH, HF. split.
  - intros [[?|?]|(o'&Hin&Hh)]; [by left|right..].
    + exists o. split; [left|done].
    + exists o'. split; [by right|done].
  - intros [?|(o'&[->|Hin]%elem_of_cons&Hh)].
    + by left; left.
    + by left; right.
    + right. by exists o'.
Qed.

Lemma sumZ_map_if {X} (f : X → Z) (p : X → bool) (l : list X) :
  sumZ (map (λ x, if p x then f x else 0) l) = sumZ (map f (List.filter p l)).
Proof.
  unfold sumZ. induction l as [|x l IH]; cbn; [done|].
  destruct (p x); cbn; lia.
Qed.

Lemma sumZ_zero {X} (l : list X) : sumZ (map (λ _, 0) l) = 0.
Proof. unfold sumZ. induction l as [|x l IH]; cbn; [done|]. by rewrite IH. Qed.

Lemma aggregated_lookup (fetched : list Order) p q :
  foldl (λ (aggregated : gmap Z Z) order,
           match o_price order with
           | Some price =>
             if bool_decide (price ≠ 0)
             then <[price := default 0 (aggregated !! price) + o_amount order]> aggregated
             else aggregated
           | None => aggregated
           end) ∅ fetched !! p = Some q
  ↔ p ≠ 0 ∧ (∃ o, o ∈ fetched ∧ o_price o = Some p)
    ∧ q = fetched_total fetched p.
Proof.
  set (F := λ (aggregated : gmap Z Z) (order : Order), _).
  pose proof (foldl_totals F
    (λ p o, if bool_decide (o_price o = Some p) && bool_decide (p ≠ 0)
            then o_amount o else 0) fetched ∅) as Htot.
  pose proof (foldl_keys F (λ p o, o_price o = Some p ∧ p ≠ 0) fetched ∅) as Hkeys.
  assert (default 0 (foldl F ∅ fetched !! p)
          = if bool_decide (p ≠ 0) then fetched_total fetched p else 0) as Hd.
  { rewrite Htot.
    - rewrite lookup_empty. cbn [default]. unfold fetched_total.
      rewrite <- sumZ_map_if. case_bool_decide.
      + rewrite Z.add_0_l. f_equal. apply map_ext. intros o.
        by rewrite andb_true_r.
      + rewrite Z.add_0_l. transitivity (sumZ (map (λ _ : Order, 0) fetched)).
        * f_equal. apply map_ext. intros o. by rewrite andb_false_r.
        * apply sumZ_zero.
    - intros r o p'. subst F. cbn beta.
      destruct (o_price o) as [price|];
        [|rewrite (bool_decide_eq_false_2 (None = Some p')) by done; cbn; lia].
      case_bool_decide as Hnz.
      + rewrite lookup_insert.
        repeat (case_decide || case_bool_decide); simplify_eq; cbn; cases_done.
      + repeat case_bool_decide; simplify_eq; cbn; cases_done. }
  assert (is_Some (foldl F ∅ fetched !! p)
          ↔ ∃ o, o ∈ fetched ∧ o_price o = Some p ∧ p ≠ 0) as Hs.
  { clear Hd Htot. rewrite Hkeys.
    - rewrite lookup_empty. split; [intros [[? [=]]|?]; done|by right].
    - intros r o p'. subst F. cbn beta.
      destruct (o_price o) as [price|]; [|split; [by left|intros [?|[[=] _]]; done]].
      case_bool_decide as Hnz.
      + rewrite lookup_insert. case_decide as Hk.
        * subst p'. split; [by right|by eexists].
        * split; [by left|]. intros [?|[[=] _]]; done.
      + split; [by left|]. intros [?|[[= ->] ?]]; done. }
  split.
  - intros Hq. assert (∃ o, o ∈ fetched ∧ o_price o = Some p ∧ p ≠ 0)
      as (o&Hin&Hp&Hnz) by (apply Hs; by eexists).
    rewrite Hq in Hd. cbn in Hd. rewrite bool_decide_eq_true_2 in Hd by done.
    split_and!; [done|by exists o|done].
  - intros (Hnz&(o&Hin&Hp)&->).
    destruct (proj2 Hs) as [x Hx]; [by exists o|].
    rewrite Hx in Hd |- *. cbn in Hd.
    rewrite bool_decide_eq_true_2 in Hd by done. by rewrite Hd.
Qed.

Lemma StronglySorted_strict (l : list (Z * Z)) :
  StronglySorted item_le l → NoDup (map fst l) →
  StronglySorted (λ a b, a.1 < b.1) l.
Proof.
  induction 1 as [|a l Hl IH Hall]; intros Hnd; [constructor|].
  cbn in Hnd. apply NoDup_cons in Hnd as [Hnotin Hnd].
  constructor; [by apply IH|].
  rewrite Forall_forall in Hall |- *. intros b Hb.
  specialize (Hall b Hb). unfold item_le in Hall.
  assert (a.1 ≠ b.1); [|lia].
  intros Heq. apply Hnotin. rewrite Heq.
  by apply list_elem_of_In, in_map, list_elem_of_In.
Qed.

Lemma StronglySorted_reverse_flip {X} (R : relation X) (l : list X) :
  StronglySorted R l → StronglySorted (flip R) (reverse l).
Proof.
  induction 1 as [|a l Hl IH Hall]; [constructor|].
  rewrite reverse_cons. apply StronglySorted_app_2; [|done|repeat constructor].
  intros x1 x2 Hx1 ->%list_elem_of_singleton. rewrite elem_of_reverse in Hx1.
  rewrite Forall_forall in Hall. unfold flip. by apply Hall.
Qed.

Lemma sorted_items_spec reverse_ (m : gmap Z Z) :
  let items := sorted_items reverse_ (map_to_list m) in
  (∀ p q, (p, q) ∈ items ↔ m !! p = Some q)
  ∧ StronglySorted (λ a b, if reverse_ then b.1 < a.1 else a.1 < b.1) items.
Proof.
  assert (Transitive item_le) as Htrans by (intros a b c; unfold item_le; lia).
  assert (Total item_le) as Htotal by (intros a b; unfold item_le; lia).
  assert (StronglySorted (λ a b, a.1 < b.1) (merge_sort item_le (map_to_list m)))
    as Hasc.
  { apply StronglySorted_strict; [by apply StronglySorted_merge_sort|].
    change (NoDup ((merge_sort item_le (map_to_list m)).*1)).
    rewrite merge_sort_Permutation. apply NoDup_fst_map_to_list. }
  unfold sorted_items. split.
  - intros p q. rewrite <- elem_of_map_to_list.
    destruct reverse_; [rewrite elem_of_reverse|];
      by rewrite merge_sort_Permutation.
  - destruct reverse_; [|done]. by apply StronglySorted_reverse_flip in Hasc.
Qed.

(** X19: the levels of get_orderbook.  The bid levels come in strictly
    decreasing and the ask levels in strictly increasing order of price,
    so no price appears twice on a side; a level (price, qty) is reported
    exactly when the price is not 0 and some order fetched for that side
    carries it, and its qty is the total amount of the fetched orders at
    that price. *)
Theorem orderbook_levels_are_sorted_totals db ticker limit :
  let bids := get_orders db ticker BID limit in
  let asks := get_orders db ticker ASK limit in
  let levels := get_orderbook db ticker limit in
  StronglySorted (λ a b, b.1 < a.1) levels.1
  ∧ StronglySorted (λ a b, a.1 < b.1) levels.2
  ∧ (∀ p q, (p, q) ∈ levels.1
       ↔ p ≠ 0 ∧ (∃ o, o ∈ bids ∧ o_price o = Some p) ∧ q = fetched_total bids p)
  ∧ (∀ p q, (p, q) ∈ levels.2
       ↔ p ≠ 0 ∧ (∃ o, o ∈ asks ∧ o_price o = Some p) ∧ q = fetched_total asks p).
Proof.
  intros bids asks levels. subst levels. unfold get_orderbook, aggregate_orders.
  cbn [fst snd]. fold bids asks.
  rewrite (bool_decide_eq_true_2 (BID = BID)) by done.
  rewrite (bool_decide_eq_false_2 (ASK = BID)) by done.
  set (mb := foldl _ ∅ bids). set (ma := foldl _ ∅ asks).
  destruct (sorted_items_spec true mb) as [Hmb Hsb].
  destruct (sorted_items_spec false ma) as [Hma Hsa].
  split_and!; [done|done| |].
  - intros p q. rewrite Hmb. apply aggregated_lookup.
  - intros p q. rewrite Hma. apply aggregated_lookup.
Qed.

(** ** The book is never crossed *)

Lemma same_order_refl r : same_order r r.
Proof. by split. Qed.

Lemma loop_step_rows taker t sym price s n m rest s1 n1 :
  live_rows (orders s) (m :: rest) →
  o_status m ∈ ACTIVE_ORDER_STATUSES →
  loop_step taker t sym price s n m s1 n1 →
  ∀ r', r' ∈ orders s1 → ∃ r, r ∈ orders s ∧ same_order r r'.
Proof.
  intros Hlive Hact Hstep r' Hin.
  destruct (loop_step_live _ _ _ _ _ _ _ _ _ _ Hlive Hstep)
    as (_&l1&l2&m1&Hrows&Hrows1&Hm).
  rewrite Hrows1 in Hin. rewrite Hrows.
  apply elem_of_app in Hin as [Hin|[->|Hin]%elem_of_cons].
  - exists r'. split; [apply elem_of_app; by left|apply same_order_refl].
  - exists m. split; [apply elem_of_app; right; left|].
    split; [|done]. symmetry. by eapply partially_execute_order_static.
  - exists r'. split; [apply elem_of_app; right; by right|apply same_order_refl].
Qed.

Lemma match_orders_rows taker s t sym price n cands s' n' :
  live_rows (orders s) cands →
  (∀ m, m ∈ cands → o_status m ∈ ACTIVE_ORDER_STATUSES) →
  match_orders taker s t sym price n cands = inr (s', n') →
  ∀ r', r' ∈ orders s' → ∃ r, r ∈ orders s ∧ same_order r r'.
Proof.
  revert s n. induction cands as [|m rest IH]; intros s n Hlive Hc.
  { intros [= <- <-] r' Hin. exists r'. split; [done|apply same_order_refl]. }
  intros H. apply match_orders_cons_inr in H
    as [(_&->&_)|[(_&_&->&_)|(s1&n1&Hstep&Hrest)]].
  1,2: intros r' Hin; exists r'; split; [done|apply same_order_refl].
  intros r' Hin.
  destruct (loop_step_live _ _ _ _ _ _ _ _ _ _ Hlive Hstep) as (Hlive1&_).
  destruct (IH _ _ Hlive1 (λ m' Hm', Hc m' ltac:(by right)) Hrest r' Hin)
    as (r1&Hin1&Hst1&Hact1).
  destruct (loop_step_rows _ _ _ _ _ _ _ _ _ _ Hlive (Hc m ltac:(left)) Hstep
              r1 Hin1) as (r&Hinr&Hst&Hact).
  exists r. split; [done|]. split; [congruence|auto].
Qed.

Lemma match_orders_progress taker s t sym p n cands s' n' :
  live_rows (orders s) cands →
  (∀ m, m ∈ cands → o_status m ∈ ACTIVE_ORDER_STATUSES ∧ 1 ≤ o_amount m) →
  0 ≤ o_amount n →
  match_orders taker s t sym (Some p) n cands = inr (s', n') →
  o_amount n' ≠ 0 →
  ∃ pre post, cands = pre ++ post
    ∧ (∀ m r', m ∈ pre → r' ∈ orders s' → o_id r' = o_id m →
               o_status r' ∉ ACTIVE_ORDER_STATUSES)
    ∧ 0 ≤ o_amount n' ≤ o_amount n - Z.of_nat (length pre)
    ∧ match post with
      | [] => True
      | g :: _ => ∃ mp, o_price g = Some mp ∧ beyond_limit taker p mp
      end.
Proof.
  revert s n. induction cands as [|m rest IH]; intros s n Hlive Hc Hn.
  { intros [= <- <-] Hnz. exists [], []. cbn. split_and!; try done; try lia.
    by intros ?? ?%elem_of_nil. }
  intros H Hnz. apply match_orders_cons_inr in H
    as [(Hz&_&->)|[(_&Hg&->&->)|(s1&n1&Hstep&Hrest)]]; [done| |].
  { exists [], (m :: rest). cbn. split_and!; try done; try lia.
    - by intros ?? ?%elem_of_nil.
    - apply gate_inr_true in Hg as (p'&mp&[= <-]&Hmp&Hb). by exists mp. }
  destruct (Hc m ltac:(left)) as [Hact Hma].
  destruct (loop_step_live _ _ _ _ _ _ _ _ _ _ Hlive Hstep)
    as (Hlive1&l1&l2&m1&Hrows&Hrows1&Hm).
  pose proof (loop_step_amount _ _ _ _ _ _ _ _ _ Hstep) as [Hn1 _].
  assert (∀ m', m' ∈ rest →
            o_status m' ∈ ACTIVE_ORDER_STATUSES ∧ 1 ≤ o_amount m') as Hc'.
  { intros m' Hm'. apply Hc. by right. }
  assert (0 ≤ o_amount n1) as Hn1pos by lia.
  destruct (IH _ _ Hlive1 Hc' Hn1pos Hrest Hnz)
    as (pre&post&->&Hpre&Hle&Hpost).
  (* the candidate was consumed in full, or the remainder would be zero *)
  assert (o_amount m ≤ o_amount n) as Hfull.
  { destruct (decide (o_amount m ≤ o_amount n)); [done|exfalso].
    assert (o_amount n1 = 0) by lia.
    destruct pre as [|m2 pre]; [|cbn in Hle; lia].
    destruct post as [|g post].
    - cbn in Hrest. by injection Hrest as <- <-.
    - cbn [app match_orders] in Hrest.
      rewrite bool_decide_eq_true_2 in Hrest by done.
      by injection Hrest as <- <-. }
  apply partially_execute_order_inr in Hm as [_ Hm1].
  assert (o_status m1 = EXECUTED ∧ o_id m1 = o_id m) as [Hex Hid].
  { subst m1. cbn. rewrite bool_decide_eq_true_2 by lia. done. }
  exists (m :: pre), post. split_and!; [done| |lia|cbn [length]; lia|done].
  intros m' r' [->|Hin]%elem_of_cons Hr' Hidr; [|by eapply Hpre].
  destruct (match_orders_rows _ _ _ _ _ _ _ _ _ Hlive1
              (λ m' Hm', proj1 (Hc' m' Hm')) Hrest r' Hr') as (r&Hr&Hst&Hmono).
  assert (r = m1) as ->.
  { destruct Hlive1 as (Hnd1&_&_).
    apply (NoDup_map_eq o_id (orders s1)); [done..| |].
    - rewrite Hrows1. apply elem_of_app. right. left.
    - apply order_static_inv in Hst as (Hi&_). cbn in Hi. congruence. }
  intros Hact'. apply Hmono in Hact'. rewrite Hex, active_status_iff in Hact'.
  by destruct Hact'.
Qed.



Lemma resting_order_is_beyond_the_book taker db t sym q p n0 s n :
  wf_db db → NoDup (map o_id (orders db)) →
  o_amount n0 = q → 0 < q →
  match_orders taker db t sym (Some p) n0
    (__get_orders db sym (opposite taker) q) = inr (s, n) →
  o_amount n ≠ 0 →
  ∀ r' pr, r' ∈ orders s → o_status r' ∈ ACTIVE_ORDER_STATUSES →
    o_direction r' = opposite taker → o_symbol_ticker r' = sym →
    o_price r' = Some pr → beyond_limit taker p pr.
Proof.
  intros Hwf Hnd Hq0 Hq Hm Hnz r' pr Hr' Hact' Hdir' Hsym' Hpr'.
  pose proof (get_orders_live db sym (opposite taker) q Hnd) as Hlive.
  assert (∀ m, m ∈ __get_orders db sym (opposite taker) q →
            o_status m ∈ ACTIVE_ORDER_STATUSES ∧ 1 ≤ o_amount m) as Hc.
  { intros m (Hin&_&_&Hact)%elem_of_get_orders. split; [done|].
    by destruct (wf_active _ Hwf m Hin Hact). }
  destruct (match_orders_rows _ _ _ _ _ _ _ _ _ Hlive
              (λ m Hm', proj1 (Hc m Hm')) Hm r' Hr') as (r&Hr&Hst&Hmono).
  assert (0 ≤ o_amount n0) as Hn0 by lia.
  destruct (match_orders_progress _ _ _ _ _ _ _ _ _ Hlive Hc Hn0 Hm Hnz)
    as (pre&post&Hcands&Hpre&Hle&Hpost).
  assert (o_id r = o_id r' ∧ o_symbol_ticker r = sym
          ∧ o_direction r = opposite taker ∧ o_price r = Some pr)
    as (Hid&Hsym&Hdir&Hpr).
  { unfold order_static in Hst. injection Hst as ? ? ? ? ? ? ?.
    split_and!; congruence. }
  assert (r ∈ book db sym (opposite taker)) as Hbook.
  { apply elem_of_book. split_and!; [done..|by apply Hmono]. }
  pose proof (proj1 (book_priority db sym (opposite taker))) as Hsorted.
  rewrite <- (get_orders_prefix db sym (opposite taker) q) in Hbook, Hsorted.
  rewrite Hcands in Hbook, Hsorted.
  rewrite <- app_assoc in Hbook, Hsorted.
  apply elem_of_app in Hbook as [Hin|Hin].
  { exfalso. by apply (Hpre r r'). }
  destruct post as [|g post].
  - (* every candidate was consumed: there were fewer than [q] of them *)
    exfalso. cbn [app] in Hin. rewrite app_nil_r in Hcands.
    assert (length pre = Z.to_nat q) as Hlen.
    { rewrite <- Hcands. unfold __get_orders. rewrite length_take.
      apply Nat.min_l.
      assert (length (drop (Z.to_nat q) (book db sym (opposite taker))) ≠ 0%nat)
        as Hd by (destruct (drop _ _); [by apply elem_of_nil in Hin|done]).
      rewrite length_drop in Hd. lia. }
    lia.
  - destruct Hpost as (mp&Hmp&Hbeyond).
    apply StronglySorted_app_1_r in Hsorted. cbn [app] in Hin, Hsorted.
    apply elem_of_cons in Hin as [->|Hin].
    { assert (pr = mp) as -> by congruence. done. }
    apply StronglySorted_cons in Hsorted as [Hall _].
    rewrite Forall_forall in Hall. specialize (Hall r Hin).
    unfold price_time_priority in Hall. rewrite Hmp, Hpr in Hall.
    unfold beyond_limit in *. destruct taker; cbn in Hall; lia.
Qed.

Lemma create_limit_order_uncrossed taker db new_id now sym q price t :
  wf_db db → NoDup (map o_id (orders db)) → uncrossed db → 0 < q →
  uncrossed (create_limit_order taker db new_id now sym q price t).1.
Proof.
  intros Hwf Hnd Hun Hq.
  destruct (create_limit_order_cases taker db new_id now sym q price t)
    as [(e&_&_&->&_)|[(e&_&_&->)|(s&n&Hm&s1&Hf&_&->)]];
    cbn [fst add_order set_orders orders]; [|done|].
  { intros b a pb pa [Hb|Hb%list_elem_of_singleton]%elem_of_app
      [Ha|Ha%list_elem_of_singleton]%elem_of_app Hab Haa; subst;
      cbn in Hab, Haa; rewrite ?active_status_iff in Hab, Haa;
      try (by destruct Hab); try (by destruct Haa).
    apply Hun; try done; by apply active_status_iff. }
  pose proof (match_orders_tracks _ _ _ _ _ _ _ _ _ _ (tracks_refl _) Hm) as Htr.
  apply freeze_remainder_orders in Hf as [Hos _].
  pose proof (get_orders_live db sym (opposite taker) q Hnd) as Hlive.
  assert (∀ r', r' ∈ orders s → ∃ r, r ∈ orders db ∧ same_order r r') as Hrows.
  { eapply match_orders_rows; [done| |done].
    intros m Hin. apply elem_of_get_orders in Hin. tauto. }
  assert (∀ r' pr p, price = Some p → o_status n ∈ ACTIVE_ORDER_STATUSES →
            r' ∈ orders s → o_status r' ∈ ACTIVE_ORDER_STATUSES →
            o_direction r' = opposite taker → o_symbol_ticker r' = sym →
            o_price r' = Some pr → beyond_limit taker p pr) as Hbeyond.
  { intros r' pr p -> Hact.
    apply (resting_order_is_beyond_the_book taker db t sym q p
             (new_order_of taker new_id now sym q (Some p) t) s n
             Hwf Hnd eq_refl Hq Hm).
    rewrite active_status_iff in Hact.
    destruct (tracks_status _ _ Htr) as [->|[[Hex _]|[_ Hnz]]];
      [cbn; lia| |done].
    rewrite Hex in Hact. by destruct Hact. }
  destruct Htr as [_ _ Hnsym Hnprice Hndir _ _ _]. cbn in Hnsym, Hnprice, Hndir.
  unfold uncrossed. cbn [add_order set_orders orders]. rewrite Hos.
  intros b a pb pa [Hb|Hb%list_elem_of_singleton]%elem_of_app
    [Ha|Ha%list_elem_of_singleton]%elem_of_app Hab Haa Hdb Hda Hsym Hpb Hpa;
    try subst b; try subst a.
  - destruct (Hrows b Hb) as (b0&Hb0&Hstb&Hmb).
    destruct (Hrows a Ha) as (a0&Ha0&Hsta&Hma).
    unfold order_static in Hstb, Hsta.
    injection Hstb as ? ? ? ? ? ? ?. injection Hsta as ? ? ? ? ? ? ?.
    apply (Hun b0 a0); try congruence; auto.
  - (* the new order is the ASK *)
    assert (taker = ASK) as -> by congruence.
    assert (beyond_limit ASK pa pb) as Hlt; [|exact Hlt].
    eapply Hbeyond; try done; congruence.
  - (* the new order is the BID *)
    assert (taker = BID) as -> by congruence.
    assert (beyond_limit BID pb pa) as Hlt; [|unfold beyond_limit in Hlt; lia].
    eapply Hbeyond; try done; congruence.
  - congruence.
Qed.

Lemma commit_uncrossed db op :
  wf_db db → uncrossed db → valid_operation op →
  NoDup (map o_id (orders db) ++ submitted_ids [op]) →
  uncrossed (commit db op).
Proof.
  intros Hwf Hun Hv [Hnd _]%NoDup_app. destruct op; cbn [commit valid_operation] in *.
  - rewrite create_order_eq. apply create_limit_order_uncrossed; try done. lia.
  - destruct (cancel_order _ _ _) as [e|[db' [o'|]]] eqn:Hc; [done| |].
    2:{ by apply cancel_order_inr_None in Hc as ->. }
    apply cancel_order_inr_Some in Hc
      as (order&s&Hin&_&_&_&_&Hos&_&->&->).
    destruct (list_elem_of_split _ _ Hin) as (l1&l2&Hrows).
    assert (orders (flush_order s (set_status order CANCELLED))
            = l1 ++ set_status order CANCELLED :: l2) as Hrows'.
    { unfold flush_order. cbn [orders set_orders]. rewrite Hos, Hrows.
      apply flush_order_split; [by rewrite <- Hrows|done]. }
    assert (∀ r, r ∈ l1 ++ set_status order CANCELLED :: l2 →
              o_status r ∈ ACTIVE_ORDER_STATUSES → r ∈ orders db) as Hold.
    { intros r Hr Hact. rewrite Hrows.
      apply elem_of_app in Hr as [Hr|[->|Hr]%elem_of_cons].
      - apply elem_of_app. by left.
      - cbn in Hact. rewrite active_status_iff in Hact. by destruct Hact.
      - apply elem_of_app. right. by right. }
    intros b a pb pa Hb Ha Hab Haa. rewrite Hrows' in Hb, Ha.
    apply Hun; auto.
  - unfold change_trader_balance.
    destruct (__change_balance _ _ _ _) eqn:Hc; [done|].
    apply change_balance_orders in Hc as [Hos _].
    unfold uncrossed. by rewrite Hos.
  - unfold change_trader_balance.
    destruct (__change_balance _ _ _ _) eqn:Hc; [done|].
    apply change_balance_orders in Hc as [Hos _].
    unfold uncrossed. by rewrite Hos.
Qed.

Lemma commits_uncrossed ops db :
  wf_db db → uncrossed db → Forall valid_operation ops →
  NoDup (map o_id (orders db) ++ submitted_ids ops) →
  uncrossed (foldl commit db ops).
Proof.
  revert db. induction ops as [|op ops IH]; intros db Hwf Hun Hv Hnd; [done|].
  apply Forall_cons in Hv as [Hop Hops]. cbn [foldl].
  apply commit_fresh in Hnd as [Hnd1 Hnd].
  apply IH; [by apply commit_wf|by apply commit_uncrossed|done|done].
Qed.

(** X20: the book is never crossed.  Starting from a well-formed store
    whose book is not crossed (the empty one is), after any sequence of
    committed operations with schema-valid arguments and unused order ids,
    every active BID of a ticker is priced strictly below every active ASK
    of that ticker: an order that comes to rest has first taken every
    resting order it could trade with.  So in the levels get_orderbook
    reports, every bid price is below every ask price. *)
Theorem book_is_never_crossed ops db ticker limit :
  wf_db db → uncrossed db → Forall valid_operation ops →
  NoDup (map o_id (orders db) ++ submitted_ids ops) →
  let db' := foldl commit db ops in
  uncrossed db'
  ∧ ∀ pb qb pa qa,
      (pb, qb) ∈ (get_orderbook db' ticker limit).1 →
      (pa, qa) ∈ (get_orderbook db' ticker limit).2 → pb < pa.
Proof.
  intros Hwf Hun Hv Hnd db'.
  pose proof (commits_uncrossed ops db Hwf Hun Hv Hnd) as Hun'. fold db' in Hun'.
  split; [done|]. intros pb qb pa qa Hb Ha.
  unfold get_orderbook, aggregate_orders in Hb, Ha. cbn [fst snd] in Hb, Ha.
  apply (proj1 (sorted_items_spec _ _)), aggregated_lookup in Hb
    as (_&(b&Hinb&Hpb)&_).
  apply (proj1 (sorted_items_spec _ _)), aggregated_lookup in Ha
    as (_&(a&Hina&Hpa)&_).
  apply elem_of_get_orders in Hinb as (Hinb&Hsb&Hdb&Hab).
  apply elem_of_get_orders in Hina as (Hina&Hsa&Hda&Haa).
  apply (Hun' b a); try done. congruence.
Qed.

End Engine.

(** * Scenarios

    The theorems above at concrete stores, with RUB as base currency. *)

Lemma book_db_wf : wf_db book_db.
Proof. apply wf_dbb_correct. vm_compute. reflexivity. Defined.

Lemma book_db_ids : NoDup (map o_id (orders book_db)).
Proof. apply (bool_decide_unpack _). vm_compute. exact I. Defined.

Lemma book_db_foreign_keys : foreign_keys book_db.
Proof. apply foreign_keysb_correct. vm_compute. reflexivity. Defined.




Lemma newest_first_rows rows : newest_first rows ≡ₚ rows.
Proof. apply reverse_Permutation. Defined.

(** Scenario 2 of the specification: a BUY 5 @ 10 by trader 1 trades
    3 @ 10 against the first ASK and stops at the ASK priced 11. *)
Lemma limit_order_matches_in_price_time_priority_witness :
  let b := create_limit_buy_order "RUB" book_db 20%N 5 "AAA" 5 (Some 10) 1%N in
  0 < 5 ∧ 0 < 10
  ∧ ∃ order ts,
      b.2 = inr order ∧ o_status order = PARTIALLY_EXECUTED
      ∧ trades b.1 = trades book_db ++ ts
      ∧ fills BID 1%N "AAA" (Some 10) 5 (__get_orders book_db "AAA" ASK 5) ts
          (o_amount order).
Proof.
  intros b.
  assert (0 < 5) as Hq by lia. assert (0 < 10) as Hp by lia.
  assert (∃ order, b.2 = inr order ∧ o_status order = PARTIALLY_EXECUTED)
    as (order&Hb&Hst) by (vm_compute; eauto).
  split; [exact Hq|]. split; [exact Hp|].
  destruct (limit_order_matches_in_price_time_priority "RUB" book_db 20%N 5 "AAA"
              5 10 1%N Hq Hp) as (_&_&_&_&(Hfills&_)&_).
  destruct (Hfills order Hb) as (ts&Hts&Hwalk); [rewrite Hst; discriminate|].
  exists order, ts. split_and!; [exact Hb|exact Hst|exact Hts|exact Hwalk].
Defined.



(** Trader 2 of [thin_db] has no cash and bids 1 @ 2^31: the check in buy
    fails, and the CANCELLED record does not fit the price column either;
    nothing is persisted. *)
Lemma insufficient_funds_record_is_refused :
  let r := create_limit_buy_order "RUB" thin_db 20%N 2 "CCC" 1 (Some (2 ^ 31)) 2%N in
  try_limit_buy_order "RUB" thin_db "CCC" (Some (2 ^ 31)) 2%N
    (mkOrder 20%N 2%N "CCC" 1 0 (Some (2 ^ 31)) BID NEW 2)
    (__get_orders thin_db "CCC" ASK 1)
  = inl (Exception "Not enough balance")
  ∧ r.2 = inl DBAPIError ∧ orders r.1 = orders thin_db.
Proof. vm_compute. done. Qed.





Lemma amount_plus_filled_is_original_witness :
  let r := create_limit_buy_order "RUB" book_db 20%N 5 "AAA" 5 (Some 10) 1%N in
  NoDup (map o_id (orders book_db)) ∧ 0 < 5 ∧ fits_int32 5 (Some 10)
  ∧ ∃ order, r.2 = inr order ∧ original_amount order = 5
      ∧ map order_key (orders r.1) ≡ₚ map order_key (orders book_db) ++ [(20%N, 5)].
Proof.
  intros r.
  assert (0 < 5) as Hq by lia.
  assert (fits_int32 5 (Some 10)) as Hfit by (vm_compute; intuition discriminate).
  split; [apply book_db_ids|]. split; [exact Hq|]. split; [exact Hfit|].
  destruct (proj1 (proj2 (amount_plus_filled_is_original "RUB" book_db book_db_ids))
              20%N 5 "AAA" 5 (Some 10) 1%N Hq) as (Hrow&_&Hret).
  destruct (Hret Hfit) as (order&Hr).
  destruct (Hrow order Hr) as (_&Ho&Hkeys).
  exists order. split; [exact Hr|]. split; [exact Ho|exact Hkeys].
Defined.

(** A balance of 2^53 and a withdrawal of 2^53 + 1, whose exact result
    would be -1: the amount is rounded to 2^53 when it is converted,
    the sum is 0.0, no error is raised and 0 is committed. *)
Lemma withdrawal_beyond_the_balance_is_committed :
  traders brim_db !! 1%N = Some (Num (2 ^ 53)) ∧ 2 ^ 53 < 2 ^ 53 + 1
  ∧ change_trader_balance "RUB" brim_db 1%N "RUB" (- (2 ^ 53 + 1))
    = inr (set_traders brim_db (<[1%N := Num 0]> (traders brim_db)))
  ∧ traders (commit "RUB" brim_db (Withdraw 1%N "RUB" (2 ^ 53 + 1))) !! 1%N
    = Some (Num 0).
Proof. vm_compute. done. Qed.

Lemma balances_and_quantities_never_negative_witness :
  let ops := [SubmitOrder 20%N 5 BUY "AAA" 5 (Some 10) 1%N;
              CancelOrder 11%N 2%N;
              Withdraw 2%N "RUB" 100] in
  wf_db book_db ∧ Forall valid_operation ops
  ∧ ∀ t b, traders (foldl (commit "RUB") book_db ops) !! t = Some b →
           not_negative b.
Proof.
  intros ops.
  assert (Forall valid_operation ops) as Hops.
  { repeat constructor; cbn; lia. }
  split; [apply book_db_wf|]. split; [exact Hops|].
  exact (proj1 (balances_and_quantities_never_negative "RUB" book_db ops
                  book_db_wf Hops)).
Defined.

Lemma cancel_order_succeeds_iff_witness :
  NoDup (map o_id (orders book_db)) ∧ wf_db book_db ∧ foreign_keys book_db
  ∧ ((∃ db' order', cancel_order "RUB" book_db 10%N 2%N = inr (db', Some order'))
     ↔ ∃ order, owned_order book_db 10%N 2%N order
                ∧ o_status order = NEW ∧ o_price order ≠ None).
Proof.
  split_and!; [apply book_db_ids|apply book_db_wf|apply book_db_foreign_keys|].
  exact (proj1 (cancel_order_succeeds_iff "RUB" book_db 10%N 2%N
                  book_db_ids book_db_wf book_db_foreign_keys)).
Defined.

(** A balance of 2^53 + 2 and a BID 1 @ 1 that rests: freezing 1 stores
    2^53, and the refund of the cancellation, 2^53 + 1, is stored as 2^53
    again; the balance is 2 short of what it was. *)
Lemma submit_then_cancel_loses_the_last_bits :
  let b := create_limit_buy_order "RUB" big_db 20%N 5 "AAA" 1 (Some 1) 1%N in
  ∃ order db2,
    b.2 = inr order ∧ o_status order = NEW
    ∧ cancel_order "RUB" b.1 20%N 1%N = inr (db2, Some (set_status order CANCELLED))
    ∧ traders big_db !! 1%N = Some (Num (2 ^ 53 + 2))
    ∧ traders db2 !! 1%N = Some (Num (2 ^ 53))
    ∧ traders db2 ≠ traders big_db.
Proof.
  vm_compute. eexists _, _. split_and!; try reflexivity.
  intros H. discriminate H.
Qed.


(** C9: get_orderbook at depth 1 over two resting ASKs at price 10 (amounts
    3 and 4) reports the level with quantity 3, the sum over the one order
    fetched, while the active orders at that price total 7; the limit is
    applied to the orders before they are aggregated into levels.  At
    depth 2 the same level is reported with 7. *)
Theorem orderbook_level_sums_fetched_orders_only :
  get_orderbook level_db "AAA" 1 = ([], [(10, 3)])
  ∧ level_total level_db "AAA" ASK 10 = 7
  ∧ get_orderbook level_db "AAA" 2 = ([], [(10, 7)]).
Proof. vm_compute. done. Qed.

Lemma fetch_limit_never_underfills_witness :
  0 < 2
  ∧ (∀ o, o ∈ orders book_db → o_status o ∈ ACTIVE_ORDER_STATUSES → 1 ≤ o_amount o)
  ∧ match_asks book_db 1%N "AAA" (Some 11)
      (mkOrder 20%N 1%N "AAA" 2 0 (Some 11) BID NEW 5)
      (__get_orders book_db "AAA" ASK 2)
    = match_asks book_db 1%N "AAA" (Some 11)
        (mkOrder 20%N 1%N "AAA" 2 0 (Some 11) BID NEW 5)
        (book book_db "AAA" ASK).
Proof.
  assert (0 < 2) as Hq by lia.
  assert (∀ o, o ∈ orders book_db → o_status o ∈ ACTIVE_ORDER_STATUSES
               → 1 ≤ o_amount o) as Hact.
  { intros o Ho Hst. by destruct (wf_active _ book_db_wf o Ho Hst). }
  split_and!; [done..|].
  exact (proj1 (fetch_limit_never_underfills book_db 20%N 5 "AAA" 2 (Some 11) 1%N
                  Hq Hact)).
Defined.

(** ** Reading orders back, listing, cancelling twice *)

Lemma book_db_fresh : 20%N ∉ map o_id (orders book_db).
Proof. apply (bool_decide_unpack _). vm_compute. exact I. Defined.

(** The BUY 5 @ 10 of scenario 2, submitted under the unused id 20. *)
Lemma submitted_order_is_read_back_witness :
  let r := create_order "RUB" book_db 20%N 5 BUY "AAA" 5 (Some 10) 1%N in
  (20%N ∉ map o_id (orders book_db)) ∧ fits_int32 5 (price_column (Some 10))
  ∧ ∃ order, r.2 = inr order ∧ get_order r.1 20%N = Some order.
Proof.
  intros r.
  assert (fits_int32 5 (price_column (Some 10))) as Hfit
    by (vm_compute; intuition discriminate).
  split; [apply book_db_fresh|]. split; [exact Hfit|].
  destruct (submitted_order_is_read_back "RUB" book_db 20%N 5 BUY "AAA" 5
              (Some 10) 1%N book_db_fresh) as (Hret&Hback&_).
  destruct (Hret Hfit) as (order&Hr).
  exists order. split; [exact Hr|]. exact (proj1 (Hback order Hr)).
Defined.


Lemma list_orders_agrees_with_get_order_by_id_witness :
  NoDup (map o_id (orders book_db))
  ∧ ∀ resp, resp ∈ list_orders newest_first (λ _, "t") book_db 2%N →
      get_order_by_id (λ _, "t") book_db (resp_id resp) 2%N = inr resp.
Proof.
  split; [apply book_db_ids|].
  exact (proj1 (proj2
    (list_orders_agrees_with_get_order_by_id newest_first newest_first_rows
       (λ _, "t") book_db 2%N book_db_ids))).
Defined.


(** Trader 2 cancels the resting ASK 10, and tries again. *)
Lemma cancelled_order_cannot_be_cancelled_again_witness :
  let db' := (delete_order_by_id "RUB" book_db 10%N 2%N).1 in
  delete_order_by_id "RUB" book_db 10%N 2%N = (db', inr true)
  ∧ delete_order_by_id "RUB" db' 10%N 2%N
    = (db', inl (HTTPException 400 "Order executed/partially_executed/cancelled")).
Proof.
  intros db'.
  assert (delete_order_by_id "RUB" book_db 10%N 2%N = (db', inr true)) as H
    by (vm_compute; reflexivity).
  split; [exact H|].
  exact (proj1 (cancelled_order_cannot_be_cancelled_again "RUB" book_db 10%N 2%N
                  db' H)).
Defined.



(** ** Lifecycle, trades and holdings *)

Lemma book_db_lifecycle : Forall lifecycle (orders book_db).
Proof. repeat constructor; unfold lifecycle; cbn; lia. Defined.


Lemma order_lifecycle_is_kept_witness :
  let ops := [SubmitOrder 20%N 5 BUY "AAA" 5 (Some 10) 1%N;
              CancelOrder 11%N 2%N; Withdraw 3%N "RUB" 7] in
  Forall lifecycle (orders book_db) ∧ Forall valid_operation ops
  ∧ Forall lifecycle (orders (foldl (commit "RUB") book_db ops)).
Proof.
  intros ops.
  assert (Forall valid_operation ops) as Hv by (repeat constructor; cbn; lia).
  split_and!; [apply book_db_lifecycle|exact Hv|].
  exact (proj1 (order_lifecycle_is_kept "RUB" newest_first newest_first_rows ops
                  book_db book_db_lifecycle Hv)).
Defined.

(** Scenario 2 again: the BUY 5 @ 10 journals one trade of 3 @ 10. *)
Lemma submission_trades_respect_the_limit_witness :
  let r := create_order "RUB" book_db 20%N 5 BUY "AAA" 5 (Some 10) 1%N in
  wf_db book_db ∧ 0 < 5
  ∧ ∃ order ts,
      r.2 = inr order ∧ trades r.1 = trades book_db ++ ts
      ∧ sumZ (map t_amount ts) = o_filled order
      ∧ Forall (trade_from BID 1%N "AAA" (Some 10) (book book_db "AAA" ASK)) ts.
Proof.
  intros r.
  assert (0 < 5) as Hq by lia.
  assert (∃ order, r.2 = inr order) as (order&Hr) by (vm_compute; eauto).
  split; [apply book_db_wf|]. split; [exact Hq|].
  destruct (submission_trades_respect_the_limit "RUB" book_db 20%N 5 BUY "AAA" 5
              (Some 10) 1%N book_db_wf Hq) as (ts&Hts&Hsum&_&Hall).
  exists order, ts. split; [exact Hr|]. split; [exact Hts|].
  split; [exact (proj1 (Hsum order Hr))|exact Hall].
Defined.


(** ** A small exchange, reached through its requests *)

Lemma demo_exchange_ok :
  exchange_ok (foldl (serve "RUB") empty_exchange demo_requests).
Proof.
  apply foldl_serve_ok.
  - apply empty_exchange_ok.
  - repeat constructor; cbn; lia.
  - apply (bool_decide_unpack _). vm_compute. exact I.
Defined.

(** After the set-up an ASK rests, is hit in part by a BUY, and is then
    cancelled by its owner. *)
Lemma served_exchange_is_consistent_witness :
  let rqs := demo_requests
             ++ [PostOrder 2%N 10%N 1 SELL "AAA" 3 (Some 10);
                 PostOrder 1%N 11%N 2 BUY "AAA" 2 (Some 10);
                 DeleteOrder 2%N 10%N] in
  exchange_ok empty_exchange ∧ Forall valid_request rqs
  ∧ NoDup (map o_id (orders (ex_db empty_exchange)) ++ requested_ids rqs)
  ∧ exchange_ok (foldl (serve "RUB") empty_exchange rqs)
  ∧ positions_materialised (ex_db (foldl (serve "RUB") empty_exchange rqs)).
Proof.
  intros rqs.
  assert (Forall valid_request rqs) as Hv by (repeat constructor; cbn; lia).
  assert (NoDup (map o_id (orders (ex_db empty_exchange)) ++ requested_ids rqs))
    as Hnd by (apply (bool_decide_unpack _); vm_compute; exact I).
  pose proof (served_exchange_is_consistent "RUB" rqs empty_exchange
                empty_exchange_ok Hv Hnd) as (_&Hok&_&Hpm).
  split_and!; [apply empty_exchange_ok|exact Hv|exact Hnd|exact Hok|exact Hpm].
Defined.


(** A SELL 3 @ 10 by trader 2, who holds 10 AAA, rests; its id is
    answered and the order is read back. *)
Lemma create_order_endpoint_answers_witness :
  let ex := foldl (serve "RUB") empty_exchange demo_requests in
  let r := create_order_endpoint "RUB" ex 10%N 1 SELL "AAA" 3 (Some 10) 2%N in
  (10%N ∉ map o_id (orders (ex_db ex)))
  ∧ is_Some (ex_symbols ex !! "AAA") ∧ fits_int32 3 (price_column (Some 10))
  ∧ ∃ order, get_order (ex_db r.1) 10%N = Some order ∧ r.2 = inr 10%N.
Proof.
  intros ex r.
  assert (10%N ∉ map o_id (orders (ex_db ex))) as Hfresh
    by (apply (bool_decide_unpack _); vm_compute; exact I).
  assert (is_Some (ex_symbols ex !! "AAA")) as Hs by (vm_compute; eauto).
  assert (fits_int32 3 (price_column (Some 10))) as Hfit
    by (vm_compute; intuition discriminate).
  assert (r.2 = inr 10%N) as Hr by (vm_compute; reflexivity).
  split_and!; [exact Hfresh|exact Hs|exact Hfit|].
  destruct (proj2 (create_order_endpoint_answers "RUB" ex 10%N 1 SELL "AAA" 3
                     (Some 10) 2%N Hfresh) Hs) as (_&Hret&Hback&_).
  destruct (Hret Hfit) as (order&Hc).
  exists order. split; [exact (proj1 (Hback order Hc))|exact Hr].
Defined.

Lemma create_trader_opens_an_empty_account_witness :
  let ex := foldl (serve "RUB") empty_exchange demo_requests in
  exchange_ok ex ∧ traders (ex_db ex) !! 7%N = None
  ∧ ∃ ex', create_trader ex 7%N = inr ex'
      ∧ traders (ex_db ex') !! 7%N = Some (Num 0)
      ∧ positions (ex_db ex') !! (7%N, "AAA") = Some (Num 0).
Proof.
  intros ex.
  assert (traders (ex_db ex) !! 7%N = None) as Hnew by (vm_compute; reflexivity).
  assert (is_Some (ex_symbols ex !! "AAA")) as Hs by (vm_compute; eauto).
  split_and!; [apply demo_exchange_ok|exact Hnew|].
  destruct (proj2 (create_trader_opens_an_empty_account "RUB" newest_first
                     newest_first_rows ex 7%N demo_exchange_ok) Hnew)
    as (ex'&Hc&_&_&_&Hb&Hp&_).
  exists ex'. split_and!; [exact Hc|exact Hb|exact (Hp "AAA" Hs)].
Defined.


(** ** The book stays uncrossed *)

Lemma book_db_uncrossed : uncrossed book_db.
Proof.
  intros b a pb pa Hb _ _ _ Hdb. cbn in Hb.
  repeat (apply elem_of_cons in Hb as [->|Hb]; [discriminate Hdb|]).
  by apply elem_of_nil in Hb.
Defined.

(** A BUY 5 @ 10 takes the ASK at 10 and rests below the ASK at 11; a
    second BUY rests at 9; the ASK at 11 is cancelled. *)
Lemma book_is_never_crossed_witness :
  let ops := [SubmitOrder 20%N 5 BUY "AAA" 5 (Some 10) 1%N;
              SubmitOrder 21%N 6 BUY "AAA" 1 (Some 9) 3%N;
              CancelOrder 11%N 2%N] in
  wf_db book_db ∧ uncrossed book_db ∧ Forall valid_operation ops
  ∧ NoDup (map o_id (orders book_db) ++ submitted_ids ops)
  ∧ uncrossed (foldl (commit "RUB") book_db ops).
Proof.
  intros ops.
  assert (Forall valid_operation ops) as Hv by (repeat constructor; cbn; lia).
  assert (NoDup (map o_id (orders book_db) ++ submitted_ids ops)) as Hnd
    by (apply (bool_decide_unpack _); vm_compute; exact I).
  split_and!; [apply book_db_wf|apply book_db_uncrossed|exact Hv|exact Hnd|].
  exact (proj1 (book_is_never_crossed "RUB" ops book_db "AAA" 10 book_db_wf
                  book_db_uncrossed Hv Hnd)).
Defined.
